(** * gemmi [merge.hpp]: reading and merging reflection intensities

    A shallow embedding of [struct Intensities] and of the readers of
    [include/gemmi/merge.hpp].  A C++ [double] is a binary64 value of the
    kernel ([PrimFloat.float]), an [int] is a [Z], a [std::vector] is a [list]
    that is indexed and overwritten in place, a pointer that may be null is
    an [option], and a call of [fail] (which throws) or a null dereference
    ends a computation in the [outcome] type.  The reader of mmJSON of
    [include/gemmi/json.hpp] has a part of its own further down. *)

From Stdlib Require Import ZArith Floats.
From Stdlib Require Uint63.
From stdpp Require Import base list strings sorting pretty.

Open Scope Z_scope.

(** ** Outcomes of a call *)

(** [Ok a]: the call returns [a].  [Fail msg]: the call leaves through
    [fail(msg)], which throws.  [Undefined]: the call runs into undefined
    behaviour (a null pointer is dereferenced, a vector is read past its
    end, a float outside the [int] range is cast).  [Diverges]: a loop of
    the call never ends. *)
Inductive outcome (A : Type) : Type :=
  | Ok (a : A)
  | Fail (msg : string)
  | Undefined
  | Diverges.
Arguments Ok {A} a.
Arguments Fail {A} msg.
Arguments Undefined {A}.
Arguments Diverges {A}.

#[global] Instance outcome_ret : MRet outcome := fun A a => Ok a.

#[global] Instance outcome_bind : MBind outcome := fun A B f m =>
  match m with
  | Ok a => f a
  | Fail msg => Fail msg
  | Undefined => Undefined
  | Diverges => Diverges
  end.

(** ** The data model *)

(** [Miller] is [std::array<int, 3>]; the fields are [hkl[0]], [hkl[1]]
    and [hkl[2]]. *)
Record Miller : Type := mkMiller { hkl_0 : Z; hkl_1 : Z; hkl_2 : Z }.

#[global] Instance Miller_eq_dec : EqDecision Miller.
Proof. solve_decision. Defined.

(** [Intensities::Refl].  [isign] is [1] for I(+), [-1] for I(-) and [0]
    (the member initializer) for a mean intensity. *)
Record Refl : Type := mkRefl {
  hkl : Miller;
  isign : Z;
  value : float;
  sigma : float
}.

#[global] Instance Refl_inhabited : Inhabited Refl :=
  populate (mkRefl (mkMiller 0 0 0) 0 0%float 0%float).

(** The sign tag that [isign] encodes. *)
Inductive SignTag : Type := Minus | NoSign | Plus.

Definition isign_of_tag (t : SignTag) : Z :=
  match t with Minus => -1 | NoSign => 0 | Plus => 1 end.

(** [Refl::operator<]: [std::tie(hkl[0], hkl[1], hkl[2], isign)] compared
    with the lexicographic [<] of tuples. *)
Definition Refl_lt (a o : Refl) : bool :=
  (hkl_0 (hkl a) <? hkl_0 (hkl o)) ||
  (negb (hkl_0 (hkl o) <? hkl_0 (hkl a)) &&
   ((hkl_1 (hkl a) <? hkl_1 (hkl o)) ||
    (negb (hkl_1 (hkl o) <? hkl_1 (hkl a)) &&
     ((hkl_2 (hkl a) <? hkl_2 (hkl o)) ||
      (negb (hkl_2 (hkl o) <? hkl_2 (hkl a)) &&
       (isign a <? isign o)))))).

(** Modelled from the spec: [symmetry.hpp] is not among the sources.  The
    symmetry oracle of a space group is what [merge.hpp] calls on it:
    [GroupOps::is_systematically_absent], [ReciprocalAsu::is_in] and
    [ReciprocalAsu::to_asu], which returns the equivalent index together
    with the identifier of the operation that was used. *)
Record GroupOps : Type := mkGroupOps {
  is_systematically_absent : Miller -> bool
}.

Record ReciprocalAsu : Type := mkReciprocalAsu {
  is_in : Miller -> bool;
  to_asu : Miller -> GroupOps -> Miller * Z
}.

Record SpaceGroup : Type := mkSpaceGroup {
  operations : GroupOps;
  asu_of : ReciprocalAsu
}.

(** Modelled from the spec: [unitcell.hpp] is not among the sources.  A unit
    cell is used through its metric only: [calculate_1_d2] gives the
    reciprocal squared spacing of an index. *)
Record UnitCell : Type := mkUnitCell {
  calculate_1_d2 : Miller -> float
}.

(** [struct Intensities]; [spacegroup] is a pointer that may be null. *)
Record Intensities : Type := mkIntensities {
  data : list Refl;
  spacegroup : option SpaceGroup;
  unit_cell : UnitCell;
  wavelength : float
}.

Definition set_data (d : list Refl) (self : Intensities) : Intensities :=
  mkIntensities d (spacegroup self) (unit_cell self) (wavelength self).

(** ** Sorting *)

(** [std::sort(data.begin(), data.end())] with [Refl::operator<].  The
    standard fixes the result up to the order of equivalent elements; the
    model is the insertion sort that libstdc++ runs on a short range
    ([__insertion_sort]: each element moves left past the elements it is
    less than).  The properties of the merger rest on two facts only: the
    result is a permutation of the vector, and it is sorted. *)
Fixpoint insert_sorted (x : Refl) (s : list Refl) : list Refl :=
  match s with
  | [] => [x]
  | y :: s' => if Refl_lt x y then x :: y :: s' else y :: insert_sorted x s'
  end.

Definition sort (d : list Refl) : list Refl :=
  foldl (fun s x => insert_sorted x s) [] d.

(** ** Merging *)

Definition set_value (v : float) (r : Refl) : Refl :=
  mkRefl (hkl r) (isign r) v (sigma r).
Definition set_sigma (s : float) (r : Refl) : Refl :=
  mkRefl (hkl r) (isign r) (value r) s.
Definition set_hkl (m : Miller) (r : Refl) : Refl :=
  mkRefl m (isign r) (value r) (sigma r).
Definition set_isign (s : Z) (r : Refl) : Refl :=
  mkRefl (hkl r) s (value r) (sigma r).

(** [out->hkl != in->hkl || out->isign != in->isign] *)
Definition key_differs (o i : Refl) : bool :=
  negb (bool_decide (hkl o = hkl i)) || negb (isign o =? isign i).

(** The state of the loop of [merge_in_place]: the vector, the position of
    the iterator [out] and the two accumulators. *)
Record merge_state : Type := mkMergeState {
  ms_data : list Refl;
  ms_out : nat;
  sum_wI : float;
  sum_w : float
}.

(** [p->field = e]: the element at position [p] is overwritten in place. *)
Definition assign (p : nat) (f : Refl -> Refl) (d : list Refl) : list Refl :=
  <[p := f (d !!! p)]> d.

(** One pass of the body of [for (auto in = data.begin(); ...; ++in)], with
    the iterator [in] at position [i]. *)
Definition merge_body (st : merge_state) (i : nat) : merge_state :=
  let st1 :=
    if key_differs (ms_data st !!! ms_out st) (ms_data st !!! i) then
      let d1 := assign (ms_out st) (set_value (sum_wI st / sum_w st)%float) (ms_data st) in
      let d2 := assign (ms_out st) (set_sigma (1 / sqrt (sum_w st))%float) d1 in
      let out := S (ms_out st) in
      let d3 := assign out (set_hkl (hkl (d2 !!! i))) d2 in
      let d4 := assign out (set_isign (isign (d3 !!! i))) d3 in
      mkMergeState d4 out 0%float 0%float
    else st in
  let x := ms_data st1 !!! i in
  let w := (1 / (sigma x * sigma x))%float in
  mkMergeState (ms_data st1) (ms_out st1)
               (sum_wI st1 + w * value x)%float (sum_w st1 + w)%float.

(** The vector after [merge_in_place], from the loop on: [d] is the sorted
    vector. *)
Definition merge_sorted_in_place (d : list Refl) : list Refl :=
  let st := foldl merge_body (mkMergeState d 0 0%float 0%float) (seq 0 (length d)) in
  let d1 := assign (ms_out st) (set_value (sum_wI st / sum_w st)%float) (ms_data st) in
  let d2 := assign (ms_out st) (set_sigma (1 / sqrt (sum_w st))%float) d1 in
  take (S (ms_out st)) d2.

(** [for (Refl& refl : data) refl.isign = 0;] *)
Definition discard_signs (d : list Refl) : list Refl := set_isign 0 <$> d.

Definition merge_data (output_plus_minus : bool) (d : list Refl) : list Refl :=
  match d with
  | [] => []
  | _ =>
      let d1 := if output_plus_minus then d else discard_signs d in
      merge_sorted_in_place (sort d1)
  end.

Definition merge_in_place (output_plus_minus : bool) (self : Intensities) : Intensities :=
  set_data (merge_data output_plus_minus (data self)) self.

(** ** Validity filter and the generic reader *)

(** [add_if_valid]: [!std::isnan(refl.value) && refl.sigma > 0], then
    [data.push_back(refl)]. *)
Definition is_valid (refl : Refl) : bool :=
  negb (is_nan (value refl)) && (0 <? sigma refl)%float.

Definition add_if_valid (refl : Refl) (d : list Refl) : list Refl :=
  if is_valid refl then d ++ [refl] else d.

(** Modelled from the spec: the row proxies ([MtzDataProxy],
    [ReflnDataProxy]) are not among the sources.  A proxy gives the number
    of stored values, the number of values per row, the index of the row
    that starts at an offset and the number stored at an offset. *)
Record DataProxy : Type := mkDataProxy {
  proxy_size : nat;
  proxy_stride : nat;
  get_hkl : nat -> outcome Miller;
  get_num : nat -> outcome float
}.

(** The [Refl] that one pass of the loop of [read_data] builds at offset [i]. *)
Definition read_row (proxy : DataProxy) (value_idx sigma_idx i : nat) : outcome Refl :=
  m ← get_hkl proxy i;
  v ← get_num proxy (i + value_idx)%nat;
  s ← get_num proxy (i + sigma_idx)%nat;
  mret (mkRefl m 0 v s).

(** [for (size_t i = 0; i < proxy.size(); i += proxy.stride())].  The loop
    makes at most [proxy.size()] passes when the stride is positive, which
    is the fuel that [read_data] gives it; with a zero stride [i] never
    moves and the fuel runs out. *)
Fixpoint read_data_loop (fuel : nat) (proxy : DataProxy) (value_idx sigma_idx i : nat)
    (d : list Refl) : outcome (list Refl) :=
  if (proxy_size proxy <=? i)%nat then Ok d
  else
    match fuel with
    | O => Diverges
    | S fuel' =>
        refl ← read_row proxy value_idx sigma_idx i;
        read_data_loop fuel' proxy value_idx sigma_idx (i + proxy_stride proxy)%nat
                       (add_if_valid refl d)
    end.

Definition read_data (proxy : DataProxy) (value_idx sigma_idx : nat) (self : Intensities)
    : outcome Intensities :=
  d ← read_data_loop (proxy_size proxy) proxy value_idx sigma_idx 0%nat (data self);
  mret (set_data d self).

(** ** Derived statistics *)

(** The loop of [resolution_range]: the pair is ([min_1_d2], [max_1_d2]). *)
Definition resolution_step (cell : UnitCell) (acc : float * float) (x : Refl) : float * float :=
  let a_1_d2 := calculate_1_d2 cell (hkl x) in
  let min_1_d2 := if (a_1_d2 <? acc.1)%float then a_1_d2 else acc.1 in
  let max_1_d2 := if (acc.2 <? a_1_d2)%float then a_1_d2 else acc.2 in
  (min_1_d2, max_1_d2).

Definition resolution_extrema (self : Intensities) : float * float :=
  foldl (resolution_step (unit_cell self)) (infinity, 0%float) (data self).

Definition resolution_range (self : Intensities) : float * float :=
  let e := resolution_extrema self in
  ((1 / sqrt e.1)%float, (1 / sqrt e.2)%float).

(** ** Metadata, absences and the asymmetric unit *)

(** A [Source] of [copy_metadata] has the members [cell] and [spacegroup]. *)
Class Source (S : Type) : Type := {
  source_cell : S -> UnitCell;
  source_spacegroup : S -> option SpaceGroup
}.

Definition copy_metadata {S : Type} `{Source S} (source : S) (self : Intensities)
    : outcome Intensities :=
  let self1 := mkIntensities (data self) (source_spacegroup source) (source_cell source)
                             (wavelength self) in
  match spacegroup self1 with
  | None => Fail "unknown space group"
  | Some _ => Ok self1
  end.

(** Modelled from the spec: [vector_remove_if] of [util.hpp] is not among the
    sources.  It drops the elements that satisfy the condition and keeps
    the others in their order. *)
Definition vector_remove_if {A : Type} (condition : A -> bool) (v : list A) : list A :=
  List.filter (fun x => negb (condition x)) v.

Definition remove_systematic_absences (self : Intensities) : Intensities :=
  match spacegroup self with
  | None => self
  | Some sg =>
      let gops := operations sg in
      set_data (vector_remove_if (fun x => is_systematically_absent gops (hkl x)) (data self))
               self
  end.

(** [(c % 2 == 0 ? -1 : 1)] on an [int]; [%] truncates towards zero. *)
Definition parity_sign (c : Z) : Z := if Z.rem c 2 =? 0 then -1 else 1.

(** The body of the loop of [switch_to_asu_indices]. *)
Definition switch_refl (asu : ReciprocalAsu) (gops : GroupOps) (merged : bool) (refl : Refl)
    : Refl :=
  if is_in asu (hkl refl) then refl
  else
    let hkl_isym := to_asu asu (hkl refl) gops in
    let refl1 := set_hkl hkl_isym.1 refl in
    if negb merged then set_isign (parity_sign hkl_isym.2) refl1 else refl1.

(** [switch_to_asu_indices] starts with [spacegroup->operations()], which
    dereferences the pointer. *)
Definition switch_to_asu_indices (merged : bool) (self : Intensities) : outcome Intensities :=
  match spacegroup self with
  | None => Undefined
  | Some sg =>
      let gops := operations sg in
      let asu := asu_of sg in
      Ok (set_data (switch_refl asu gops merged <$> data self) self)
  end.

(** ** The readers *)

(** [Intensities intensities;]: an empty vector and a null space group.  The
    declaration leaves [wavelength] uninitialised and default-constructs the
    unit cell; every reader assigns both before it returns.  The model
    starts them at [nan] and at a cell whose metric is [nan]. *)
Definition Intensities_new : Intensities :=
  mkIntensities [] None (mkUnitCell (fun _ => nan)) nan.

Definition set_wavelength (w : float) (self : Intensities) : Intensities :=
  mkIntensities (data self) (spacegroup self) (unit_cell self) w.
Definition set_unit_cell (c : UnitCell) (self : Intensities) : Intensities :=
  mkIntensities (data self) (spacegroup self) c (wavelength self).
Definition set_spacegroup (sg : option SpaceGroup) (self : Intensities) : Intensities :=
  mkIntensities (data self) sg (unit_cell self) (wavelength self).

(** [(int) x] on a floating-point value: the fraction is dropped; the cast
    is undefined when the result does not fit an [int]. *)
Definition float_to_int (x : float) : outcome Z :=
  match Prim2SF x with
  | S754_zero _ => Ok 0
  | S754_finite s m e =>
      let a := Z.shiftl (Z.pos m) e in
      let z := if s then - a else a in
      if (- 2 ^ 31 <=? z) && (z <? 2 ^ 31) then Ok z else Undefined
  | _ => Undefined
  end.

(** [v[i]] on a [std::vector]: no bounds check. *)
Definition at_index {A : Type} (v : list A) (i : nat) : outcome A :=
  match v !! i with
  | Some a => Ok a
  | None => Undefined
  end.

(** Modelled from the spec: [mtz.hpp] is not among the sources.  The binary
    table has a cell, a space group that may be unknown, datasets, columns
    (each with its label, its position [idx] among the columns and the
    identifier of its dataset), batch records (present in an unmerged file
    only) and the numbers of all rows, one row after the other. *)
Record Dataset : Type := mkDataset { dataset_number : Z; dataset_wavelength : float }.
Record Column : Type := mkColumn { label : string; idx : nat; dataset_id : Z }.
Record Batch : Type := mkBatch { batch_number : Z }.

Record Mtz : Type := mkMtz {
  mtz_cell : UnitCell;
  mtz_spacegroup : option SpaceGroup;
  datasets : list Dataset;
  columns : list Column;
  batches : list Batch;
  mtz_data : list float;
  average_cell_from_batch_headers : UnitCell
}.

#[global] Instance Mtz_Source : Source Mtz :=
  {| source_cell := mtz_cell; source_spacegroup := mtz_spacegroup |}.

(** Modelled from the spec: [Mtz::column_with_label] gives the first column
    with the label, or a null pointer. *)
Definition column_with_label (mtz : Mtz) (lab : string) : option Column :=
  List.find (fun c => String.eqb (label c) lab) (columns mtz).

(** Modelled from the spec: [Mtz::get_column_with_label] fails when no
    column has the label. *)
Definition get_column_with_label (mtz : Mtz) (lab : string) : outcome Column :=
  match column_with_label mtz lab with
  | Some c => Ok c
  | None => Fail ("Column label not found: " +:+ lab)
  end.

(** Modelled from the spec: [Mtz::column_with_one_of_labels] tries the labels
    in their order; the first one that names a column wins. *)
Fixpoint column_with_one_of_labels (mtz : Mtz) (labels : list string) : option Column :=
  match labels with
  | [] => None
  | lab :: labels' =>
      match column_with_label mtz lab with
      | Some c => Some c
      | None => column_with_one_of_labels mtz labels'
      end
  end.

(** Modelled from the spec: [Mtz::dataset] fails when no dataset has the
    identifier. *)
Definition dataset (mtz : Mtz) (id : Z) : outcome Dataset :=
  match List.find (fun ds => dataset_number ds =? id) (datasets mtz) with
  | Some ds => Ok ds
  | None => Fail "MTZ file has no dataset with this ID"
  end.

(** Modelled from the spec: [Mtz::get_hkl] reads the index from the first
    three numbers of the row that starts at the offset. *)
Definition mtz_get_hkl (mtz : Mtz) (offset : nat) : outcome Miller :=
  x0 ← at_index (mtz_data mtz) offset;
  x1 ← at_index (mtz_data mtz) (offset + 1)%nat;
  x2 ← at_index (mtz_data mtz) (offset + 2)%nat;
  h0 ← float_to_int x0;
  h1 ← float_to_int x1;
  h2 ← float_to_int x2;
  mret (mkMiller h0 h1 h2).

(** Modelled from the spec: [MtzDataProxy{mtz}]. *)
Definition MtzDataProxy (mtz : Mtz) : DataProxy :=
  mkDataProxy (length (mtz_data mtz)) (length (columns mtz))
              (mtz_get_hkl mtz) (at_index (mtz_data mtz)).

(** The loops over the rows of an [Mtz]:
    [for (size_t i = 0; i < mtz.data.size(); i += mtz.columns.size())],
    with the body as a parameter. *)
Fixpoint mtz_rows_loop (fuel : nat) (mtz : Mtz)
    (body : nat -> list Refl -> outcome (list Refl)) (i : nat) (d : list Refl)
    : outcome (list Refl) :=
  if (length (mtz_data mtz) <=? i)%nat then Ok d
  else
    match fuel with
    | O => Diverges
    | S fuel' =>
        d1 ← body i d;
        mtz_rows_loop fuel' mtz body (i + length (columns mtz))%nat d1
    end.

(** The row that [read_unmerged_intensities_from_mtz] reads at offset [i]. *)
Definition unmerged_mtz_row (mtz : Mtz) (value_idx sigma_idx i : nat) : outcome Refl :=
  m ← mtz_get_hkl mtz i;
  x ← at_index (mtz_data mtz) (i + 3)%nat;
  c ← float_to_int x;
  v ← at_index (mtz_data mtz) (i + value_idx)%nat;
  s ← at_index (mtz_data mtz) (i + sigma_idx)%nat;
  mret (mkRefl m (parity_sign c) v s).

Definition read_unmerged_intensities_from_mtz (mtz : Mtz) : outcome Intensities :=
  if bool_decide (batches mtz = []) then Fail "expected unmerged file"
  else
    match column_with_label mtz "M/ISYM" with
    | None => Fail "unmerged file should have M/ISYM as 4th column"
    | Some isym_col =>
        if negb (idx isym_col =? 3)%nat
        then Fail "unmerged file should have M/ISYM as 4th column"
        else
          col ← get_column_with_label mtz "I";
          let value_idx := idx col in
          sigma_col ← get_column_with_label mtz "SIGI";
          let sigma_idx := idx sigma_col in
          let intensities := Intensities_new in
          let intensities := set_unit_cell (average_cell_from_batch_headers mtz) intensities in
          let intensities := set_spacegroup (mtz_spacegroup mtz) intensities in
          match spacegroup intensities with
          | None => Fail "unknown space group"
          | Some _ =>
              ds ← dataset mtz (dataset_id col);
              let intensities := set_wavelength (dataset_wavelength ds) intensities in
              d ← mtz_rows_loop (length (mtz_data mtz)) mtz
                     (fun i d =>
                        refl ← unmerged_mtz_row mtz value_idx sigma_idx i;
                        mret (add_if_valid refl d))
                     0%nat (data intensities);
              switch_to_asu_indices false (set_data d intensities)
          end
    end.

Definition read_mean_intensities_from_mtz (mtz : Mtz) : outcome Intensities :=
  if negb (bool_decide (batches mtz = [])) then Fail "expected merged file"
  else
    match column_with_one_of_labels mtz ["IMEAN"; "I"] with
    | None => Fail "Mean intensities (IMEAN or I) not found."
    | Some col =>
        sigma_col ← get_column_with_label mtz ("SIG" +:+ label col);
        let sigma_idx := idx sigma_col in
        intensities ← copy_metadata mtz Intensities_new;
        ds ← dataset mtz (dataset_id col);
        let intensities := set_wavelength (dataset_wavelength ds) intensities in
        read_data (MtzDataProxy mtz) (idx col) sigma_idx intensities
    end.

(** The two passes [j = 0] and [j = 1] of the inner loop of the anomalous
    readers: [isign] is [1] in the first and [-1] in the second. *)
Definition anomalous_pair (get_hkl_at : nat -> outcome Miller) (get_num_at : nat -> outcome float)
    (value_idx sigma_idx : nat * nat) (i : nat) (d : list Refl) : outcome (list Refl) :=
  m0 ← get_hkl_at i;
  v0 ← get_num_at (i + value_idx.1)%nat;
  s0 ← get_num_at (i + sigma_idx.1)%nat;
  let d := add_if_valid (mkRefl m0 1 v0 s0) d in
  m1 ← get_hkl_at i;
  v1 ← get_num_at (i + value_idx.2)%nat;
  s1 ← get_num_at (i + sigma_idx.2)%nat;
  mret (add_if_valid (mkRefl m1 (-1) v1 s1) d).

Definition read_anomalous_intensities_from_mtz (mtz : Mtz) : outcome Intensities :=
  if negb (bool_decide (batches mtz = [])) then Fail "expected merged file"
  else
    col ← get_column_with_label mtz "I(+)";
    col_minus ← get_column_with_label mtz "I(-)";
    let value_idx := (idx col, idx col_minus) in
    sig_plus ← get_column_with_label mtz "SIGI(+)";
    sig_minus ← get_column_with_label mtz "SIGI(-)";
    let sigma_idx := (idx sig_plus, idx sig_minus) in
    intensities ← copy_metadata mtz Intensities_new;
    ds ← dataset mtz (dataset_id col);
    let intensities := set_wavelength (dataset_wavelength ds) intensities in
    d ← mtz_rows_loop (length (mtz_data mtz)) mtz
           (anomalous_pair (mtz_get_hkl mtz) (at_index (mtz_data mtz)) value_idx sigma_idx)
           0%nat (data intensities);
    mret (set_data d intensities).

(** Modelled from the spec: [refln.hpp] is not among the sources.  A
    reflection block of a structured document has a cell, a space group
    that may be unknown, a wavelength, named columns that
    [get_column_index] resolves or fails on, and its row proxy
    ([ReflnDataProxy(rb)]). *)
Record ReflnBlock : Type := mkReflnBlock {
  rb_cell : UnitCell;
  rb_spacegroup : option SpaceGroup;
  rb_wavelength : float;
  get_column_index : string -> outcome nat;
  ReflnDataProxy : DataProxy
}.

#[global] Instance ReflnBlock_Source : Source ReflnBlock :=
  {| source_cell := rb_cell; source_spacegroup := rb_spacegroup |}.

Definition read_unmerged_intensities_from_mmcif (rb : ReflnBlock) : outcome Intensities :=
  value_idx ← get_column_index rb "intensity_net";
  sigma_idx ← get_column_index rb "intensity_sigma";
  intensities ← copy_metadata rb Intensities_new;
  let intensities := set_wavelength (rb_wavelength rb) intensities in
  intensities ← read_data (ReflnDataProxy rb) value_idx sigma_idx intensities;
  switch_to_asu_indices false intensities.

Definition read_mean_intensities_from_mmcif (rb : ReflnBlock) : outcome Intensities :=
  value_idx ← get_column_index rb "intensity_meas";
  sigma_idx ← get_column_index rb "intensity_sigma";
  intensities ← copy_metadata rb Intensities_new;
  let intensities := set_wavelength (rb_wavelength rb) intensities in
  read_data (ReflnDataProxy rb) value_idx sigma_idx intensities.

(** [for (size_t i = 0; i < proxy.size(); i += proxy.stride())] with the
    body as a parameter. *)
Fixpoint proxy_rows_loop (fuel : nat) (proxy : DataProxy)
    (body : nat -> list Refl -> outcome (list Refl)) (i : nat) (d : list Refl)
    : outcome (list Refl) :=
  if (proxy_size proxy <=? i)%nat then Ok d
  else
    match fuel with
    | O => Diverges
    | S fuel' =>
        d1 ← body i d;
        proxy_rows_loop fuel' proxy body (i + proxy_stride proxy)%nat d1
    end.

Definition read_anomalous_intensities_from_mmcif (rb : ReflnBlock) : outcome Intensities :=
  v_plus ← get_column_index rb "pdbx_I_plus";
  v_minus ← get_column_index rb "pdbx_I_minus";
  let value_idx := (v_plus, v_minus) in
  s_plus ← get_column_index rb "pdbx_I_plus_sigma";
  s_minus ← get_column_index rb "pdbx_I_minus_sigma";
  let sigma_idx := (s_plus, s_minus) in
  intensities ← copy_metadata rb Intensities_new;
  let intensities := set_wavelength (rb_wavelength rb) intensities in
  let proxy := ReflnDataProxy rb in
  d ← proxy_rows_loop (proxy_size proxy) proxy
         (anomalous_pair (get_hkl proxy) (get_num proxy) value_idx sigma_idx)
         0%nat (data intensities);
  mret (set_data d intensities).

(** Modelled from the spec: [xds_ascii.hpp] is not among the sources.  The
    ASCII reflection list has a space-group number, a cell, a wavelength and
    one record per observation. *)
Record XdsAscii_Refl : Type := mkXdsRefl {
  xds_hkl : Miller;
  iobs : float;
  xds_sigma : float
}.

Record XdsAscii : Type := mkXdsAscii {
  spacegroup_number : Z;
  xds_unit_cell : UnitCell;
  xds_wavelength : float;
  xds_data : list XdsAscii_Refl
}.

Section Xds.
(** [find_spacegroup_by_number] of [symmetry.hpp]: the lookup table of the
    space groups, which gives a null pointer for a number it does not
    know. *)
Variable find_spacegroup_by_number : Z -> option SpaceGroup.

Definition read_unmerged_intensities_from_xds (xds : XdsAscii) : outcome Intensities :=
  let intensities := Intensities_new in
  let intensities := set_unit_cell (xds_unit_cell xds) intensities in
  let intensities :=
    set_spacegroup (find_spacegroup_by_number (spacegroup_number xds)) intensities in
  let intensities := set_wavelength (xds_wavelength xds) intensities in
  let d :=
    foldl (fun d in_ => add_if_valid (mkRefl (xds_hkl in_) 0 (iobs in_) (xds_sigma in_)) d)
          (data intensities) (xds_data xds) in
  switch_to_asu_indices false (set_data d intensities).
End Xds.

(** ** What the specification says, in its own words *)

(** The key of an observation: its index and its sign. *)
Definition Refl_key (x : Refl) : Miller * Z := (hkl x, isign x).

(** The lexicographic order of the keys [(h, k, l, sign)]. *)
Definition key_lt (a o : Miller * Z) : Prop :=
  hkl_0 a.1 < hkl_0 o.1 \/
  (hkl_0 a.1 = hkl_0 o.1 /\
   (hkl_1 a.1 < hkl_1 o.1 \/
    (hkl_1 a.1 = hkl_1 o.1 /\
     (hkl_2 a.1 < hkl_2 o.1 \/
      (hkl_2 a.1 = hkl_2 o.1 /\ a.2 < o.2))))).

(** [Minus < None < Plus] *)
Definition tag_lt (s t : SignTag) : Prop :=
  match s, t with
  | Minus, NoSign | Minus, Plus | NoSign, Plus => True
  | _, _ => False
  end.

(** The runs of a sequence: its maximal blocks of consecutive observations
    with one key.  [runs_from cur s] continues the run [cur] into [s]. *)
Fixpoint runs_from (cur : list Refl) (s : list Refl) : list (list Refl) :=
  match s with
  | [] => [cur]
  | x :: s' =>
      if key_differs (cur !!! 0%nat) x then cur :: runs_from [x] s'
      else runs_from (cur ++ [x]) s'
  end.

Definition runs (s : list Refl) : list (list Refl) :=
  match s with
  | [] => []
  | x :: s' => runs_from [x] s'
  end.

(** The weight [w = 1/sigma²] and the sums of a run, added up from [0] in
    the order of the run. *)
Definition weight (x : Refl) : float := (1 / (sigma x * sigma x))%float.

Definition sum_of_weights (r : list Refl) : float :=
  foldl (fun acc x => (acc + weight x)%float) 0%float r.

Definition sum_of_weighted_values (r : list Refl) : float :=
  foldl (fun acc x => (acc + weight x * value x)%float) 0%float r.

(** The observation that stands for a run: the key of the run, the
    inverse-variance-weighted mean and the propagated uncertainty. *)
Definition merged_observation (r : list Refl) : Refl :=
  mkRefl (hkl (r !!! 0%nat)) (isign (r !!! 0%nat))
         (sum_of_weighted_values r / sum_of_weights r)%float
         (1 / sqrt (sum_of_weights r))%float.

(** The observations of [s] that have the key [key]. *)
Definition with_key (key : Miller * Z) (s : list Refl) : list Refl :=
  filter (fun x => Refl_key x = key) s.

(** The step of the merger that precedes the sort. *)
Definition prepare (output_plus_minus : bool) (d : list Refl) : list Refl :=
  if output_plus_minus then d else discard_signs d.

(** A sequence is sorted when no element is less than an earlier one. *)
Definition sorted (s : list Refl) : Prop :=
  StronglySorted (fun a o => Refl_lt o a = false) s.

(** A sequence ascends strictly when the keys grow from each element to every
    later one. *)
Definition ascending (s : list Refl) : Prop :=
  StronglySorted (fun a o => key_lt (Refl_key a) (Refl_key o)) s.

(** The key of a run is the key of its first element. *)
Definition run_key (r : list Refl) : Miller * Z := Refl_key (r !!! 0%nat).

(** A run is not empty and all its elements have its key. *)
Definition uniform (r : list Refl) : Prop :=
  r <> [] /\ Forall (fun x => Refl_key x = run_key r) r.

(** The last two assignments and the [erase] that follow the loop. *)
Definition merge_finish (st : merge_state) : list Refl :=
  take (S (ms_out st))
    (assign (ms_out st) (set_sigma (1 / sqrt (sum_w st))%float)
       (assign (ms_out st) (set_value (sum_wI st / sum_w st)%float) (ms_data st))).

(** A space group for examples: P1 with Friedel's law.  The asymmetric unit
    is the half space [l > 0], or [l = 0] and [h > 0], or [l = h = 0] and
    [k >= 0]; an index inside is its own representative under operation 1,
    an index outside is represented by its Friedel mate under operation 2;
    no index is absent. *)
Definition P1_is_in (m : Miller) : bool :=
  (0 <? hkl_2 m) ||
  ((hkl_2 m =? 0) && ((0 <? hkl_0 m) || ((hkl_0 m =? 0) && (0 <=? hkl_1 m)))).

Definition P1 : SpaceGroup :=
  mkSpaceGroup
    (mkGroupOps (fun _ => false))
    (mkReciprocalAsu P1_is_in
       (fun m _ => if P1_is_in m then (m, 1)
                   else (mkMiller (- hkl_0 m) (- hkl_1 m) (- hkl_2 m), 2))).

(** The rows of a proxy: their number, and the offsets at which they start. *)
Definition row_count (size stride : nat) : nat := ((size + stride - 1) / stride)%nat.

Definition row_offsets (size stride : nat) : list nat :=
  (fun j => (j * stride)%nat) <$> seq 0 (row_count size stride).

(** An observation is invalid for the filter of the code when its value is
    NaN or its sigma is not greater than zero (zero, negative or NaN). *)
Definition is_invalid (refl : Refl) : bool :=
  is_nan (value refl) || negb (0 <? sigma refl)%float.

(** The reciprocal squared spacings of the observations of a set. *)
Definition spacings (self : Intensities) : list float :=
  (fun x => calculate_1_d2 (unit_cell self) (hkl x)) <$> data self.

(** The smaller of an accumulator and a value for an order [lt], as the loop
    of [resolution_range] picks it. *)
Definition pick (lt : float -> float -> bool) (acc a : float) : float :=
  if lt a acc then a else acc.

(** ** Examples *)

Definition example_cell : UnitCell := mkUnitCell (fun _ => 1%float).

(** A set with the given observations, in P1. *)
Definition example_set (d : list Refl) : Intensities :=
  mkIntensities d (Some P1) example_cell 1%float.

(** One observation with value [10] and sigma [3]. *)
Definition example_single : Intensities :=
  example_set [mkRefl (mkMiller 1 2 3) 0 10 3].

(** Two observations with different keys, in ascending order. *)
Definition example_merged : Intensities :=
  example_set [mkRefl (mkMiller 0 0 1) 0 5 1; mkRefl (mkMiller 1 2 3) 0 10 3].

(** Three observations of one reflection with sigma [1], in two orders. *)
Definition example_large_first : Intensities :=
  example_set [mkRefl (mkMiller 1 2 3) 0 1e16 1; mkRefl (mkMiller 1 2 3) 0 1 1;
               mkRefl (mkMiller 1 2 3) 0 1 1].

Definition example_large_last : Intensities :=
  example_set [mkRefl (mkMiller 1 2 3) 0 1 1; mkRefl (mkMiller 1 2 3) 0 1 1;
               mkRefl (mkMiller 1 2 3) 0 1e16 1].

(** A proxy with one row [0 0 1] whose value is [+infinity] and whose sigma
    is [1]. *)
Definition example_infinite_proxy : DataProxy :=
  mkDataProxy 2 2 (fun _ => Ok (mkMiller 0 0 1))
              (fun i => Ok (if (i =? 0)%nat then infinity else 1%float)).

(** A proxy with three rows of value and sigma: [(10, 2)], [(nan, 1)] and
    [(7, -1)]. *)
Definition example_proxy : DataProxy :=
  mkDataProxy 6 2 (fun i => Ok (mkMiller 0 0 (Z.of_nat i)))
              (fun i => at_index [10; 2; nan; 1; 7; -1]%float i).

(** The cubic cell of edge [1]: [1/d² = h² + k² + l²]. *)
Definition cubic_cell : UnitCell :=
  mkUnitCell (fun m =>
    of_uint63 (Uint63.of_Z (hkl_0 m * hkl_0 m + hkl_1 m * hkl_1 m + hkl_2 m * hkl_2 m))).

(** Two observations, [0 0 1] and [0 0 2], in the cubic cell. *)
Definition example_two_shells : Intensities :=
  mkIntensities [mkRefl (mkMiller 0 0 1) 0 10 1; mkRefl (mkMiller 0 0 2) 0 5 1]
                (Some P1) cubic_cell 1%float.

(** Three observations in P1: [1 2 3] lies in the asymmetric unit,
    [0 0 -1] and [-1 0 0] lie outside. *)
Definition example_unreduced : Intensities :=
  example_set [mkRefl (mkMiller 1 2 3) 0 10 1; mkRefl (mkMiller 0 0 (-1)) 0 5 1;
               mkRefl (mkMiller (-1) 0 0) 1 7 2].

(** A set whose space group is not set. *)
Definition example_no_spacegroup : Intensities :=
  mkIntensities [mkRefl (mkMiller 1 2 3) 0 10 1; mkRefl (mkMiller 0 0 2) 0 5 1]
                None cubic_cell 1%float.

(** An unmerged table in P1 with the columns H, K, L, M/ISYM, BATCH, I and
    SIGI and two rows: [1 2 3] with the code [1], and [0 0 -1], which lies
    outside the asymmetric unit, with the code [1] too. *)
Definition example_mtz : Mtz :=
  mkMtz cubic_cell (Some P1) [mkDataset 0 0; mkDataset 1 1]
        [mkColumn "H" 0 0; mkColumn "K" 1 0; mkColumn "L" 2 0; mkColumn "M/ISYM" 3 0;
         mkColumn "BATCH" 4 0; mkColumn "I" 5 1; mkColumn "SIGI" 6 1]
        [mkBatch 1]
        [1; 2; 3; 1; 1; 10; 2;
         0; 0; -1; 1; 1; 5; 1]%float
        cubic_cell.

(** A lookup table that knows the space group number 1 only, and a
    reflection list with the number 0. *)
Definition example_table (n : Z) : option SpaceGroup :=
  if n =? 1 then Some P1 else None.

Definition example_xds : XdsAscii :=
  mkXdsAscii 0 cubic_cell 1 [mkXdsRefl (mkMiller 1 2 3) 10 1].

(** What the reader returns on [example_mtz]. *)
Definition example_mtz_result : Intensities :=
  mkIntensities [mkRefl (mkMiller 1 2 3) 1 10 2; mkRefl (mkMiller 0 0 1) (-1) 5 1]
                (Some P1) cubic_cell 1%float.

(** ** Further members of [Intensities] *)

(** [have_sign]: [!data.empty() && data[0].isign != 0] *)
Definition have_sign (self : Intensities) : bool :=
  match data self with
  | [] => false
  | x :: _ => negb (isign x =? 0)
  end.

(** [void sort() { std::sort(data.begin(), data.end()); }] *)
Definition Intensities_sort (self : Intensities) : Intensities :=
  set_data (sort (data self)) self.

(** The condition of [remove_systematic_absences] on an observation. *)
Definition absent (gops : GroupOps) (x : Refl) : bool :=
  is_systematically_absent gops (hkl x).

(** A space group for examples with absences: the asymmetric unit of P1,
    and every index with an odd [h + k + l] absent, as under a body-centred
    lattice. *)
Definition example_centred : SpaceGroup :=
  mkSpaceGroup (mkGroupOps (fun m => Z.odd (hkl_0 m + hkl_1 m + hkl_2 m))) (asu_of P1).

(** Four observations, two of them with an odd [h + k + l]. *)
Definition example_with_absences : Intensities :=
  mkIntensities [mkRefl (mkMiller 1 2 3) 0 10 1; mkRefl (mkMiller 0 0 1) 0 5 1;
                 mkRefl (mkMiller 1 2 3) 0 12 1; mkRefl (mkMiller 1 1 1) 0 7 2]
                (Some example_centred) cubic_cell 1%float.

(** The observations that one pass of a reader appends: none or one for
    [add_if_valid]. *)
Definition valid_part (refl : Refl) : list Refl :=
  if is_valid refl then [refl] else [].

(** What one pass of [read_data] appends at the offset [i]. *)
Definition read_data_rows (proxy : DataProxy) (value_idx sigma_idx i : nat)
    : outcome (list Refl) :=
  refl ← read_row proxy value_idx sigma_idx i; mret (valid_part refl).

(** What one pass of the loop of [read_unmerged_intensities_from_mtz]
    appends at the offset [i]. *)
Definition unmerged_mtz_rows (mtz : Mtz) (value_idx sigma_idx i : nat) : outcome (list Refl) :=
  refl ← unmerged_mtz_row mtz value_idx sigma_idx i; mret (valid_part refl).

(** What the two passes of the inner loop of the anomalous readers append at
    the offset [i]: the valid ones of I(+) and I(-), in this order. *)
Definition anomalous_rows (get_hkl_at : nat -> outcome Miller)
    (get_num_at : nat -> outcome float) (value_idx sigma_idx : nat * nat) (i : nat)
    : outcome (list Refl) :=
  m0 ← get_hkl_at i;
  v0 ← get_num_at (i + value_idx.1)%nat;
  s0 ← get_num_at (i + sigma_idx.1)%nat;
  m1 ← get_hkl_at i;
  v1 ← get_num_at (i + value_idx.2)%nat;
  s1 ← get_num_at (i + sigma_idx.2)%nat;
  mret (valid_part (mkRefl m0 1 v0 s0) ++ valid_part (mkRefl m1 (-1) v1 s1)).

(** The observation that [read_unmerged_intensities_from_xds] makes of a
    record. *)
Definition xds_refl (in_ : XdsAscii_Refl) : Refl :=
  mkRefl (xds_hkl in_) 0 (iobs in_) (xds_sigma in_).

(** A merged table in P1 with the columns H, K, L, IMEAN, SIGIMEAN, I(+),
    SIGI(+), I(-) and SIGI(-) and two rows; in the second row I(-) has the
    sigma [-1]. *)
Definition example_merged_mtz : Mtz :=
  mkMtz cubic_cell (Some P1) [mkDataset 0 0; mkDataset 1 1]
        [mkColumn "H" 0 0; mkColumn "K" 1 0; mkColumn "L" 2 0;
         mkColumn "IMEAN" 3 1; mkColumn "SIGIMEAN" 4 1;
         mkColumn "I(+)" 5 1; mkColumn "SIGI(+)" 6 1;
         mkColumn "I(-)" 7 1; mkColumn "SIGI(-)" 8 1]
        []
        [1; 2; 3; 10; 2; 11; 3; 9; 3;
         0; 0; 1; 5; 1; 5; 1; 0; -1]%float
        cubic_cell.

(** A reflection list with the space group number 1 and three records, the
    second of them rejected (negative sigma), the third outside the
    asymmetric unit. *)
Definition example_xds_P1 : XdsAscii :=
  mkXdsAscii 1 cubic_cell 1
    [mkXdsRefl (mkMiller 1 2 3) 10 1; mkXdsRefl (mkMiller 0 0 2) 4 (-1);
     mkXdsRefl (mkMiller 0 0 (-1)) 5 2].

(** A reflection block in P1 with the columns index_h, index_k, index_l,
    intensity_meas and intensity_sigma and two rows, [0 0 1] and [0 0 2];
    the second has a NaN intensity. *)
Definition example_refln_block : ReflnBlock :=
  mkReflnBlock cubic_cell (Some P1) 1
    (fun tag =>
       if String.eqb tag "intensity_meas" then Ok 3%nat
       else if String.eqb tag "intensity_sigma" then Ok 4%nat
       else Fail ("Column not found: " +:+ tag))
    (mkDataProxy 10 5 (fun i => Ok (mkMiller 0 0 (Z.of_nat (i / 5) + 1)))
                 (at_index [0; 0; 1; 10; 2; 0; 0; 2; nan; 1]%float)).

(** * gemmi [json.hpp]: reading mmJSON into a CIF document *)

(** ** JSON values *)

(** Modelled from the spec: [sajson.h] is not among the sources.  A
    [sajson::value] has one of eight types; an array holds its elements and
    an object its members, a key with a value each.  [json.hpp] defines
    [SAJSON_NO_SORT], so the members of an object stay in the order of the
    text.  An integer is an [int], a double a [double]. *)
Inductive sajson_type : Type :=
  | TYPE_INTEGER
  | TYPE_DOUBLE
  | TYPE_NULL
  | TYPE_FALSE
  | TYPE_TRUE
  | TYPE_STRING
  | TYPE_ARRAY
  | TYPE_OBJECT.

#[global] Instance sajson_type_eq_dec : EqDecision sajson_type.
Proof. solve_decision. Defined.

#[warnings="-register-all"] Inductive sajson_value : Type :=
  | json_integer (i : Z)
  | json_double (x : float)
  | json_null
  | json_false
  | json_true
  | json_string (s : string)
  | json_array (elements : list sajson_value)
  | json_object (members : list (string * sajson_value)).

(** [value::get_type]. *)
Definition get_type (val : sajson_value) : sajson_type :=
  match val with
  | json_integer _ => TYPE_INTEGER
  | json_double _ => TYPE_DOUBLE
  | json_null => TYPE_NULL
  | json_false => TYPE_FALSE
  | json_true => TYPE_TRUE
  | json_string _ => TYPE_STRING
  | json_array _ => TYPE_ARRAY
  | json_object _ => TYPE_OBJECT
  end.

(** [value::get_length]: the number of elements of an array or of members of
    an object; the library asserts that the value is one of the two. *)
Definition get_length (val : sajson_value) : outcome nat :=
  match val with
  | json_array elements => Ok (length elements)
  | json_object members => Ok (length members)
  | _ => Undefined
  end.

(** [value::get_array_element]: the library asserts that the value is an
    array and that the index is below its length. *)
Definition get_array_element (val : sajson_value) (index : nat) : outcome sajson_value :=
  match val with
  | json_array elements =>
      match elements !! index with Some e => Ok e | None => Undefined end
  | _ => Undefined
  end.

(** [value::get_object_key(index).as_string()]. *)
Definition get_object_key (val : sajson_value) (index : nat) : outcome string :=
  match val with
  | json_object members =>
      match members !! index with Some m => Ok m.1 | None => Undefined end
  | _ => Undefined
  end.

(** [value::get_object_value]. *)
Definition get_object_value (val : sajson_value) (index : nat) : outcome sajson_value :=
  match val with
  | json_object members =>
      match members !! index with Some m => Ok m.2 | None => Undefined end
  | _ => Undefined
  end.

(** A [sajson::document]: what [sajson::parse] returns.  [get_root] is
    only called on a valid document. *)
Record sajson_document : Type := mk_sajson_document {
  document_is_valid : bool;
  get_root : sajson_value
}.

(** ** The CIF document *)

(** Modelled from the spec: [cifdoc.hpp] is not among the sources.  A
    [cif::Loop] has its tags and its values, row after row; a [cif::Item] is
    a pair of a tag and a value or a loop (the two members [pair] and [loop]
    share the storage of the item); a [cif::Block] has a name and items, and
    [Block(name)] has no item; a [cif::Document] has a source and blocks, and
    a new document has neither. *)
Record Loop : Type := mkLoop { tags : list string; values : list string }.

Inductive Item : Type :=
  | ItemPair (tag : string) (text : string)
  | ItemLoop (loop : Loop).

Record Block : Type := mkBlock { name : string; items : list Item }.

Record Document : Type := mkDocument { source : string; blocks : list Block }.

Definition set_tags (t : list string) (loop : Loop) : Loop := mkLoop t (values loop).

Definition set_values (v : list string) (loop : Loop) : Loop := mkLoop (tags loop) v.

Definition set_items (i : list Item) (block : Block) : Block := mkBlock (name block) i.

Definition set_blocks (b : list Block) (d : Document) : Document := mkDocument (source d) b.

Definition set_source (s : string) (d : Document) : Document := mkDocument s (blocks d).

Definition Document_new : Document := mkDocument "" [].

(** Modelled from the spec: the two functions that turn a value into the
    text of a CIF value and that [json.hpp] takes from elsewhere:
    [std::to_string(double)] and [cif::quote] of [cifdoc.hpp].
    [std::to_string(int)] is the decimal numeral, [pretty] on [Z]. *)
Class CifText : Type := {
  to_string_double : float -> string;
  quote : string -> string
}.

(** Modelled from the spec: [starts_with] of [util.hpp]. *)
Definition starts_with (str prefix : string) : bool := String.prefix prefix str.

(** [std::string::substr(pos)]: the string from [pos] on.  It is called
    with [5] on a string that starts with ["data_"]. *)
Fixpoint substr (pos : nat) (str : string) : string :=
  match pos, str with
  | O, _ => str
  | S pos', String _ str' => substr pos' str'
  | S _, EmptyString => EmptyString
  end.

(** ** [as_cif_value] *)

(** The [switch] on the type of the value; every other type falls to
    [default]. *)
Definition as_cif_value `{CifText} (val : sajson_value) : outcome string :=
  match val with
  | json_integer i => Ok (pretty i)
  | json_double x => Ok (to_string_double x)
  | json_null => Ok "?"
  | json_string s => Ok (quote s)
  | _ => Fail "..."
  end.

(** ** [fill_document_from_sajson] *)

(** [for (size_t i = 0; i != n; ++i) body] is [for_each body (seq 0 n)]: the
    body runs for every index in turn on the state the one before has left,
    and a body that does not return ends the loop. *)
Fixpoint for_each {St : Type} (body : nat -> St -> outcome St) (l : list nat) (s : St)
    : outcome St :=
  match l with
  | [] => Ok s
  | i :: l' => s' ← body i s; for_each body l' s'
  end.

(** [items.back().loop]: the last item, read as a loop.  There is none
    when [items] is empty, and the member [loop] of an item that holds a
    pair is not there to be read. *)
Definition back_loop (items : list Item) : outcome Loop :=
  match last items with
  | Some (ItemLoop loop) => Ok loop
  | _ => Undefined
  end.

(** The loop behind the reference [items.back().loop] is written in place. *)
Definition set_back_loop (loop : Loop) (items : list Item) : list Item :=
  <[pred (length items) := ItemLoop loop]> items.

(** [loop.values[j + k*cif_cols] = as_cif_value(arr.get_array_element(k))]:
    the body of the loop over [k]. *)
Definition assign_value `{CifText} (arr : sajson_value) (j cif_cols k : nat) (loop : Loop)
    : outcome Loop :=
  e ← get_array_element arr k;
  v ← as_cif_value e;
  if decide (j + k * cif_cols < length (values loop))%nat
  then Ok (set_values (<[(j + k * cif_cols)%nat := v]> (values loop)) loop)
  else Undefined.

(** The body of the loop over the columns [j] of a category. *)
Definition fill_column `{CifText} (category_name : string) (category : sajson_value)
    (cif_cols cif_rows j : nat) (items : list Item) : outcome (list Item) :=
  key ← get_object_key category j;
  let tag := category_name +:+ key in
  arr ← get_object_value category j;
  if bool_decide (get_type arr <> TYPE_ARRAY)
  then Fail "Expected array of certain length"
  else
    len ← get_length arr;
    if bool_decide (len <> cif_rows)
    then Fail "Expected array of certain length"
    else if bool_decide (cif_rows = 1%nat)
    then
      e ← get_array_element arr 0;
      v ← as_cif_value e;
      Ok (items ++ [ItemPair tag v])
    else
      loop ← back_loop items;
      loop ← for_each (assign_value arr j cif_cols) (seq 0 cif_rows)
                      (set_tags (tags loop ++ [tag]) loop);
      Ok (set_back_loop loop items).

(** The body of the loop over the categories [i] of the block. *)
Definition fill_category `{CifText} (top : sajson_value) (i : nat) (items : list Item)
    : outcome (list Item) :=
  key ← get_object_key top i;
  let category_name := "_" +:+ key +:+ "." in
  category ← get_object_value top i;
  if bool_decide (get_type category <> TYPE_OBJECT)
  then Fail ""
  else
    cif_cols ← get_length category;
    if bool_decide (cif_cols = 0%nat)
    then Fail ""
    else
      first ← get_object_value category 0;
      if bool_decide (get_type first <> TYPE_ARRAY)
      then Fail ""
      else
        cif_rows ← get_length first;
        let items :=
          if decide (1 < cif_rows)%nat
          then items ++ [ItemLoop (mkLoop [] (replicate (cif_cols * cif_rows) ""))]
          else items in
        for_each (fill_column category_name category cif_cols cif_rows) (seq 0 cif_cols)
                 items.

(** [fill_document_from_sajson(d, s)].  The new block goes to the end of
    [d.blocks]; the items go to [d.blocks[0]]. *)
Definition fill_document_from_sajson `{CifText} (d : Document) (s : sajson_document)
    : outcome Document :=
  let root := get_root s in
  if bool_decide (get_type root <> TYPE_OBJECT)
  then Fail "not mmJSON"
  else
    n ← get_length root;
    if bool_decide (n <> 1%nat)
    then Fail "not mmJSON"
    else
      block_name ← get_object_key root 0;
      if negb (starts_with block_name "data_")
      then Fail "top level key should start with data_"
      else
        let d := set_blocks (blocks d ++ [mkBlock (substr 5 block_name) []]) d in
        match blocks d with
        | [] => Undefined
        | block_0 :: others =>
            top ← get_object_value root 0;
            if bool_decide (get_type top <> TYPE_OBJECT)
            then Fail ""
            else
              n ← get_length top;
              items ← for_each (fill_category top) (seq 0 n) (items block_0);
              Ok (set_blocks (set_items items block_0 :: others) d)
        end.

(** [read_mmjson_insitu(buffer, size, name)].  [parse] is [sajson::parse]
    on the buffer, which it overwrites while it reads. *)
Definition read_mmjson_insitu `{CifText} (parse : string -> sajson_document)
    (buffer : string) (name : string) : outcome Document :=
  let doc := Document_new in
  let json := parse buffer in
  if negb (document_is_valid json)
  then Fail (name +:+ ": failed to parse JSON file.")
  else
    doc ← fill_document_from_sajson doc json;
    Ok (set_source name doc).

(** ** What the reader accepts and what it writes *)

(** The types [as_cif_value] has a case for. *)
Definition cif_types : list sajson_type :=
  [TYPE_INTEGER; TYPE_DOUBLE; TYPE_NULL; TYPE_STRING].

(** A category that holds a table of [rows] rows: an object with at least
    one member, every member an array of [rows] elements of these types. *)
Definition is_table (rows : nat) (category : sajson_value) : Prop :=
  exists cols : list (string * sajson_value),
    category = json_object cols /\ cols <> [] /\
    Forall (fun m => exists es, m.2 = json_array es /\ length es = rows /\
                                Forall (fun e => get_type e ∈ cif_types) es) cols.

(** The items of a table with one row, a pair for every column, and the
    item of a table with more rows, one loop: its tags are the columns and
    its values the rows one after the other, so that the value of column
    [j] in row [k] is at [j + k * cols]. *)
Definition category_items `{CifText} (category_name : string)
    (cols : list (string * sajson_value)) (its : list Item) : Prop :=
  (exists texts : list string,
     Forall2 (fun m text => exists e, m.2 = json_array [e] /\ as_cif_value e = Ok text)
             cols texts /\
     its = zip_with (fun m text => ItemPair (category_name +:+ m.1) text) cols texts) \/
  (exists (rows : nat) (columns : list (list string)) (loop : Loop),
     (1 < rows)%nat /\
     Forall2 (fun m column =>
                exists es, m.2 = json_array es /\ length es = rows /\
                           Forall2 (fun e text => as_cif_value e = Ok text) es column)
             cols columns /\
     its = [ItemLoop loop] /\
     tags loop = (fun m => category_name +:+ m.1) <$> cols /\
     length (values loop) = (length cols * rows)%nat /\
     forall (j k : nat) (column : list string) (text : string),
       columns !! j = Some column -> column !! k = Some text ->
       values loop !! (j + k * length cols)%nat = Some text).

(** The call does not run on for ever, and when it fails, it fails with one
    of [msgs]. *)
Definition fails_only_with {A : Type} (msgs : list string) (o : outcome A) : Prop :=
  match o with
  | Fail msg => msg ∈ msgs
  | Diverges => False
  | _ => True
  end.

(** ** Examples for the reader *)

(** A text capability for the examples: a string of letters is quoted as it
    is.  The examples hold no double. *)
Definition example_text : CifText :=
  {| to_string_double := fun _ => "0.000000"; quote := fun s => s |}.

(** The text
    [{"data_1ABC": {"cell": {"length_a": [10], "length_b": [20]},
                    "atom_site": {"id": [1, 2], "label": ["CA", null]}}}]. *)
Definition example_cell_category : sajson_value :=
  json_object [("length_a", json_array [json_integer 10]);
               ("length_b", json_array [json_integer 20])].

Definition example_atom_site_category : sajson_value :=
  json_object [("id", json_array [json_integer 1; json_integer 2]);
               ("label", json_array [json_string "CA"; json_null])].

Definition example_mmjson : sajson_document :=
  mk_sajson_document true
    (json_object [("data_1ABC", json_object [("cell", example_cell_category);
                                             ("atom_site", example_atom_site_category)])]).

Definition example_parse (buffer : string) : sajson_document := example_mmjson.

Definition example_cif : Document :=
  mkDocument "1abc.json"
    [mkBlock "1ABC"
       [ItemPair "_cell.length_a" "10"; ItemPair "_cell.length_b" "20";
        ItemLoop (mkLoop ["_atom_site.id"; "_atom_site.label"] ["1"; "CA"; "2"; "?"])]].

(** A text whose first category has columns without rows:
    [{"data_1ABC": {"cell": {"length_a": []}}}]. *)
Definition example_no_rows : sajson_document :=
  mk_sajson_document true
    (json_object [("data_1ABC",
                   json_object [("cell", json_object [("length_a", json_array [])])])]).

(** [example_cif] after [example_mmjson] has been read into it a second
    time: the items are in its first block, the new block has none. *)
Definition example_cif_twice : Document :=
  mkDocument "1abc.json"
    [mkBlock "1ABC"
       [ItemPair "_cell.length_a" "10"; ItemPair "_cell.length_b" "20";
        ItemLoop (mkLoop ["_atom_site.id"; "_atom_site.label"] ["1"; "CA"; "2"; "?"]);
        ItemPair "_cell.length_a" "10"; ItemPair "_cell.length_b" "20";
        ItemLoop (mkLoop ["_atom_site.id"; "_atom_site.label"] ["1"; "CA"; "2"; "?"])];
     mkBlock "1ABC" []].

(** * Properties *)

(** ** The order of the observations *)

Lemma Refl_lt_key_lt (a o : Refl) :
  Refl_lt a o = true <-> key_lt (Refl_key a) (Refl_key o).
Proof.
  unfold Refl_lt, key_lt, Refl_key; simpl.
  repeat match goal with
  | |- context [?x <? ?y] => destruct (Z.ltb_spec x y)
  end; simpl; split; intros; try done; lia.
Qed.

Lemma Refl_key_eq (a o : Refl) :
  key_differs a o = false <-> Refl_key a = Refl_key o.
Proof.
  unfold key_differs, Refl_key.
  destruct (decide (hkl a = hkl o)) as [E|E];
    [rewrite bool_decide_eq_true_2 by done|rewrite bool_decide_eq_false_2 by done];
    simpl.
  - destruct (Z.eqb_spec (isign a) (isign o)); simpl; split; intros; try done; congruence.
  - split; intros; try done; congruence.
Qed.

Lemma key_differs_key (a b x : Refl) :
  Refl_key a = Refl_key b -> key_differs a x = key_differs b x.
Proof. unfold Refl_key, key_differs; intros [= -> ->]; done. Qed.

Lemma key_lt_irrefl (a : Miller * Z) : ~ key_lt a a.
Proof. unfold key_lt; lia. Qed.

Lemma key_lt_trans (a b c : Miller * Z) : key_lt a b -> key_lt b c -> key_lt a c.
Proof. unfold key_lt; lia. Qed.

Lemma key_lt_total (a b : Miller * Z) : a = b \/ key_lt a b \/ key_lt b a.
Proof.
  destruct a as [[a0 a1 a2] sa], b as [[b0 b1 b2] sb]; unfold key_lt; simpl.
  destruct (decide (a0 = b0)) as [->|]; [|lia].
  destruct (decide (a1 = b1)) as [->|]; [|lia].
  destruct (decide (a2 = b2)) as [->|]; [|lia].
  destruct (decide (sa = sb)) as [->|]; [by left|lia].
Qed.

(** ** The in-place loop of [merge_in_place] *)

Lemma assign_middle (f : Refl -> Refl) (l1 l2 : list Refl) (x : Refl) (p : nat) :
  p = length l1 -> assign p f (l1 ++ x :: l2) = l1 ++ f x :: l2.
Proof.
  intros ->; unfold assign.
  rewrite list_lookup_total_middle by done.
  replace (length l1) with (length l1 + 0)%nat at 1 by lia.
  by rewrite insert_app_r.
Qed.

Lemma set_sigma_set_value (run : list Refl) (cur : Refl) :
  Refl_key (run !!! 0%nat) = Refl_key cur ->
  set_sigma (1 / sqrt (sum_of_weights run))%float
    (set_value (sum_of_weighted_values run / sum_of_weights run)%float cur)
  = merged_observation run.
Proof. unfold Refl_key, set_sigma, set_value, merged_observation; simpl; intros [= -> ->]; done. Qed.

Lemma lookup_total_snoc_0 (run : list Refl) (x : Refl) :
  run <> [] -> (run ++ [x]) !!! 0%nat = run !!! 0%nat.
Proof. by destruct run. Qed.

Lemma sum_of_weights_snoc (run : list Refl) (x : Refl) :
  sum_of_weights (run ++ [x]) = (sum_of_weights run + weight x)%float.
Proof. unfold sum_of_weights; by rewrite foldl_app. Qed.

Lemma sum_of_weighted_values_snoc (run : list Refl) (x : Refl) :
  sum_of_weighted_values (run ++ [x])
  = (sum_of_weighted_values run + weight x * value x)%float.
Proof. unfold sum_of_weighted_values; by rewrite foldl_app. Qed.

Lemma sum_of_weights_single (x : Refl) :
  sum_of_weights [x] = (0 + 1 / (sigma x * sigma x))%float.
Proof. reflexivity. Qed.

Lemma sum_of_weighted_values_single (x : Refl) :
  sum_of_weighted_values [x] = (0 + 1 / (sigma x * sigma x) * value x)%float.
Proof. reflexivity. Qed.

(** The invariant of the loop: the vector is [done ++ cur :: junk ++ rest],
    where [done] holds the merged observations of the finished runs, [cur]
    (at [out]) carries the key of the current run [run], whose sums are in
    the accumulators, [junk] holds elements of the current run that were
    already read, and [rest] is still to be read. *)
Lemma merge_loop_invariant (rest : list Refl) :
  forall (done junk run : list Refl) (cur : Refl) (i : nat),
    run <> [] ->
    Refl_key (run !!! 0%nat) = Refl_key cur ->
    i = (length done + 1 + length junk)%nat ->
    merge_finish
      (foldl merge_body
         (mkMergeState (done ++ cur :: junk ++ rest) (length done)
                       (sum_of_weighted_values run) (sum_of_weights run))
         (seq i (length rest)))
    = done ++ (merged_observation <$> runs_from run rest).
Proof.
  induction rest as [|x rest IH]; intros done junk run cur i Hne Hkey Hi.
  - simpl. unfold merge_finish; simpl.
    rewrite !assign_middle by done.
    rewrite set_sigma_set_value by done.
    rewrite (cons_middle _ done), app_assoc.
    apply take_app_length'. rewrite length_app; simpl; lia.
  - cbn [length seq foldl runs_from].
    assert (Hx : forall c j, i = (length done + 1 + length j)%nat ->
              (done ++ c :: j ++ x :: rest) !!! i = x).
    { intros c j ->. rewrite (cons_middle c), !app_assoc.
      apply list_lookup_total_middle. rewrite !length_app; simpl; lia. }
    unfold merge_body at 2; cbn [ms_data ms_out sum_wI sum_w].
    rewrite list_lookup_total_middle by done.
    rewrite (Hx cur junk Hi).
    rewrite <- (key_differs_key _ _ x Hkey).
    destruct (key_differs (run !!! 0%nat) x) eqn:Hd.
    + cbn [ms_data ms_out sum_wI sum_w].
      rewrite !assign_middle by done.
      rewrite set_sigma_set_value by done.
      destruct junk as [|j junk].
      * simpl in Hi. cbn [app].
        set (d2 := done ++ merged_observation run :: x :: rest).
        assert (Hd2 : d2 = (done ++ [merged_observation run]) ++ x :: rest)
          by (unfold d2; by rewrite <- app_assoc).
        assert (Hl : S (length done) = length (done ++ [merged_observation run]))
          by (rewrite length_app; simpl; lia).
        assert (Hi' : i = S (length done)) by lia.
        rewrite Hi'.
        assert (H3 : assign (S (length done)) (set_hkl (hkl (d2 !!! S (length done)))) d2 = d2).
        { rewrite Hd2. rewrite (list_lookup_total_middle _ _ _ _ Hl).
          rewrite (assign_middle _ _ _ _ _ Hl). by destruct x. }
        rewrite H3.
        assert (H4 : assign (S (length done)) (set_isign (isign (d2 !!! S (length done)))) d2 = d2).
        { rewrite Hd2. rewrite (list_lookup_total_middle _ _ _ _ Hl).
          rewrite (assign_middle _ _ _ _ _ Hl). by destruct x. }
        rewrite H4.
        rewrite Hd2, Hl.
        rewrite !list_lookup_total_middle by done.
        specialize (IH (done ++ [merged_observation run]) [] [x] x
                       (S (length (done ++ [merged_observation run])))).
        cbn [app] in IH.
        rewrite sum_of_weights_single, sum_of_weighted_values_single in IH.
        rewrite IH; [by rewrite <- app_assoc|done|done|simpl; lia].
      * cbn [length] in Hi. cbn [app].
        set (m := merged_observation run).
        set (d2 := done ++ m :: j :: junk ++ x :: rest).
        assert (Hl : S (length done) = length (done ++ [m]))
          by (rewrite length_app; simpl; lia).
        assert (Hd2 : d2 = (done ++ [m]) ++ j :: junk ++ x :: rest)
          by (unfold d2; by rewrite <- app_assoc).
        assert (Hxi : forall c, ((done ++ [m]) ++ c :: junk ++ x :: rest) !!! i = x).
        { intros c. rewrite (cons_middle c), !app_assoc.
          apply list_lookup_total_middle. rewrite !length_app; simpl; lia. }
        rewrite Hd2.
        rewrite (assign_middle _ _ _ _ _ Hl).
        rewrite (assign_middle _ _ _ _ _ Hl).
        rewrite !Hxi.
        set (j' := set_isign (isign x) (set_hkl (hkl x) j)).
        specialize (IH (done ++ [m]) (junk ++ [x]) [x] j' (S i)).
        rewrite <- (app_assoc junk [x] rest) in IH. cbn [app] in IH.
        rewrite sum_of_weights_single, sum_of_weighted_values_single in IH.
        rewrite Hl.
        rewrite IH; [by rewrite <- app_assoc|done|done|].
        rewrite !length_app; simpl; lia.
    + cbn [ms_data ms_out sum_wI sum_w].
      rewrite (Hx cur junk Hi).
      specialize (IH done (junk ++ [x]) (run ++ [x]) cur (S i)).
      rewrite <- (app_assoc junk [x] rest) in IH. cbn [app] in IH.
      rewrite sum_of_weights_snoc, sum_of_weighted_values_snoc in IH.
      unfold weight in IH.
      apply IH.
      * by destruct run.
      * by rewrite lookup_total_snoc_0.
      * rewrite length_app; simpl; lia.
Qed.

Lemma key_differs_refl (x : Refl) : key_differs x x = false.
Proof. by apply Refl_key_eq. Qed.

(** The in-place loop computes the merged observation of every run. *)
Lemma merge_sorted_in_place_runs (s : list Refl) :
  merge_sorted_in_place s = merged_observation <$> runs s.
Proof.
  destruct s as [|x rest]; [done|].
  change (merge_sorted_in_place (x :: rest))
    with (merge_finish (foldl merge_body (merge_body (mkMergeState (x :: rest) 0 0 0) 0)
                              (seq 1 (length rest)))).
  assert (H0 : merge_body (mkMergeState (x :: rest) 0 0 0) 0
               = mkMergeState (x :: rest) 0 (sum_of_weighted_values [x]) (sum_of_weights [x])).
  { unfold merge_body; cbn [ms_data ms_out sum_wI sum_w].
    change ((x :: rest) !!! 0%nat) with x.
    by rewrite key_differs_refl. }
  rewrite H0.
  exact (merge_loop_invariant rest [] [] [x] x 1%nat ltac:(done) eq_refl eq_refl).
Qed.

Lemma merge_data_runs (b : bool) (d : list Refl) :
  merge_data b d = merged_observation <$> runs (sort (prepare b d)).
Proof.
  destruct d as [|x d]; [by destruct b|].
  unfold merge_data. apply merge_sorted_in_place_runs.
Qed.

(** ** The sort *)

Lemma insert_sorted_perm (x : Refl) (s : list Refl) : insert_sorted x s ≡ₚ x :: s.
Proof.
  induction s as [|y s IH]; simpl; [done|].
  destruct (Refl_lt x y); [done|].
  rewrite IH. apply Permutation_swap.
Qed.

Lemma sort_from_perm (d acc : list Refl) :
  foldl (fun s x => insert_sorted x s) acc d ≡ₚ acc ++ d.
Proof.
  revert acc; induction d as [|x d IH]; intros acc; simpl.
  - by rewrite app_nil_r.
  - rewrite IH, insert_sorted_perm. apply Permutation_middle.
Qed.

Lemma sort_perm (d : list Refl) : sort d ≡ₚ d.
Proof. unfold sort. by rewrite sort_from_perm. Qed.

Lemma Refl_lt_false_trans (a b c : Refl) :
  Refl_lt b a = false -> Refl_lt c b = false -> Refl_lt c a = false.
Proof.
  intros H1 H2. apply not_true_is_false; intros H3.
  apply Refl_lt_key_lt in H3.
  destruct (key_lt_total (Refl_key a) (Refl_key b)) as [E|[L|L]].
  - rewrite E in H3. apply Refl_lt_key_lt in H3. congruence.
  - destruct (key_lt_total (Refl_key b) (Refl_key c)) as [E'|[L'|L']].
    + rewrite <- E' in H3. by apply (key_lt_irrefl (Refl_key b)), (key_lt_trans _ (Refl_key a)).
    + apply (key_lt_irrefl (Refl_key a)).
      by apply (key_lt_trans _ (Refl_key b)), (key_lt_trans _ (Refl_key c)).
    + apply Refl_lt_key_lt in L'. congruence.
  - apply Refl_lt_key_lt in L. congruence.
Qed.

Lemma Refl_lt_asym (a b : Refl) : Refl_lt a b = true -> Refl_lt b a = false.
Proof.
  intros H. apply not_true_is_false; intros H'.
  apply Refl_lt_key_lt in H, H'.
  exact (key_lt_irrefl _ (key_lt_trans _ _ _ H H')).
Qed.

Lemma insert_sorted_sorted (x : Refl) (s : list Refl) :
  sorted s -> sorted (insert_sorted x s).
Proof.
  unfold sorted. induction 1 as [|y s Hs IH Hy]; simpl.
  - by repeat constructor.
  - destruct (Refl_lt x y) eqn:Hxy.
    + constructor; [by constructor|].
      constructor; [by apply Refl_lt_asym|].
      eapply Forall_impl; [exact Hy|]. simpl; intros z Hz.
      eapply Refl_lt_false_trans; [apply Refl_lt_asym, Hxy|done].
    + constructor; [done|].
      rewrite insert_sorted_perm. by constructor.
Qed.

Lemma sort_from_sorted (d acc : list Refl) :
  sorted acc -> sorted (foldl (fun s x => insert_sorted x s) acc d).
Proof.
  revert acc; induction d as [|x d IH]; intros acc Hacc; simpl; [done|].
  by apply IH, insert_sorted_sorted.
Qed.

Lemma sort_sorted (d : list Refl) : sorted (sort d).
Proof. apply sort_from_sorted. constructor. Qed.

(** ** The runs of a sorted sequence *)

Lemma Refl_key_merged_observation (r : list Refl) :
  Refl_key (merged_observation r) = run_key r.
Proof. done. Qed.

Lemma uniform_singleton (x : Refl) : uniform [x].
Proof. split; [done|]. by repeat constructor. Qed.

Lemma uniform_snoc (cur : list Refl) (x : Refl) :
  uniform cur -> key_differs (cur !!! 0%nat) x = false -> uniform (cur ++ [x]).
Proof.
  intros [Hne Hall] Hx. apply Refl_key_eq in Hx.
  split; [by destruct cur|].
  unfold run_key. rewrite lookup_total_snoc_0 by done.
  apply Forall_app; split; [done|]. by repeat constructor.
Qed.

Lemma uniform_head_elem (r : list Refl) : uniform r -> r !!! 0%nat ∈ r.
Proof. intros [Hne _]. destruct r; [done|]. simpl. apply list_elem_of_here. Qed.

Lemma runs_from_concat (s cur : list Refl) : concat (runs_from cur s) = cur ++ s.
Proof.
  revert cur; induction s as [|x s IH]; intros cur; simpl.
  - done.
  - destruct (key_differs _ x); simpl; rewrite IH; [done|].
    by rewrite <- app_assoc.
Qed.

Lemma runs_concat (s : list Refl) : concat (runs s) = s.
Proof. destruct s; [done|]. apply runs_from_concat. Qed.

Lemma runs_from_uniform (s cur : list Refl) :
  uniform cur -> Forall uniform (runs_from cur s).
Proof.
  revert cur; induction s as [|x s IH]; intros cur Hc; simpl.
  - by constructor.
  - destruct (key_differs _ x) eqn:Hx.
    + constructor; [done|]. apply IH, uniform_singleton.
    + by apply IH, uniform_snoc.
Qed.

Lemma runs_uniform (s : list Refl) : Forall uniform (runs s).
Proof. destruct s; [constructor|]. apply runs_from_uniform, uniform_singleton. Qed.

Lemma Refl_lt_false_neq (a b : Refl) :
  Refl_lt b a = false -> Refl_key a <> Refl_key b -> key_lt (Refl_key a) (Refl_key b).
Proof.
  intros H Hne. destruct (key_lt_total (Refl_key a) (Refl_key b)) as [E|[L|L]]; [done|done|].
  apply Refl_lt_key_lt in L. congruence.
Qed.

Lemma key_lt_Refl_le (a b c : Refl) :
  key_lt (Refl_key a) (Refl_key b) -> Refl_lt c b = false ->
  key_lt (Refl_key a) (Refl_key c).
Proof.
  intros Hab Hcb.
  destruct (key_lt_total (Refl_key b) (Refl_key c)) as [E|[L|L]].
  - by rewrite <- E.
  - by apply (key_lt_trans _ (Refl_key b)).
  - apply Refl_lt_key_lt in L. congruence.
Qed.

(** In a sorted sequence the keys of the runs ascend strictly. *)
Lemma runs_from_ascending (s cur : list Refl) :
  uniform cur -> sorted (cur ++ s) ->
  StronglySorted (fun r1 r2 => key_lt (run_key r1) (run_key r2)) (runs_from cur s).
Proof.
  revert cur; induction s as [|x s IH]; intros cur Hc Hs; simpl.
  - by repeat constructor.
  - destruct (key_differs _ x) eqn:Hx.
    + assert (Hxs : sorted ([x] ++ s)) by exact (StronglySorted_app_1_r _ _ _ Hs).
      constructor; [by apply IH; [apply uniform_singleton|]|].
      assert (Hcx : key_lt (run_key cur) (Refl_key x)).
      { apply Refl_lt_false_neq.
        - apply (StronglySorted_app_1_elem_of _ _ _ _ _ Hs);
            [by apply uniform_head_elem|apply list_elem_of_here].
        - intros E. apply Refl_key_eq in E. congruence. }
      apply Forall_forall. intros r Hr.
      assert (Hu : uniform r).
      { pose proof (runs_from_uniform s [x] (uniform_singleton x)) as Hall.
        rewrite Forall_forall in Hall. by apply Hall. }
      assert (Hy : r !!! 0%nat ∈ [x] ++ s).
      { rewrite <- runs_from_concat. apply list_elem_of_In, in_concat.
        exists r. split; apply list_elem_of_In; [done|by apply uniform_head_elem]. }
      apply elem_of_cons in Hy as [Hy|Hy].
      * unfold run_key at 2. by rewrite Hy.
      * apply (key_lt_Refl_le _ x); [done|].
        inversion Hxs as [|? ? _ Hall]; subst.
        rewrite Forall_forall in Hall. by apply Hall.
    + assert (Hk : run_key (cur ++ [x]) = run_key cur).
      { unfold run_key. rewrite lookup_total_snoc_0; [done|apply Hc]. }
      specialize (IH (cur ++ [x]) (uniform_snoc _ _ Hc Hx)).
      rewrite <- app_assoc in IH. by apply IH.
Qed.

Lemma runs_ascending (s : list Refl) :
  sorted s ->
  StronglySorted (fun r1 r2 => key_lt (run_key r1) (run_key r2)) (runs s).
Proof.
  destruct s as [|x s]; [constructor|]. intros Hs.
  by apply runs_from_ascending; [apply uniform_singleton|].
Qed.

Lemma with_key_all (key : Miller * Z) (l : list Refl) :
  Forall (fun x => Refl_key x = key) l -> with_key key l = l.
Proof.
  unfold with_key. induction 1 as [|x l Hx Hl IH]; [done|].
  rewrite filter_cons_True by done. by rewrite IH.
Qed.

Lemma with_key_uniform (r : list Refl) : uniform r -> with_key (run_key r) r = r.
Proof. intros [_ Hall]. by apply with_key_all. Qed.

Lemma with_key_other (key : Miller * Z) (l : list Refl) :
  Forall (fun x => Refl_key x <> key) l -> with_key key l = [].
Proof.
  unfold with_key. induction 1 as [|x l Hx Hl IH]; [done|].
  by rewrite filter_cons_False.
Qed.

(** Every run of uniform, strictly ascending runs holds all the elements of
    the sequence that have its key. *)
Lemma with_key_concat_runs (rs : list (list Refl)) :
  Forall uniform rs ->
  StronglySorted (fun r1 r2 => key_lt (run_key r1) (run_key r2)) rs ->
  Forall (fun r => with_key (run_key r) (concat rs) = r) rs.
Proof.
  intros Hu Hs. induction Hs as [|r rs Hs IH Hr]; [constructor|].
  apply Forall_cons in Hu as [Hur Hurs].
  specialize (IH Hurs). simpl.
  rewrite Forall_forall in Hr, Hurs, IH.
  constructor.
  - unfold with_key. rewrite filter_app. fold (with_key (run_key r) r).
    rewrite with_key_uniform by done.
    fold (with_key (run_key r) (concat rs)).
    rewrite with_key_other; [by rewrite app_nil_r|].
    apply Forall_concat, Forall_forall. intros r' Hr'.
    destruct (Hurs r' Hr') as [_ Hall].
    eapply Forall_impl; [exact Hall|]. simpl. intros y ->.
    intros E. specialize (Hr r' Hr'). rewrite E in Hr. by apply key_lt_irrefl in Hr.
  - apply Forall_forall. intros r' Hr'.
    unfold with_key. rewrite filter_app.
    fold (with_key (run_key r') r) (with_key (run_key r') (concat rs)).
    rewrite (IH r' Hr').
    rewrite with_key_other; [done|].
    destruct Hur as [_ Hall].
    eapply Forall_impl; [exact Hall|]. simpl. intros y ->.
    intros E. specialize (Hr r' Hr'). rewrite E in Hr. by apply key_lt_irrefl in Hr.
Qed.

Lemma runs_with_key (s : list Refl) :
  sorted s -> Forall (fun r => r <> [] /\ r = with_key (run_key r) s) (runs s).
Proof.
  intros Hs.
  pose proof (with_key_concat_runs (runs s) (runs_uniform s) (runs_ascending s Hs)) as H.
  rewrite runs_concat in H.
  pose proof (runs_uniform s) as Hu.
  rewrite Forall_forall in H, Hu. apply Forall_forall. intros r Hr.
  split; [apply (Hu r Hr)|]. symmetry. by apply H.
Qed.

Lemma ascending_sorted (s : list Refl) : ascending s -> sorted s.
Proof.
  unfold ascending, sorted. induction 1 as [|x s Hs IH Hx]; constructor; [done|].
  eapply Forall_impl; [exact Hx|]. simpl. intros y Hy.
  apply Refl_lt_asym. by apply Refl_lt_key_lt.
Qed.

Lemma ascending_NoDup (s : list Refl) : ascending s -> NoDup (Refl_key <$> s).
Proof.
  induction 1 as [|x s Hs IH Hx]; simpl; constructor; [|done].
  intros Hin. apply list_elem_of_fmap in Hin as (y & Hy & Hin).
  rewrite Forall_forall in Hx. specialize (Hx y Hin).
  rewrite Hy in Hx. by apply key_lt_irrefl in Hx.
Qed.

Lemma merge_data_ascending (b : bool) (d : list Refl) : ascending (merge_data b d).
Proof.
  rewrite merge_data_runs.
  eapply StronglySorted_fmap; [|apply runs_ascending, sort_sorted].
  intros r1 r2 H. by rewrite !Refl_key_merged_observation.
Qed.

Lemma NoDup_keys_eq (s : list Refl) (x y : Refl) :
  NoDup (Refl_key <$> s) -> x ∈ s -> y ∈ s -> Refl_key x = Refl_key y -> x = y.
Proof.
  induction s as [|z s IH]; simpl; intros Hnd Hx Hy E; [by apply elem_of_nil in Hx|].
  apply NoDup_cons in Hnd as [Hz Hnd].
  apply elem_of_cons in Hx as [->|Hx]; apply elem_of_cons in Hy as [->|Hy];
    [done| | |by apply IH].
  - exfalso. apply Hz. rewrite E. by apply list_elem_of_fmap_2.
  - exfalso. apply Hz. rewrite <- E. by apply list_elem_of_fmap_2.
Qed.

(** Sorting leaves a strictly ascending sequence as it is. *)
Lemma sort_ascending (s : list Refl) : ascending s -> sort s = s.
Proof.
  intros Hs.
  apply (StronglySorted_unique_strong (fun a o => Refl_lt o a = false));
    [|apply sort_sorted|by apply ascending_sorted|apply sort_perm].
  intros x y Hx Hy Hxy Hyx.
  rewrite sort_perm in Hx.
  apply (NoDup_keys_eq s); [by apply ascending_NoDup|done|done|].
  destruct (key_lt_total (Refl_key x) (Refl_key y)) as [E|[L|L]]; [done| |];
    apply Refl_lt_key_lt in L; congruence.
Qed.

(** Every run of a strictly ascending sequence is a single observation. *)
Lemma runs_from_ascending_single (s : list Refl) (x : Refl) :
  ascending (x :: s) -> runs_from [x] s = (fun y => [y]) <$> (x :: s).
Proof.
  revert x; induction s as [|y s IH]; intros x Hs; [done|].
  inversion Hs as [|? ? Hs' Hx]; subst.
  cbn [runs_from]. change ([x] !!! 0%nat) with x.
  assert (Hd : key_differs x y = true).
  { apply not_false_iff_true. intros E. apply Refl_key_eq in E.
    apply Forall_cons in Hx as [Hx _]. rewrite E in Hx. by apply key_lt_irrefl in Hx. }
  rewrite Hd. rewrite (IH y Hs'). done.
Qed.

Lemma runs_ascending_single (s : list Refl) :
  ascending s -> runs s = (fun y => [y]) <$> s.
Proof. destruct s; [done|]. apply runs_from_ascending_single. Qed.

Lemma merge_data_ascending_input (b : bool) (d : list Refl) :
  ascending (prepare b d) ->
  merge_data b d = (fun x => merged_observation [x]) <$> prepare b d.
Proof.
  intros Hs. rewrite merge_data_runs, sort_ascending by done.
  rewrite runs_ascending_single by done. by rewrite <- list_fmap_compose.
Qed.

(** ** The merger on permuted input *)

Lemma elem_of_run_keys (s : list Refl) (key : Miller * Z) :
  key ∈ run_key <$> runs s <-> key ∈ Refl_key <$> s.
Proof.
  pose proof (runs_uniform s) as Hu. rewrite Forall_forall in Hu.
  split; intros H; apply list_elem_of_fmap in H as (r & -> & Hr).
  - unfold run_key. apply list_elem_of_fmap_2. rewrite <- (runs_concat s).
    apply list_elem_of_In, in_concat. exists r.
    split; apply list_elem_of_In; [done|]. by apply uniform_head_elem, Hu.
  - rewrite <- (runs_concat s) in Hr.
    apply list_elem_of_In, in_concat in Hr as (r' & Hr' & Hin).
    apply list_elem_of_In in Hr', Hin.
    destruct (Hu r' Hr') as [_ Hall]. rewrite Forall_forall in Hall.
    rewrite (Hall r Hin). by apply list_elem_of_fmap_2.
Qed.

#[local] Instance key_lt_antisymm : AntiSymm eq key_lt.
Proof. intros a b H1 H2. exfalso. exact (key_lt_irrefl _ (key_lt_trans _ _ _ H1 H2)). Qed.

Lemma run_keys_ascending (s : list Refl) :
  sorted s -> StronglySorted key_lt (run_key <$> runs s).
Proof. intros Hs. eapply StronglySorted_fmap; [|by apply runs_ascending]. done. Qed.

Lemma key_lt_sorted_NoDup (ks : list (Miller * Z)) : StronglySorted key_lt ks -> NoDup ks.
Proof.
  induction 1 as [|x s Hs IH Hx]; constructor; [|done].
  intros Hin. rewrite Forall_forall in Hx. exact (key_lt_irrefl _ (Hx x Hin)).
Qed.

Lemma run_keys_perm (s1 s2 : list Refl) :
  sorted s1 -> sorted s2 -> s1 ≡ₚ s2 -> run_key <$> runs s1 = run_key <$> runs s2.
Proof.
  intros H1 H2 Hp.
  apply (StronglySorted_unique key_lt); [by apply run_keys_ascending..|].
  apply NoDup_Permutation; [by apply key_lt_sorted_NoDup, run_keys_ascending..|].
  intros key. rewrite !elem_of_run_keys. by rewrite Hp.
Qed.

Lemma runs_perm_pointwise (s1 s2 : list Refl) (rs1 rs2 : list (list Refl)) :
  s1 ≡ₚ s2 ->
  run_key <$> rs1 = run_key <$> rs2 ->
  Forall (fun r => r <> [] /\ r = with_key (run_key r) s1) rs1 ->
  Forall (fun r => r <> [] /\ r = with_key (run_key r) s2) rs2 ->
  Forall2 (fun r1 r2 => r1 ≡ₚ r2) rs1 rs2.
Proof.
  intros Hp. revert rs2; induction rs1 as [|r1 rs1 IH]; intros [|r2 rs2] Hk F1 F2;
    try discriminate Hk; [constructor|].
  assert (Hk1 : run_key r1 = run_key r2) by (cbn [fmap list_fmap] in Hk; congruence).
  assert (Hk' : run_key <$> rs1 = run_key <$> rs2) by (cbn [fmap list_fmap] in Hk; congruence).
  apply Forall_cons in F1 as [[_ E1] F1]. apply Forall_cons in F2 as [[_ E2] F2].
  constructor; [|by apply IH].
  rewrite E1, E2, Hk1. unfold with_key. by rewrite Hp.
Qed.

(** Two sorted arrangements of the same observations have the same runs, up
    to the order of the observations inside a run: the way in which
    [std::sort] arranges equivalent elements decides the order in which a
    run is added up, and nothing else. *)
Lemma runs_of_sorted_permutations (s1 s2 : list Refl) :
  sorted s1 -> sorted s2 -> s1 ≡ₚ s2 ->
  run_key <$> runs s1 = run_key <$> runs s2 /\
  Forall2 (fun r1 r2 => r1 ≡ₚ r2) (runs s1) (runs s2).
Proof.
  intros H1 H2 Hp.
  assert (Hk : run_key <$> runs s1 = run_key <$> runs s2) by by apply run_keys_perm.
  split; [done|].
  by apply (runs_perm_pointwise s1 s2); [..|apply runs_with_key|apply runs_with_key].
Qed.

(** ** The merger *)

Lemma prepare_perm (b : bool) (d1 d2 : list Refl) :
  d1 ≡ₚ d2 -> prepare b d1 ≡ₚ prepare b d2.
Proof. intros H. destruct b; simpl; [done|]. unfold discard_signs. by rewrite H. Qed.

Lemma set_data_id (self : Intensities) : set_data (data self) self = self.
Proof. by destruct self. Qed.

(** Every output of the merger carries the key of an observation of the
    prepared input. *)
Lemma merge_data_keys (b : bool) (d : list Refl) (x : Refl) :
  x ∈ merge_data b d -> Refl_key x ∈ Refl_key <$> prepare b d.
Proof.
  rewrite merge_data_runs. intros Hx.
  apply list_elem_of_fmap in Hx as (r & -> & Hr).
  rewrite Refl_key_merged_observation, <- (sort_perm (prepare b d)).
  apply elem_of_run_keys. by apply list_elem_of_fmap_2.
Qed.

(** What the merger returns needs no preparation for the same mode. *)
Lemma prepare_merge_data (b : bool) (d : list Refl) :
  prepare b (merge_data b d) = merge_data b d.
Proof.
  destruct b; [done|]. unfold prepare, discard_signs.
  rewrite <- (list_fmap_id (merge_data false d)) at 2.
  apply list_fmap_ext. intros i x Hx. simpl.
  apply list_elem_of_lookup_2, merge_data_keys in Hx.
  apply list_elem_of_fmap in Hx as (y & Hy & Hin).
  unfold prepare, discard_signs in Hin.
  apply list_elem_of_fmap in Hin as (z & -> & _).
  unfold Refl_key in Hy. simpl in Hy. injection Hy as _ Hs.
  destruct x; simpl in *. by rewrite Hs.
Qed.

(** C1.  After [merge_in_place] the observations are the merged
    observations of the runs of the sorted sequence, one for each run: the
    value is the sum of [w * value] over the run divided by the sum of [w],
    the sigma is [1 / sqrt] of the sum of [w], with [w = 1 / sigma²].  The
    runs make up the sorted sequence, and each of them holds all the
    observations that have its key.  Two observations [(1,2,3)] without sign,
    with values [10] and [14] and sigma [2], merge to the value [12] with
    sigma [2 / sqrt 2]. *)
Theorem merge_in_place_weighted_mean :
  (forall (output_plus_minus : bool) (self : Intensities),
     let s := sort (prepare output_plus_minus (data self)) in
     data (merge_in_place output_plus_minus self) = merged_observation <$> runs s /\
     concat (runs s) = s /\
     Forall (fun r => r <> [] /\ r = with_key (run_key r) s) (runs s) /\
     Forall (fun r =>
               value (merged_observation r)
               = (sum_of_weighted_values r / sum_of_weights r)%float /\
               sigma (merged_observation r) = (1 / sqrt (sum_of_weights r))%float)
            (runs s)) /\
  (forall (c : UnitCell) (sg : option SpaceGroup) (w : float),
     data (merge_in_place true
             (mkIntensities [mkRefl (mkMiller 1 2 3) 0 10 2; mkRefl (mkMiller 1 2 3) 0 14 2]
                            sg c w))
     = [mkRefl (mkMiller 1 2 3) 0 12 (2 / sqrt 2)]).
Proof.
  split.
  - intros b self s. repeat split.
    + apply merge_data_runs.
    + apply runs_concat.
    + apply runs_with_key, sort_sorted.
    + apply Forall_forall. by intros r _.
  - intros c sg w. vm_compute. reflexivity.
Qed.

(** C5.  After [merge_in_place] no two observations have the same index
    and sign, and the keys [(h, k, l, sign)] ascend strictly in the
    lexicographic order, which is the order of [operator<]; the signs are
    ordered [Minus < None < Plus]. *)
Theorem merge_in_place_unique_sorted :
  (forall (output_plus_minus : bool) (self : Intensities),
     let out := data (merge_in_place output_plus_minus self) in
     NoDup (Refl_key <$> out) /\
     StronglySorted (fun a o => key_lt (Refl_key a) (Refl_key o)) out /\
     StronglySorted (fun a o => Refl_lt a o = true) out) /\
  (forall a o : Refl, Refl_lt a o = true <-> key_lt (Refl_key a) (Refl_key o)) /\
  (forall s t : SignTag, tag_lt s t <-> isign_of_tag s < isign_of_tag t).
Proof.
  split; [|split].
  - intros b self out.
    assert (H : ascending out) by apply merge_data_ascending.
    split; [by apply ascending_NoDup|]. split; [done|].
    rewrite <- (list_fmap_id out).
    eapply StronglySorted_fmap; [|exact H]. intros x y Hxy. by apply Refl_lt_key_lt.
  - apply Refl_lt_key_lt.
  - intros [] []; simpl; split; intros; try done; lia.
Qed.

(** C4, as the code has it.  Merging an empty set changes nothing.  A single
    observation comes out with its key, but its value and its sigma are
    computed again, in binary64 arithmetic, as [(0 + w * value) / (0 + w)]
    and [1 / sqrt (0 + w)] with [w = 1 / (sigma * sigma)].  Hence merging a
    set that ascends strictly by key (after the signs are discarded, when
    they are) keeps the number, the order and the keys of the observations
    and computes each value and sigma again in this way; the set that the
    merger returns is such a set. *)
Theorem merge_in_place_already_merged :
  (forall (b : bool) (self : Intensities),
     data self = [] -> merge_in_place b self = self) /\
  (forall (b : bool) (self : Intensities) (x : Refl),
     data self = [x] ->
     let y := if b then x else set_isign 0 x in
     let w := (1 / (sigma y * sigma y))%float in
     data (merge_in_place b self)
     = [mkRefl (hkl y) (isign y) ((0 + w * value y) / (0 + w))%float
               (1 / sqrt (0 + w))%float]) /\
  (forall (b : bool) (self : Intensities),
     ascending (prepare b (data self)) ->
     data (merge_in_place b self)
     = (fun x => merged_observation [x]) <$> prepare b (data self) /\
     length (data (merge_in_place b self)) = length (data self) /\
     Refl_key <$> data (merge_in_place b self) = Refl_key <$> prepare b (data self)) /\
  (forall (b : bool) (self : Intensities),
     let once := merge_in_place b self in
     data (merge_in_place b once) = (fun x => merged_observation [x]) <$> data once /\
     Refl_key <$> data (merge_in_place b once) = Refl_key <$> data once).
Proof.
  split; [|split; [|split]]; cycle 3.
  { intros b self once. unfold once, merge_in_place; simpl.
    rewrite (merge_data_ascending_input b (merge_data b (data self)));
      rewrite prepare_merge_data; [|apply merge_data_ascending].
    split; [done|]. rewrite <- list_fmap_compose. by apply list_fmap_ext. }
  - intros b self H. unfold merge_in_place. rewrite H. simpl.
    rewrite <- H. apply set_data_id.
  - intros b self x H y w. unfold merge_in_place; simpl. rewrite H.
    subst y w. destruct b;
      (rewrite merge_data_ascending_input by (simpl; repeat constructor)); done.
  - intros b self H. unfold merge_in_place; simpl.
    rewrite merge_data_ascending_input by done.
    split; [done|]. split.
    + rewrite length_fmap. destruct b; simpl; [done|].
      unfold discard_signs. by rewrite length_fmap.
    + rewrite <- list_fmap_compose. by apply list_fmap_ext.
Qed.

(** C9, as the code has it.  On two sequences with the same observations in
    different orders the merger gives the same keys in the same order, and
    at every position the two runs that are merged hold the same
    observations; each output is the merged observation of its run, whose
    sums are added up in the order of the run. *)
Theorem merge_in_place_permutation (b : bool) (self1 self2 : Intensities) :
  data self1 ≡ₚ data self2 ->
  let s1 := sort (prepare b (data self1)) in
  let s2 := sort (prepare b (data self2)) in
  Refl_key <$> data (merge_in_place b self1) = Refl_key <$> data (merge_in_place b self2) /\
  Forall2 (fun r1 r2 => r1 ≡ₚ r2) (runs s1) (runs s2) /\
  data (merge_in_place b self1) = merged_observation <$> runs s1 /\
  data (merge_in_place b self2) = merged_observation <$> runs s2.
Proof.
  intros Hp s1 s2.
  assert (Hs : s1 ≡ₚ s2).
  { unfold s1, s2. rewrite !sort_perm. by apply prepare_perm. }
  destruct (runs_of_sorted_permutations s1 s2) as [Hk Hr];
    [apply sort_sorted..|done|].
  unfold merge_in_place; simpl. rewrite !merge_data_runs. fold s1 s2.
  split; [|split; [done|done]].
  rewrite <- !list_fmap_compose. exact Hk.
Qed.

(** C4 at [example_merged]: the set ascends by key, and merging it computes
    the value and the sigma of each of its two observations again. *)
Lemma merge_in_place_already_merged_witness :
  ascending (prepare true (data example_merged)) /\
  data (merge_in_place true example_merged)
  = (fun x => merged_observation [x]) <$> prepare true (data example_merged).
Proof.
  assert (H : ascending (prepare true (data example_merged))).
  { repeat constructor. }
  split; [exact H|].
  exact (proj1 (proj1 (proj2 (proj2 merge_in_place_already_merged)) true example_merged H)).
Defined.

(** C4 fails as stated: one observation with value [10] and sigma [3] comes
    out of the merger with the value [0x1.4000000000001p+3], the binary64
    number after [10]. *)
Lemma merge_in_place_single_not_identity :
  data (merge_in_place true example_single)
  = [mkRefl (mkMiller 1 2 3) 0 0x1.4000000000001p+3 3] /\
  data (merge_in_place true example_single) <> data example_single.
Proof.
  split; [vm_compute; reflexivity|].
  intros H.
  apply (f_equal (fun d => PrimFloat.Leibniz.eqb (value (d !!! 0%nat)) 10)) in H.
  vm_compute in H. discriminate H.
Qed.

(** C9 at the two orders of the example. *)
Lemma merge_in_place_permutation_witness :
  data example_large_first ≡ₚ data example_large_last /\
  Refl_key <$> data (merge_in_place true example_large_first)
  = Refl_key <$> data (merge_in_place true example_large_last).
Proof.
  assert (H : data example_large_first ≡ₚ data example_large_last).
  { exact (Permutation_cons_append _ _). }
  split; [exact H|].
  exact (proj1 (merge_in_place_permutation true example_large_first example_large_last H)).
Defined.

(** C9 fails as stated: the two orders of the same three observations merge
    to different values, since the sums are rounded in the order in which
    the observations are added. *)
Lemma merge_in_place_order_dependent :
  data example_large_first ≡ₚ data example_large_last /\
  data (merge_in_place true example_large_first)
  = [mkRefl (mkMiller 1 2 3) 0 3333333333333333.5 (1 / sqrt 3)] /\
  data (merge_in_place true example_large_last)
  = [mkRefl (mkMiller 1 2 3) 0 3333333333333334 (1 / sqrt 3)] /\
  data (merge_in_place true example_large_first)
  <> data (merge_in_place true example_large_last).
Proof.
  split; [exact (Permutation_cons_append _ _)|].
  split; [vm_compute; reflexivity|].
  split; [vm_compute; reflexivity|].
  intros H.
  apply (f_equal (fun d => PrimFloat.Leibniz.eqb (value (d !!! 0%nat)) 3333333333333334)) in H.
  vm_compute in H. discriminate H.
Qed.

(** ** The validity filter *)

Lemma is_invalid_negb (refl : Refl) : is_invalid refl = negb (is_valid refl).
Proof. unfold is_invalid, is_valid. by destruct (is_nan _), (0 <? _)%float. Qed.

Lemma foldl_add_if_valid (rows d : list Refl) :
  foldl (fun d refl => add_if_valid refl d) d rows = d ++ List.filter is_valid rows.
Proof.
  revert d; induction rows as [|x rows IH]; intros d; simpl.
  - by rewrite app_nil_r.
  - rewrite IH. unfold add_if_valid. destruct (is_valid x); [|done].
    by rewrite <- app_assoc.
Qed.

Lemma row_count_0 (stride : nat) : (0 < stride)%nat -> row_count 0 stride = 0%nat.
Proof. intros H. unfold row_count. apply Nat.div_small. lia. Qed.

Lemma row_count_S (a stride : nat) :
  (0 < stride)%nat -> (0 < a)%nat ->
  row_count a stride = S (row_count (a - stride) stride).
Proof.
  intros Hs Ha. unfold row_count.
  destruct (Nat.le_gt_cases stride a) as [Hle|Hgt].
  - replace (a + stride - 1)%nat with ((a - stride + stride - 1) + 1 * stride)%nat by lia.
    rewrite Nat.div_add by lia. lia.
  - replace (a - stride)%nat with 0%nat by lia. simpl.
    rewrite (Nat.div_small (stride - 1)) by lia.
    replace (a + stride - 1)%nat with ((a - 1) + 1 * stride)%nat by lia.
    rewrite Nat.div_add by lia. rewrite Nat.div_small by lia. done.
Qed.

(** With a positive stride and enough fuel the loop of [read_data] reads the
    rows at the offsets [i], [i + stride], ... below [size] and applies
    [add_if_valid] to each. *)
Lemma read_data_loop_rows (proxy : DataProxy) (value_idx sigma_idx : nat) :
  (0 < proxy_stride proxy)%nat ->
  forall (fuel i : nat) (d rows : list Refl),
    (proxy_size proxy <= i + fuel * proxy_stride proxy)%nat ->
    Forall2 (fun o row => read_row proxy value_idx sigma_idx o = Ok row)
            ((fun j => (i + j * proxy_stride proxy)%nat)
               <$> seq 0 (row_count (proxy_size proxy - i) (proxy_stride proxy)))
            rows ->
    read_data_loop fuel proxy value_idx sigma_idx i d
    = Ok (d ++ List.filter is_valid rows).
Proof.
  intros Hs. induction fuel as [|fuel IH]; intros i d rows Hf Hrows.
  - simpl in *. rewrite (proj2 (Nat.leb_le _ _)) by lia.
    replace (proxy_size proxy - i)%nat with 0%nat in Hrows by lia.
    rewrite row_count_0 in Hrows by done. apply Forall2_nil_inv_l in Hrows as ->.
    by rewrite app_nil_r.
  - cbn [read_data_loop].
    destruct (Nat.leb_spec (proxy_size proxy) i) as [Hle|Hlt].
    + replace (proxy_size proxy - i)%nat with 0%nat in Hrows by lia.
      rewrite row_count_0 in Hrows by done. apply Forall2_nil_inv_l in Hrows as ->.
      by rewrite app_nil_r.
    + rewrite row_count_S in Hrows by lia.
      cbn [seq fmap list_fmap] in Hrows. rewrite Nat.add_0_r in Hrows.
      apply Forall2_cons_inv_l in Hrows as (row & rows' & Hrow & Hrows & ->).
      rewrite Hrow. cbn [mbind outcome_bind].
      rewrite (IH _ _ rows').
      * unfold add_if_valid. simpl. destruct (is_valid row); [|done].
        by rewrite <- app_assoc.
      * lia.
      * replace (proxy_size proxy - (i + proxy_stride proxy))%nat
          with (proxy_size proxy - i - proxy_stride proxy)%nat by lia.
        rewrite <- fmap_S_seq in Hrows. rewrite <- list_fmap_compose in Hrows.
        erewrite list_fmap_ext; [exact Hrows|]. intros ? j _. simpl. lia.
Qed.

Lemma filter_valid_invalid_length (rows : list Refl) :
  (length (List.filter is_valid rows) + length (List.filter is_invalid rows))%nat
  = length rows.
Proof.
  induction rows as [|x rows IH]; simpl; [done|].
  rewrite is_invalid_negb. destruct (is_valid x); simpl; lia.
Qed.

(** C2, as the code has it.  The filter accepts an observation if and only
    if its value is not NaN and its sigma is greater than zero; a finite
    value with a positive sigma is accepted, and so is an infinite value.  A
    rejected observation is dropped and nothing else happens.  When
    [read_data] reads [n] rows of which [k] have a NaN value or a sigma that
    is not greater than zero, it appends the other [n - k] rows, in their
    order, and returns. *)
Theorem add_if_valid_accepts :
  (forall refl : Refl,
     is_valid refl = true
     <-> is_nan (value refl) = false /\ (0 <? sigma refl)%float = true) /\
  (forall (refl : Refl) (d : list Refl),
     add_if_valid refl d = if is_valid refl then d ++ [refl] else d) /\
  (forall refl : Refl,
     is_finite (value refl) = true -> (0 <? sigma refl)%float = true ->
     is_valid refl = true) /\
  (forall (proxy : DataProxy) (value_idx sigma_idx : nat) (self : Intensities)
          (rows : list Refl),
     (0 < proxy_stride proxy)%nat ->
     Forall2 (fun o row => read_row proxy value_idx sigma_idx o = Ok row)
             (row_offsets (proxy_size proxy) (proxy_stride proxy)) rows ->
     exists self' : Intensities,
       read_data proxy value_idx sigma_idx self = Ok self' /\
       data self' = data self ++ List.filter is_valid rows /\
       length (data self')
       = (length (data self) + (length rows - length (List.filter is_invalid rows)))%nat).
Proof.
  split; [|split; [|split]].
  - intros refl. unfold is_valid. rewrite andb_true_iff, negb_true_iff. done.
  - done.
  - intros refl Hf Hs. unfold is_valid. rewrite Hs, andb_true_r.
    unfold is_finite in Hf. by destruct (is_nan (value refl)).
  - intros proxy vi si self rows Hs Hrows.
    exists (set_data (data self ++ List.filter is_valid rows) self).
    split; [|split; [done|]].
    + unfold read_data.
      rewrite (read_data_loop_rows proxy vi si Hs _ _ _ rows); [done|nia|].
      rewrite Nat.sub_0_r. unfold row_offsets in Hrows.
      erewrite list_fmap_ext; [exact Hrows|]. by intros ? j _.
    + simpl. rewrite length_app.
      pose proof (filter_valid_invalid_length rows). lia.
Qed.

(** C2 at [example_proxy]: of its three rows, one has a NaN value and one a
    negative sigma; one observation is appended. *)
Lemma add_if_valid_accepts_witness :
  exists self' : Intensities,
    read_data example_proxy 0 1 Intensities_new = Ok self' /\
    data self' = [mkRefl (mkMiller 0 0 0) 0 10 2] /\
    length (data self') = (0 + (3 - 2))%nat.
Proof.
  assert (Hs : (0 < proxy_stride example_proxy)%nat) by (simpl; lia).
  assert (Hrows :
    Forall2 (fun o row => read_row example_proxy 0 1 o = Ok row)
            (row_offsets (proxy_size example_proxy) (proxy_stride example_proxy))
            [mkRefl (mkMiller 0 0 0) 0 10 2; mkRefl (mkMiller 0 0 2) 0 nan 1;
             mkRefl (mkMiller 0 0 4) 0 7 (-1)]).
  { repeat constructor. }
  exact (proj2 (proj2 (proj2 add_if_valid_accepts)) example_proxy 0%nat 1%nat
               Intensities_new _ Hs Hrows).
Defined.

(** C2 fails as stated: an observation with the value [+infinity] and the
    sigma [1] is accepted although its value is not finite, so a single row
    with such a value enters the set. *)
Lemma add_if_valid_accepts_infinity :
  is_finite infinity = false /\
  is_valid (mkRefl (mkMiller 0 0 1) 0 infinity 1) = true /\
  read_data example_infinite_proxy 0 1 Intensities_new
  = Ok (set_data [mkRefl (mkMiller 0 0 1) 0 infinity 1] Intensities_new).
Proof. repeat split. Qed.

(** ** The resolution range *)

(** The order of the binary64 numbers. *)
Lemma SFltb_irrefl (a : spec_float) : SFltb a a = false.
Proof.
  unfold SFltb, SFcompare.
  destruct a as [s|s| |s m e]; try destruct s; try reflexivity;
    rewrite Z.compare_refl; change (Pos.compare_cont Eq m m) with (Pos.compare m m);
    rewrite Pos.compare_refl; reflexivity.
Qed.

Ltac compare_cases :=
  repeat match goal with
  | H : context [Z.compare ?a ?b] |- _ => destruct (Z.compare_spec a b)
  | |- context [Z.compare ?a ?b] => destruct (Z.compare_spec a b)
  | H : context [Pos.compare ?a ?b] |- _ => destruct (Pos.compare_spec a b)
  | |- context [Pos.compare ?a ?b] => destruct (Pos.compare_spec a b)
  end.

Lemma SFltb_trans (a b c : spec_float) :
  SFltb a b = true -> SFltb b c = true -> SFltb a c = true.
Proof.
  unfold SFltb, SFcompare.
  destruct a as [sa|sa| |sa ma ea], b as [sb|sb| |sb mb eb], c as [sc|sc| |sc mc ec];
    try destruct sa; try destruct sb; try destruct sc;
    try discriminate; try reflexivity;
    repeat match goal with
    | |- context [Pos.compare_cont Eq ?x ?y] =>
        change (Pos.compare_cont Eq x y) with (Pos.compare x y)
    end;
    intros H1 H2; compare_cases; simpl in *; subst;
    try discriminate; try reflexivity; try lia.
Qed.

Lemma ltb_irrefl (a : float) : (a <? a)%float = false.
Proof. rewrite ltb_spec. apply SFltb_irrefl. Qed.

Lemma ltb_trans (a b c : float) :
  (a <? b)%float = true -> (b <? c)%float = true -> (a <? c)%float = true.
Proof. rewrite !ltb_spec. apply SFltb_trans. Qed.

Section Extremum.
(** An order on the numbers that is irreflexive and transitive: [<], or [>]. *)
Variable lt : float -> float -> bool.
Hypothesis lt_irrefl : forall a, lt a a = false.
Hypothesis lt_trans : forall a b c, lt a b = true -> lt b c = true -> lt a c = true.

(** Picking through a list from [m0]: no value is before the result, the
    result is a value of the list or still [m0], and it is [m0] or before. *)
Lemma foldl_pick (vals : list float) :
  forall m0 : float,
    let m := foldl (pick lt) m0 vals in
    Forall (fun a => lt a m = false) vals /\
    (m ∈ vals \/ (m = m0 /\ Forall (fun a => lt a m0 = false) vals)) /\
    (m = m0 \/ lt m m0 = true).
Proof.
  induction vals as [|a vals IH]; intros m0; simpl.
  - repeat split; [constructor|right; by split|by left].
  - destruct (IH (pick lt m0 a)) as (H1 & H2 & H3).
    set (m := foldl (pick lt) (pick lt m0 a) vals) in *. clearbody m.
    unfold pick in H2, H3.
    destruct (lt a m0) eqn:Ha.
    + repeat split.
      * constructor; [|done].
        destruct H3 as [->|H3]; [apply lt_irrefl|].
        apply not_true_is_false. intros Ham.
        pose proof (lt_trans _ _ _ Ham H3) as Haa. by rewrite lt_irrefl in Haa.
      * left. destruct H2 as [H2|[-> _]]; [by apply elem_of_cons; right|].
        apply list_elem_of_here.
      * right. destruct H3 as [->|H3]; [done|]. by apply (lt_trans _ a).
    + repeat split.
      * constructor; [|done].
        destruct H3 as [->|H3]; [done|].
        apply not_true_is_false. intros Ham.
        pose proof (lt_trans _ _ _ Ham H3) as Haa. congruence.
      * destruct H2 as [H2|[-> H2]]; [left; by apply elem_of_cons; right|].
        right. split; [done|]. by constructor.
      * done.
Qed.
End Extremum.

Lemma resolution_extrema_pick (self : Intensities) :
  resolution_extrema self
  = (foldl (pick PrimFloat.ltb) infinity (spacings self),
     foldl (pick (fun a b => PrimFloat.ltb b a)) 0%float (spacings self)).
Proof.
  unfold resolution_extrema, spacings.
  generalize infinity 0%float.
  induction (data self) as [|x d IH]; intros m0 M0; simpl; [done|].
  unfold resolution_step at 2; simpl. by rewrite IH.
Qed.

(** C3, as the code has it.  [resolution_range] returns
    [(1 / sqrt m, 1 / sqrt M)], the low-resolution limit first: no spacing
    [d*²] of the set is below [m], and [m] is one of the spacings, or still
    the seed [+infinity] when none is below it; no spacing is above [M], and
    [M] is one of the spacings, or still the seed [0] when none is above it.
    So for a set that is not empty and whose spacings are positive and
    finite, [m] is the least and [M] the greatest spacing.  On an empty set
    no error is raised: the seeds give [(0, +infinity)]. *)
Theorem resolution_range_extrema :
  (forall self : Intensities,
     let m := (resolution_extrema self).1 in
     let M := (resolution_extrema self).2 in
     resolution_range self = ((1 / sqrt m)%float, (1 / sqrt M)%float) /\
     Forall (fun a => (a <? m)%float = false) (spacings self) /\
     (m ∈ spacings self \/
      (m = infinity /\ Forall (fun a => (a <? infinity)%float = false) (spacings self))) /\
     Forall (fun a => (M <? a)%float = false) (spacings self) /\
     (M ∈ spacings self \/
      (M = 0%float /\ Forall (fun a => (0 <? a)%float = false) (spacings self)))) /\
  (forall self : Intensities,
     data self <> [] ->
     Forall (fun a => (0 <? a)%float = true /\ (a <? infinity)%float = true) (spacings self) ->
     (resolution_extrema self).1 ∈ spacings self /\
     (resolution_extrema self).2 ∈ spacings self) /\
  (forall self : Intensities,
     data self = [] -> resolution_range self = (0%float, infinity)).
Proof.
  assert (Hgen : forall self : Intensities,
     let m := (resolution_extrema self).1 in
     let M := (resolution_extrema self).2 in
     resolution_range self = ((1 / sqrt m)%float, (1 / sqrt M)%float) /\
     Forall (fun a => (a <? m)%float = false) (spacings self) /\
     (m ∈ spacings self \/
      (m = infinity /\ Forall (fun a => (a <? infinity)%float = false) (spacings self))) /\
     Forall (fun a => (M <? a)%float = false) (spacings self) /\
     (M ∈ spacings self \/
      (M = 0%float /\ Forall (fun a => (0 <? a)%float = false) (spacings self)))).
  { intros self m M. subst m M. rewrite resolution_extrema_pick. simpl.
    destruct (foldl_pick PrimFloat.ltb ltb_irrefl ltb_trans (spacings self) infinity)
      as (H1 & H2 & _).
    destruct (foldl_pick (fun a b => PrimFloat.ltb b a)
                (fun a => ltb_irrefl a) (fun a b c H H' => ltb_trans c b a H' H)
                (spacings self) 0%float) as (H3 & H4 & _).
    repeat split; try done.
    unfold resolution_range. by rewrite resolution_extrema_pick. }
  split; [exact Hgen|]. split.
  - intros self Hne Hpos.
    destruct (Hgen self) as (_ & _ & Hm & _ & HM).
    assert (Hs : exists a l, spacings self = a :: l).
    { unfold spacings. destruct (data self); [done|]. simpl. eauto. }
    destruct Hs as (a & l & Hs). rewrite Hs in Hpos, Hm, HM.
    apply Forall_cons in Hpos as [[Ha1 Ha2] _].
    split.
    + destruct Hm as [Hm|[_ Hm]]; [by rewrite Hs|].
      apply Forall_cons in Hm as [Hm _]. congruence.
    + destruct HM as [HM|[_ HM]]; [by rewrite Hs|].
      apply Forall_cons in HM as [HM _]. congruence.
  - intros self H. unfold resolution_range, resolution_extrema. rewrite H.
    vm_compute. reflexivity.
Qed.

(** C3 at [example_two_shells]: the spacings are [1] and [4], positive and
    finite; the least and the greatest are found among them. *)
Lemma resolution_range_extrema_witness :
  (resolution_extrema example_two_shells).1 ∈ spacings example_two_shells /\
  (resolution_extrema example_two_shells).2 ∈ spacings example_two_shells.
Proof.
  apply (proj1 (proj2 resolution_range_extrema) example_two_shells).
  - discriminate.
  - repeat constructor.
Defined.

(** C3 fails as stated: with the spacings [1] and [4] the code returns
    [(1 / sqrt 1, 1 / sqrt 4) = (1, 0.5)], the low-resolution limit first,
    and not [(1 / sqrt 4, 1 / sqrt 1)]. *)
Lemma resolution_range_low_first :
  spacings example_two_shells = [1; 4]%float /\
  resolution_range example_two_shells = (1, 0.5)%float /\
  resolution_range example_two_shells <> ((1 / sqrt 4)%float, (1 / sqrt 1)%float).
Proof.
  split; [vm_compute; reflexivity|]. split; [vm_compute; reflexivity|].
  intros H.
  apply (f_equal (fun p => PrimFloat.Leibniz.eqb p.1 0.5)) in H.
  vm_compute in H. discriminate H.
Qed.

(** ** The asymmetric unit and the absences *)

Lemma parity_sign_even (c : Z) : parity_sign c = if Z.even c then -1 else 1.
Proof.
  unfold parity_sign.
  destruct (Z.eqb_spec (Z.rem c 2) 0) as [E|E].
  - apply Z.rem_divide in E; [|done]. destruct E as [m ->].
    by rewrite Z.even_mul, orb_true_r.
  - destruct (Z.even c) eqn:Hc; [|done]. exfalso. apply E.
    apply Z.rem_divide; [done|]. apply Z.even_spec in Hc as [m ->].
    exists m. lia.
Qed.

Lemma P1_to_asu_is_in (m : Miller) :
  is_in (asu_of P1) (to_asu (asu_of P1) m (operations P1)).1 = true.
Proof.
  simpl. destruct (P1_is_in m) eqn:E; [done|]. simpl.
  destruct m as [h k l]. unfold P1_is_in in *; simpl in *.
  repeat match goal with
  | H : context [?x <? ?y] |- _ => destruct (Z.ltb_spec x y)
  | H : context [?x <=? ?y] |- _ => destruct (Z.leb_spec x y)
  | H : context [?x =? ?y] |- _ => destruct (Z.eqb_spec x y)
  end; simpl in *; try discriminate;
  repeat match goal with
  | |- context [?x <? ?y] => destruct (Z.ltb_spec x y)
  | |- context [?x <=? ?y] => destruct (Z.leb_spec x y)
  | |- context [?x =? ?y] => destruct (Z.eqb_spec x y)
  end; simpl; try reflexivity; lia.
Qed.

(** C8.  For a set with a space group whose oracle maps every index into
    the asymmetric unit, [switch_to_asu_indices] returns, and afterwards
    every index lies in the asymmetric unit.  An observation whose index
    was inside is unchanged.  An observation whose index was outside gets
    the index that the oracle returns and keeps its value and sigma; when
    [merged] is false its sign is [Minus] for an even and [Plus] for an odd
    operation identifier, and when [merged] is true its sign is kept. *)
Theorem switch_to_asu_indices_reduces (merged : bool) (self : Intensities) (sg : SpaceGroup) :
  spacegroup self = Some sg ->
  (forall m : Miller, is_in (asu_of sg) (to_asu (asu_of sg) m (operations sg)).1 = true) ->
  exists self' : Intensities,
    switch_to_asu_indices merged self = Ok self' /\
    Forall (fun r => is_in (asu_of sg) (hkl r) = true) (data self') /\
    Forall2 (fun r r' =>
               (is_in (asu_of sg) (hkl r) = true -> r' = r) /\
               (is_in (asu_of sg) (hkl r) = false ->
                let hkl_isym := to_asu (asu_of sg) (hkl r) (operations sg) in
                hkl r' = hkl_isym.1 /\ value r' = value r /\ sigma r' = sigma r /\
                (merged = false ->
                 (Z.even hkl_isym.2 = true -> isign r' = isign_of_tag Minus) /\
                 (Z.even hkl_isym.2 = false -> isign r' = isign_of_tag Plus)) /\
                (merged = true -> isign r' = isign r)))
            (data self) (data self').
Proof.
  intros Hsg Hin. unfold switch_to_asu_indices. rewrite Hsg.
  eexists. split; [reflexivity|]. simpl. split.
  - apply Forall_fmap, Forall_forall. intros r _. simpl. unfold switch_refl.
    destruct (is_in (asu_of sg) (hkl r)) eqn:E; [done|].
    destruct merged; simpl; apply Hin.
  - apply Forall2_fmap_r, Forall2_same_length_lookup_2; [done|].
    intros i r r' Hr Hr'. rewrite Hr in Hr'. injection Hr' as <-.
    split; intros E; unfold switch_refl; rewrite E; [done|].
    destruct merged; simpl; repeat split; try done;
      rewrite parity_sign_even; by intros ->.
Qed.

(** C8 at [example_unreduced] in P1, with signs. *)
Lemma switch_to_asu_indices_reduces_witness :
  exists self' : Intensities,
    switch_to_asu_indices false example_unreduced = Ok self' /\
    Forall (fun r => is_in (asu_of P1) (hkl r) = true) (data self').
Proof.
  destruct (switch_to_asu_indices_reduces false example_unreduced P1 eq_refl P1_to_asu_is_in)
    as (self' & H1 & H2 & _).
  exists self'. by split.
Defined.

(** C10.  On a set without a space group [remove_systematic_absences]
    returns at once: the set is unchanged and no error is raised. *)
Theorem remove_systematic_absences_without_spacegroup (self : Intensities) :
  spacegroup self = None -> remove_systematic_absences self = self.
Proof. intros H. unfold remove_systematic_absences. by rewrite H. Qed.

(** C10 at [example_no_spacegroup]. *)
Lemma remove_systematic_absences_without_spacegroup_witness :
  remove_systematic_absences example_no_spacegroup = example_no_spacegroup.
Proof.
  exact (remove_systematic_absences_without_spacegroup example_no_spacegroup eq_refl).
Defined.

(** ** The unmerged binary table *)

Lemma row_count_0_any (stride : nat) : row_count 0 stride = 0%nat.
Proof.
  destruct stride as [|n]; [done|]. apply row_count_0. lia.
Qed.

Lemma mtz_rows_loop_zero_stride (mtz : Mtz) (f : nat -> outcome Refl) :
  length (columns mtz) = 0%nat ->
  forall (fuel i : nat) (d d' : list Refl),
    (i < length (mtz_data mtz))%nat ->
    mtz_rows_loop fuel mtz (fun i d => refl ← f i; mret (add_if_valid refl d)) i d <> Ok d'.
Proof.
  intros Hz. induction fuel as [|fuel IH]; intros i d d' Hi; simpl;
    rewrite (proj2 (Nat.leb_gt _ _)) by done; [done|].
  destruct (f i) as [row| | |]; simpl; try done.
  rewrite Hz, Nat.add_0_r. by apply IH.
Qed.

(** When the loop over the rows returns, it has read a row at each of the
    offsets [i], [i + stride], ... below the size and has appended the valid
    ones. *)
Lemma mtz_rows_loop_rows (mtz : Mtz) (f : nat -> outcome Refl) :
  forall (fuel i : nat) (d d' : list Refl),
    mtz_rows_loop fuel mtz (fun i d => refl ← f i; mret (add_if_valid refl d)) i d = Ok d' ->
    exists rows : list Refl,
      Forall2 (fun o row => f o = Ok row)
              ((fun j => (i + j * length (columns mtz))%nat)
                 <$> seq 0 (row_count (length (mtz_data mtz) - i) (length (columns mtz))))
              rows /\
      d' = d ++ List.filter is_valid rows.
Proof.
  destruct (decide (length (columns mtz) = 0%nat)) as [Hz|Hnz].
  { intros fuel i d d' H.
    destruct (Nat.le_gt_cases (length (mtz_data mtz)) i) as [Hle|Hlt].
    - exists []. replace (length (mtz_data mtz) - i)%nat with 0%nat by lia.
      rewrite row_count_0_any. split; [constructor|].
      destruct fuel; simpl in H; rewrite (proj2 (Nat.leb_le _ _)) in H by done;
        injection H as <-; by rewrite app_nil_r.
    - by apply mtz_rows_loop_zero_stride in H. }
  induction fuel as [|fuel IH]; intros i d d' H; simpl in H;
    destruct (Nat.leb_spec (length (mtz_data mtz)) i) as [Hle|Hlt]; try done.
  - exists []. replace (length (mtz_data mtz) - i)%nat with 0%nat by lia.
    rewrite row_count_0_any. split; [constructor|].
    injection H as <-. by rewrite app_nil_r.
  - exists []. replace (length (mtz_data mtz) - i)%nat with 0%nat by lia.
    rewrite row_count_0_any. split; [constructor|].
    injection H as <-. by rewrite app_nil_r.
  - destruct (f i) as [row| | |] eqn:Hrow; simpl in H; try done.
    apply IH in H as (rows & Hrows & ->).
    exists (row :: rows). split.
    + rewrite row_count_S by lia. cbn [seq fmap list_fmap].
      constructor; [by rewrite Nat.add_0_r|].
      rewrite <- fmap_S_seq, <- list_fmap_compose.
      replace (length (mtz_data mtz) - i - length (columns mtz))%nat
        with (length (mtz_data mtz) - (i + length (columns mtz)))%nat by lia.
      erewrite list_fmap_ext; [exact Hrows|]. intros ? j _. simpl. lia.
    + unfold add_if_valid. simpl. destruct (is_valid row); [|done].
      by rewrite <- app_assoc.
Qed.

(** A row that is read carries the sign of the parity of its packed code. *)
Lemma unmerged_mtz_row_sign (mtz : Mtz) (value_idx sigma_idx i : nat) (row : Refl) :
  unmerged_mtz_row mtz value_idx sigma_idx i = Ok row ->
  exists (x : float) (code : Z),
    at_index (mtz_data mtz) (i + 3)%nat = Ok x /\
    float_to_int x = Ok code /\
    isign row = parity_sign code.
Proof.
  unfold unmerged_mtz_row. intros H.
  destruct (mtz_get_hkl mtz i) as [m| | |]; simpl in H; try done.
  destruct (at_index (mtz_data mtz) (i + 3)) as [x| | |] eqn:Hx; simpl in H; try done.
  destruct (float_to_int x) as [c| | |] eqn:Hc; simpl in H; try done.
  destruct (at_index (mtz_data mtz) (i + value_idx)) as [v| | |]; simpl in H; try done.
  destruct (at_index (mtz_data mtz) (i + sigma_idx)) as [sg| | |]; simpl in H; try done.
  injection H as <-. by exists x, c.
Qed.

(** C6, as the code has it.  Reading an unmerged table fails with
    "expected unmerged file" when the table has no batch records, and with
    "unmerged file should have M/ISYM as 4th column" when no column with the
    label M/ISYM has the position 3.  When the reader returns, the table has
    batch records and M/ISYM is its 4th column; every row was read with the
    sign [Minus] for an even and [Plus] for an odd packed code; and the set
    holds the valid rows after the reduction to the asymmetric unit, which
    keeps a row whose index lies inside and gives a row whose index lies
    outside the index and the sign of the parity of the operation that the
    oracle returns. *)
Theorem read_unmerged_intensities_from_mtz_schema :
  (forall mtz : Mtz,
     batches mtz = [] ->
     read_unmerged_intensities_from_mtz mtz = Fail "expected unmerged file") /\
  (forall mtz : Mtz,
     batches mtz <> [] ->
     (forall c, column_with_label mtz "M/ISYM" = Some c -> idx c <> 3%nat) ->
     read_unmerged_intensities_from_mtz mtz
     = Fail "unmerged file should have M/ISYM as 4th column") /\
  (forall (mtz : Mtz) (self : Intensities),
     read_unmerged_intensities_from_mtz mtz = Ok self ->
     batches mtz <> [] /\
     (exists c, column_with_label mtz "M/ISYM" = Some c /\ idx c = 3%nat) /\
     exists (sg : SpaceGroup) (col sigma_col : Column) (rows : list Refl),
       spacegroup self = Some sg /\
       get_column_with_label mtz "I" = Ok col /\
       get_column_with_label mtz "SIGI" = Ok sigma_col /\
       Forall2 (fun o row =>
                  unmerged_mtz_row mtz (idx col) (idx sigma_col) o = Ok row /\
                  exists (x : float) (code : Z),
                    at_index (mtz_data mtz) (o + 3)%nat = Ok x /\
                    float_to_int x = Ok code /\
                    (Z.even code = true -> isign row = isign_of_tag Minus) /\
                    (Z.even code = false -> isign row = isign_of_tag Plus))
               (row_offsets (length (mtz_data mtz)) (length (columns mtz))) rows /\
       Forall2 (fun row obs =>
                  (is_in (asu_of sg) (hkl row) = true -> obs = row) /\
                  (is_in (asu_of sg) (hkl row) = false ->
                   let hkl_isym := to_asu (asu_of sg) (hkl row) (operations sg) in
                   hkl obs = hkl_isym.1 /\
                   (Z.even hkl_isym.2 = true -> isign obs = isign_of_tag Minus) /\
                   (Z.even hkl_isym.2 = false -> isign obs = isign_of_tag Plus)))
               (List.filter is_valid rows) (data self)).
Proof.
  split; [|split].
  - intros mtz H. unfold read_unmerged_intensities_from_mtz.
    by rewrite bool_decide_eq_true_2.
  - intros mtz Hb Hc. unfold read_unmerged_intensities_from_mtz.
    rewrite bool_decide_eq_false_2 by done.
    destruct (column_with_label mtz "M/ISYM") as [c|] eqn:E; [|done].
    specialize (Hc c eq_refl).
    by rewrite (proj2 (Nat.eqb_neq _ _) Hc).
  - intros mtz self. unfold read_unmerged_intensities_from_mtz.
    destruct (decide (batches mtz = [])) as [Hb|Hb];
      [by rewrite bool_decide_eq_true_2|rewrite bool_decide_eq_false_2 by done].
    destruct (column_with_label mtz "M/ISYM") as [c|] eqn:E; [|done].
    destruct (Nat.eqb_spec (idx c) 3) as [Hc|Hc]; simpl; [|done].
    destruct (get_column_with_label mtz "I") as [col| | |] eqn:Hcol; simpl; try done.
    destruct (get_column_with_label mtz "SIGI") as [sigma_col| | |] eqn:Hsig;
      simpl; try done.
    destruct (mtz_spacegroup mtz) as [sg|] eqn:Hsg; [|done].
    destruct (dataset mtz (dataset_id col)) as [ds| | |]; simpl; try done.
    destruct (mtz_rows_loop _ _ _ _ _) as [d| | |] eqn:Hloop; simpl; try done.
    unfold switch_to_asu_indices. simpl. intros [= <-]. simpl.
    split; [done|]. split; [by exists c|].
    apply (mtz_rows_loop_rows mtz (unmerged_mtz_row mtz (idx col) (idx sigma_col)))
      in Hloop as (rows & Hrows & ->).
    exists sg, col, sigma_col, rows. repeat split; try done.
    + rewrite Nat.sub_0_r in Hrows. unfold row_offsets.
      eapply Forall2_impl; [exact Hrows|]. simpl. intros o row Hrow.
      split; [done|].
      destruct (unmerged_mtz_row_sign _ _ _ _ _ Hrow) as (x & code & Hx & Hcode & Hs).
      exists x, code. rewrite Hs, parity_sign_even.
      repeat split; try done; by intros ->.
    + rewrite app_nil_l.
      apply Forall2_fmap_r, Forall2_same_length_lookup_2; [done|].
      intros i r r' Hr Hr'. rewrite Hr in Hr'. injection Hr' as <-.
      split; intros Hin; unfold switch_refl; rewrite Hin; [done|].
      simpl. rewrite parity_sign_even. repeat split; by intros ->.
Qed.

(** C6 at [example_mtz]: the reader returns, the table has a batch record
    and M/ISYM is its 4th column. *)
Lemma read_unmerged_intensities_from_mtz_schema_witness :
  read_unmerged_intensities_from_mtz example_mtz = Ok example_mtz_result /\
  batches example_mtz <> [] /\
  (exists c, column_with_label example_mtz "M/ISYM" = Some c /\ idx c = 3%nat).
Proof.
  assert (H : read_unmerged_intensities_from_mtz example_mtz = Ok example_mtz_result)
    by reflexivity.
  destruct (proj2 (proj2 read_unmerged_intensities_from_mtz_schema) example_mtz _ H)
    as (H1 & H2 & _).
  by repeat split.
Defined.

(** C6 fails as stated: the second row of [example_mtz] has the odd packed
    code [1], and its index [0 0 -1] lies outside the asymmetric unit; the
    reduction that the reader runs replaces the index by [0 0 1] under the
    operation [2], so the observation is returned with the sign [Minus]. *)
Lemma read_unmerged_intensities_from_mtz_sign_replaced :
  read_unmerged_intensities_from_mtz example_mtz = Ok example_mtz_result /\
  (x ← at_index (mtz_data example_mtz) (7 + 3)%nat; float_to_int x) = Ok 1 /\
  Z.odd 1 = true /\
  data example_mtz_result !! 1%nat = Some (mkRefl (mkMiller 0 0 1) (isign_of_tag Minus) 5 1).
Proof. repeat split. Qed.

(** ** Sources without a space group *)

Lemma copy_metadata_unknown_space_group {S : Type} `{Source S} (source : S)
    (self : Intensities) :
  source_spacegroup source = None ->
  copy_metadata source self = Fail "unknown space group".
Proof. intros E. unfold copy_metadata. simpl. by rewrite E. Qed.

(** The readers of the binary table fail when the space group is unknown. *)
Lemma mtz_readers_unknown_space_group (mtz : Mtz) :
  mtz_spacegroup mtz = None ->
  (exists msg, read_unmerged_intensities_from_mtz mtz = Fail msg) /\
  (exists msg, read_mean_intensities_from_mtz mtz = Fail msg) /\
  (exists msg, read_anomalous_intensities_from_mtz mtz = Fail msg).
Proof.
  intros E. split; [|split].
  - unfold read_unmerged_intensities_from_mtz, get_column_with_label.
    destruct (bool_decide _); [by eexists|].
    destruct (column_with_label mtz "M/ISYM"); [|by eexists].
    destruct (negb _); [by eexists|].
    destruct (column_with_label mtz "I"); simpl; [|by eexists].
    destruct (column_with_label mtz "SIGI"); simpl; [|by eexists].
    rewrite E. by eexists.
  - unfold read_mean_intensities_from_mtz, get_column_with_label.
    destruct (negb _); [by eexists|].
    destruct (column_with_one_of_labels _ _); [|by eexists].
    destruct (column_with_label mtz _); simpl; [|by eexists].
    rewrite copy_metadata_unknown_space_group by done. by eexists.
  - unfold read_anomalous_intensities_from_mtz, get_column_with_label.
    destruct (negb _); [by eexists|].
    destruct (column_with_label mtz "I(+)"); simpl; [|by eexists].
    destruct (column_with_label mtz "I(-)"); simpl; [|by eexists].
    destruct (column_with_label mtz "SIGI(+)"); simpl; [|by eexists].
    destruct (column_with_label mtz "SIGI(-)"); simpl; [|by eexists].
    rewrite copy_metadata_unknown_space_group by done. by eexists.
Qed.

(** The readers of the structured document do not return when the space
    group is unknown; they fail with "unknown space group" once their
    columns are resolved. *)
Lemma mmcif_readers_unknown_space_group (rb : ReflnBlock) :
  rb_spacegroup rb = None ->
  (forall self, read_unmerged_intensities_from_mmcif rb <> Ok self) /\
  (forall self, read_mean_intensities_from_mmcif rb <> Ok self) /\
  (forall self, read_anomalous_intensities_from_mmcif rb <> Ok self) /\
  ((forall tag, exists i, get_column_index rb tag = Ok i) ->
   read_unmerged_intensities_from_mmcif rb = Fail "unknown space group" /\
   read_mean_intensities_from_mmcif rb = Fail "unknown space group" /\
   read_anomalous_intensities_from_mmcif rb = Fail "unknown space group").
Proof.
  intros E.
  pose proof (fun self => copy_metadata_unknown_space_group rb self E) as Hc.
  repeat split.
  - intros self. unfold read_unmerged_intensities_from_mmcif.
    destruct (get_column_index rb "intensity_net"); simpl; try done.
    destruct (get_column_index rb "intensity_sigma"); simpl; try done.
    by rewrite Hc.
  - intros self. unfold read_mean_intensities_from_mmcif.
    destruct (get_column_index rb "intensity_meas"); simpl; try done.
    destruct (get_column_index rb "intensity_sigma"); simpl; try done.
    by rewrite Hc.
  - intros self. unfold read_anomalous_intensities_from_mmcif.
    destruct (get_column_index rb "pdbx_I_plus"); simpl; try done.
    destruct (get_column_index rb "pdbx_I_minus"); simpl; try done.
    destruct (get_column_index rb "pdbx_I_plus_sigma"); simpl; try done.
    destruct (get_column_index rb "pdbx_I_minus_sigma"); simpl; try done.
    by rewrite Hc.
  - unfold read_unmerged_intensities_from_mmcif.
    destruct (H "intensity_net") as [? ->], (H "intensity_sigma") as [? ->]. simpl.
    by rewrite Hc.
  - unfold read_mean_intensities_from_mmcif.
    destruct (H "intensity_meas") as [? ->], (H "intensity_sigma") as [? ->]. simpl.
    by rewrite Hc.
  - unfold read_anomalous_intensities_from_mmcif.
    destruct (H "pdbx_I_plus") as [? ->], (H "pdbx_I_minus") as [? ->],
      (H "pdbx_I_plus_sigma") as [? ->], (H "pdbx_I_minus_sigma") as [? ->]. simpl.
    by rewrite Hc.
Qed.

(** The reader of the ASCII reflection list has no such check: with a number
    that the lookup table does not know it keeps the null pointer, and
    [switch_to_asu_indices] dereferences it. *)
Lemma xds_reader_unknown_space_group (table : Z -> option SpaceGroup) (xds : XdsAscii) :
  table (spacegroup_number xds) = None ->
  read_unmerged_intensities_from_xds table xds = Undefined.
Proof.
  intros E. unfold read_unmerged_intensities_from_xds, switch_to_asu_indices. simpl.
  by rewrite E.
Qed.

(** C7 at [example_xds]: the lookup table does not know the number [0]; the
    reader does not fail with an error, it runs into the null pointer. *)
Theorem read_unmerged_intensities_from_xds_unknown_space_group :
  example_table (spacegroup_number example_xds) = None /\
  read_unmerged_intensities_from_xds example_table example_xds = Undefined /\
  (forall msg, read_unmerged_intensities_from_xds example_table example_xds <> Fail msg).
Proof. repeat split. intros msg H. discriminate H. Qed.

(** * Further properties *)

(** ** What the merger keeps *)

Lemma runs_length (s : list Refl) : (length (runs s) <= length s)%nat.
Proof.
  pose proof (runs_uniform s) as Hu.
  rewrite <- (runs_concat s) at 2.
  induction Hu as [|r rs [Hr _] _ IH]; simpl; [done|].
  rewrite length_app. destruct r; [done|]. simpl. lia.
Qed.

Lemma merge_data_key_elem (b : bool) (d : list Refl) (key : Miller * Z) :
  key ∈ Refl_key <$> merge_data b d <-> key ∈ Refl_key <$> prepare b d.
Proof.
  rewrite merge_data_runs, <- list_fmap_compose.
  change (Refl_key ∘ merged_observation) with run_key.
  rewrite elem_of_run_keys. by rewrite sort_perm.
Qed.

Lemma merge_data_blind_isign (d : list Refl) :
  Forall (fun x => isign x = 0) (merge_data false d).
Proof.
  apply Forall_forall. intros x Hx.
  apply merge_data_keys, list_elem_of_fmap in Hx as (y & Hy & Hin).
  unfold prepare, discard_signs in Hin.
  apply list_elem_of_fmap in Hin as (z & -> & _).
  unfold Refl_key in Hy. simpl in Hy. by injection Hy as _ ->.
Qed.

(** X1.  The merger loses no key and invents none: the keys after
    [merge_in_place] are the keys of the observations before (with the signs
    discarded when they are).  It never makes the set longer, and a set that
    is not empty stays so. *)
Theorem merge_in_place_keeps_keys (b : bool) (self : Intensities) :
  (forall key : Miller * Z,
     key ∈ Refl_key <$> data (merge_in_place b self)
     <-> key ∈ Refl_key <$> prepare b (data self)) /\
  (length (data (merge_in_place b self)) <= length (data self))%nat /\
  (data (merge_in_place b self) = [] <-> data self = []).
Proof.
  unfold merge_in_place; simpl. split; [|split].
  - intros key. apply merge_data_key_elem.
  - rewrite merge_data_runs, length_fmap.
    etrans; [apply runs_length|].
    rewrite sort_perm. destruct b; simpl; [done|].
    unfold discard_signs. by rewrite length_fmap.
  - split; [|by intros ->].
    intros H. destruct (data self) as [|x d] eqn:E; [done|].
    assert (Hx : Refl_key (if b then x else set_isign 0 x)
                 ∈ Refl_key <$> merge_data b (x :: d)).
    { apply merge_data_key_elem. apply list_elem_of_fmap_2.
      destruct b; simpl; apply list_elem_of_here. }
    rewrite H in Hx. by apply elem_of_nil in Hx.
Qed.

(** X2.  After [merge_in_place] without signs every observation has
    [isign = 0], so [have_sign] answers no. *)
Theorem merge_in_place_blind_no_sign (self : Intensities) :
  Forall (fun x => isign x = 0) (data (merge_in_place false self)) /\
  have_sign (merge_in_place false self) = false.
Proof.
  pose proof (merge_data_blind_isign (data self)) as H.
  split; [exact H|].
  unfold have_sign, merge_in_place; simpl.
  destruct (merge_data false (data self)) as [|x d]; [done|].
  apply Forall_cons in H as [-> _]. done.
Qed.

(** X3.  Merging without signs never gives more observations than merging
    with signs: the two sides of a pair fall into one observation. *)
Theorem merge_in_place_blind_shorter (self : Intensities) :
  (length (data (merge_in_place false self))
   <= length (data (merge_in_place true self)))%nat.
Proof.
  unfold merge_in_place; simpl.
  set (g := fun key : Miller * Z => (key.1, 0)).
  rewrite <- (length_fmap Refl_key (merge_data false _)).
  rewrite <- (length_fmap Refl_key (merge_data true _)).
  rewrite <- (length_fmap g (Refl_key <$> merge_data true _)).
  apply submseteq_length, NoDup_submseteq.
  - apply ascending_NoDup, merge_data_ascending.
  - intros key Hkey. apply merge_data_key_elem in Hkey.
    unfold prepare, discard_signs in Hkey.
    apply list_elem_of_fmap in Hkey as (y & -> & Hy).
    apply list_elem_of_fmap in Hy as (x & -> & Hx).
    apply list_elem_of_fmap. exists (Refl_key x). split; [done|].
    apply merge_data_key_elem. simpl. by apply list_elem_of_fmap_2.
Qed.

(** ** Sorting *)






(** ** Filtering by the index *)



Section FilterByIndex.
(** A condition on the index of an observation, such as being absent. *)
Variable keep : Miller -> bool.

Let p (x : Refl) : bool := keep (hkl x).






End FilterByIndex.




Lemma Forall_filter_bool {A : Type} (P : A -> Prop) (f : A -> bool) (l : list A) :
  Forall P l -> Forall P (List.filter f l).
Proof. induction 1 as [|x l Hx _ IH]; simpl; [done|]. destruct (f x); by try constructor. Qed.




(** ** The absences *)

(** X5.  With a space group, [remove_systematic_absences] keeps the
    observations whose index is not absent, in their order, and drops the
    others: afterwards no index is absent, an observation that was not
    absent is still there, the space group, the cell and the wavelength are
    as before, and a second call changes nothing. *)
Theorem remove_systematic_absences_result (self : Intensities) (sg : SpaceGroup) :
  spacegroup self = Some sg ->
  let after := remove_systematic_absences self in
  Forall (fun x => absent (operations sg) x = false) (data after) /\
  data after `sublist_of` data self /\
  (forall x, x ∈ data self -> absent (operations sg) x = false -> x ∈ data after) /\
  spacegroup after = spacegroup self /\
  unit_cell after = unit_cell self /\
  wavelength after = wavelength self /\
  remove_systematic_absences after = after.
Proof.
  intros Hsg after. subst after. unfold remove_systematic_absences. rewrite Hsg. simpl.
  rewrite Hsg. unfold vector_remove_if, absent.
  set (f := fun x => negb (is_systematically_absent (operations sg) (hkl x))).
  repeat split; try done.
  - apply Forall_forall. intros x Hx.
    apply list_elem_of_In, filter_In in Hx as [_ Hx]. by apply negb_true_iff.
  - induction (data self) as [|x d IH]; simpl; [done|].
    destruct (f x); [by apply sublist_skip|by apply sublist_cons].
  - intros x Hx Ha. apply list_elem_of_In, filter_In. split; [by apply list_elem_of_In|].
    unfold f. by rewrite Ha.
  - unfold set_data; simpl. f_equal.
    induction (data self) as [|x d IH]; simpl; [done|].
    destruct (f x) eqn:E; simpl; [by rewrite E, IH|done].
Qed.

(** X5 at [example_with_absences]: [0 0 1] and [1 1 1] are dropped. *)
Lemma remove_systematic_absences_result_witness :
  data (remove_systematic_absences example_with_absences)
  = [mkRefl (mkMiller 1 2 3) 0 10 1; mkRefl (mkMiller 1 2 3) 0 12 1] /\
  Forall (fun x => absent (operations example_centred) x = false)
         (data (remove_systematic_absences example_with_absences)).
Proof.
  split; [reflexivity|].
  exact (proj1 (remove_systematic_absences_result example_with_absences example_centred
                  eq_refl)).
Defined.


(** ** The reduction to the asymmetric unit *)

Lemma switch_refl_inside (asu : ReciprocalAsu) (gops : GroupOps) (merged : bool) (r : Refl) :
  is_in asu (hkl r) = true -> switch_refl asu gops merged r = r.
Proof. intros H. unfold switch_refl. by rewrite H. Qed.

Lemma switch_refl_value_sigma (asu : ReciprocalAsu) (gops : GroupOps) (merged : bool)
    (r : Refl) :
  value (switch_refl asu gops merged r) = value r /\
  sigma (switch_refl asu gops merged r) = sigma r.
Proof. unfold switch_refl. by destruct (is_in asu (hkl r)), merged. Qed.

(** X7.  For a set with a space group whose oracle maps every index into
    the asymmetric unit, [switch_to_asu_indices] keeps the number, the order,
    the values and the sigmas of the observations and the other members of
    the set; with [merged] it keeps the signs too; and a second call, in
    either mode, changes nothing. *)
Theorem switch_to_asu_indices_idempotent (merged : bool) (self : Intensities)
    (sg : SpaceGroup) :
  spacegroup self = Some sg ->
  (forall m : Miller, is_in (asu_of sg) (to_asu (asu_of sg) m (operations sg)).1 = true) ->
  exists once : Intensities,
    switch_to_asu_indices merged self = Ok once /\
    (forall merged' : bool, switch_to_asu_indices merged' once = Ok once) /\
    value <$> data once = value <$> data self /\
    sigma <$> data once = sigma <$> data self /\
    (merged = true -> isign <$> data once = isign <$> data self) /\
    spacegroup once = spacegroup self /\
    unit_cell once = unit_cell self /\
    wavelength once = wavelength self.
Proof.
  intros Hsg Hin. unfold switch_to_asu_indices. rewrite Hsg.
  eexists. split; [reflexivity|]. simpl. rewrite Hsg.
  repeat split.
  - intros merged'. unfold set_data; simpl. do 2 f_equal.
    rewrite <- list_fmap_compose.
    apply list_fmap_ext. intros i r _. simpl.
    apply switch_refl_inside. unfold switch_refl.
    destruct (is_in (asu_of sg) (hkl r)) eqn:E; [done|].
    destruct merged; simpl; apply Hin.
  - rewrite <- list_fmap_compose. apply list_fmap_ext. intros i r _. simpl.
    apply switch_refl_value_sigma.
  - rewrite <- list_fmap_compose. apply list_fmap_ext. intros i r _. simpl.
    apply switch_refl_value_sigma.
  - intros ->. rewrite <- list_fmap_compose. apply list_fmap_ext. intros i r _. simpl.
    unfold switch_refl. by destruct (is_in (asu_of sg) (hkl r)).
Qed.

(** X7 at [example_unreduced] in P1. *)
Lemma switch_to_asu_indices_idempotent_witness :
  exists once : Intensities,
    switch_to_asu_indices false example_unreduced = Ok once /\
    switch_to_asu_indices false once = Ok once.
Proof.
  destruct (switch_to_asu_indices_idempotent false example_unreduced P1 eq_refl
              P1_to_asu_is_in) as (once & H1 & H2 & _).
  exists once. split; [exact H1|exact (H2 false)].
Defined.

(** ** The loops over the rows *)

Lemma add_if_valid_app (refl : Refl) (d : list Refl) :
  add_if_valid refl d = d ++ valid_part refl.
Proof. unfold add_if_valid, valid_part. destruct (is_valid refl); [done|by rewrite app_nil_r]. Qed.

Section RowsLoop.
(** A loop over the rows of a proxy whose body appends, at the offset [i],
    the observations [rows_at i], or fails as [rows_at i] does. *)
Variable proxy : DataProxy.
Variable body : nat -> list Refl -> outcome (list Refl).
Variable rows_at : nat -> outcome (list Refl).
Hypothesis body_appends :
  forall (i : nat) (d : list Refl), body i d = (new ← rows_at i; mret (d ++ new)).

Lemma proxy_rows_loop_zero_stride :
  proxy_stride proxy = 0%nat ->
  forall (fuel i : nat) (d d' : list Refl),
    (i < proxy_size proxy)%nat ->
    proxy_rows_loop fuel proxy body i d <> Ok d'.
Proof.
  intros Hz. induction fuel as [|fuel IH]; intros i d d' Hi; simpl;
    rewrite (proj2 (Nat.leb_gt _ _)) by done; [done|].
  rewrite body_appends. destruct (rows_at i) as [new| | |]; simpl; try done.
  rewrite Hz, Nat.add_0_r. by apply IH.
Qed.

(** When the loop returns, its body has returned at each of the offsets
    [i], [i + stride], ... below the size, and what it appended is there,
    in this order. *)
Lemma proxy_rows_loop_returns :
  forall (fuel i : nat) (d d' : list Refl),
    proxy_rows_loop fuel proxy body i d = Ok d' ->
    exists news : list (list Refl),
      Forall2 (fun o new => rows_at o = Ok new)
              ((fun j => (i + j * proxy_stride proxy)%nat)
                 <$> seq 0 (row_count (proxy_size proxy - i) (proxy_stride proxy)))
              news /\
      d' = d ++ concat news.
Proof.
  destruct (decide (proxy_stride proxy = 0%nat)) as [Hz|Hnz].
  { intros fuel i d d' H.
    destruct (Nat.le_gt_cases (proxy_size proxy) i) as [Hle|Hlt].
    - exists []. replace (proxy_size proxy - i)%nat with 0%nat by lia.
      rewrite row_count_0_any. split; [constructor|].
      destruct fuel; simpl in H; rewrite (proj2 (Nat.leb_le _ _)) in H by done;
        injection H as <-; by rewrite app_nil_r.
    - by apply proxy_rows_loop_zero_stride in H. }
  induction fuel as [|fuel IH]; intros i d d' H; simpl in H;
    destruct (Nat.leb_spec (proxy_size proxy) i) as [Hle|Hlt]; try done.
  - exists []. replace (proxy_size proxy - i)%nat with 0%nat by lia.
    rewrite row_count_0_any. split; [constructor|].
    injection H as <-. by rewrite app_nil_r.
  - exists []. replace (proxy_size proxy - i)%nat with 0%nat by lia.
    rewrite row_count_0_any. split; [constructor|].
    injection H as <-. by rewrite app_nil_r.
  - rewrite body_appends in H.
    destruct (rows_at i) as [new| | |] eqn:Hnew; simpl in H; try done.
    apply IH in H as (news & Hnews & ->).
    exists (new :: news). split.
    + rewrite row_count_S by lia. cbn [seq fmap list_fmap].
      constructor; [by rewrite Nat.add_0_r|].
      rewrite <- fmap_S_seq, <- list_fmap_compose.
      replace (proxy_size proxy - i - proxy_stride proxy)%nat
        with (proxy_size proxy - (i + proxy_stride proxy))%nat by lia.
      erewrite list_fmap_ext; [exact Hnews|]. intros ? j _. simpl. lia.
    + simpl. by rewrite <- app_assoc.
Qed.

(** With a positive stride and the fuel of the readers the loop ends: it
    returns when its body returns at every offset. *)
Lemma proxy_rows_loop_ends :
  (0 < proxy_stride proxy)%nat ->
  forall (fuel i : nat) (d : list Refl) (news : list (list Refl)),
    (proxy_size proxy <= i + fuel * proxy_stride proxy)%nat ->
    Forall2 (fun o new => rows_at o = Ok new)
            ((fun j => (i + j * proxy_stride proxy)%nat)
               <$> seq 0 (row_count (proxy_size proxy - i) (proxy_stride proxy)))
            news ->
    proxy_rows_loop fuel proxy body i d = Ok (d ++ concat news).
Proof.
  intros Hs. induction fuel as [|fuel IH]; intros i d news Hf Hnews.
  - simpl in *. rewrite (proj2 (Nat.leb_le _ _)) by lia.
    replace (proxy_size proxy - i)%nat with 0%nat in Hnews by lia.
    rewrite row_count_0_any in Hnews. apply Forall2_nil_inv_l in Hnews as ->.
    by rewrite app_nil_r.
  - cbn [proxy_rows_loop].
    destruct (Nat.leb_spec (proxy_size proxy) i) as [Hle|Hlt].
    + replace (proxy_size proxy - i)%nat with 0%nat in Hnews by lia.
      rewrite row_count_0_any in Hnews. apply Forall2_nil_inv_l in Hnews as ->.
      by rewrite app_nil_r.
    + rewrite row_count_S in Hnews by lia.
      cbn [seq fmap list_fmap] in Hnews. rewrite Nat.add_0_r in Hnews.
      apply Forall2_cons_inv_l in Hnews as (new & news' & Hnew & Hnews & ->).
      rewrite body_appends, Hnew. cbn [mbind outcome_bind mret outcome_ret].
      rewrite (IH _ _ news').
      * simpl. by rewrite <- app_assoc.
      * lia.
      * replace (proxy_size proxy - (i + proxy_stride proxy))%nat
          with (proxy_size proxy - i - proxy_stride proxy)%nat by lia.
        rewrite <- fmap_S_seq in Hnews. rewrite <- list_fmap_compose in Hnews.
        erewrite list_fmap_ext; [exact Hnews|]. intros ? j _. simpl. lia.
Qed.

(** With a positive stride the fuel of the readers does not run out. *)
Lemma proxy_rows_loop_fuel :
  (0 < proxy_stride proxy)%nat ->
  (forall i : nat, rows_at i <> Diverges) ->
  forall (fuel i : nat) (d : list Refl),
    (proxy_size proxy <= i + fuel * proxy_stride proxy)%nat ->
    proxy_rows_loop fuel proxy body i d <> Diverges.
Proof.
  intros Hs Hr. induction fuel as [|fuel IH]; intros i d Hf; simpl.
  - by rewrite (proj2 (Nat.leb_le _ _)) by lia.
  - destruct (Nat.leb_spec (proxy_size proxy) i) as [Hle|Hlt]; [done|].
    rewrite body_appends. specialize (Hr i).
    destruct (rows_at i) as [new| | |]; simpl; try done.
    apply IH. lia.
Qed.
End RowsLoop.

Lemma mtz_rows_loop_proxy (mtz : Mtz) (body : nat -> list Refl -> outcome (list Refl)) :
  forall (fuel i : nat) (d : list Refl),
    mtz_rows_loop fuel mtz body i d = proxy_rows_loop fuel (MtzDataProxy mtz) body i d.
Proof.
  induction fuel as [|fuel IH]; intros i d; simpl; [done|].
  destruct (length (mtz_data mtz) <=? i)%nat; [done|].
  destruct (body i d); simpl; [apply IH|done..].
Qed.

Lemma read_data_loop_proxy (proxy : DataProxy) (value_idx sigma_idx : nat) :
  forall (fuel i : nat) (d : list Refl),
    read_data_loop fuel proxy value_idx sigma_idx i d
    = proxy_rows_loop fuel proxy
        (fun i d => refl ← read_row proxy value_idx sigma_idx i; mret (add_if_valid refl d))
        i d.
Proof.
  induction fuel as [|fuel IH]; intros i d; simpl; [done|].
  destruct (proxy_size proxy <=? i)%nat; [done|].
  destruct (read_row proxy value_idx sigma_idx i); simpl; [apply IH|done..].
Qed.

Lemma read_data_body_appends (proxy : DataProxy) (value_idx sigma_idx : nat)
    (i : nat) (d : list Refl) :
  (refl ← read_row proxy value_idx sigma_idx i; mret (add_if_valid refl d))
  = (new ← read_data_rows proxy value_idx sigma_idx i; mret (d ++ new)).
Proof.
  unfold read_data_rows. destruct (read_row proxy value_idx sigma_idx i); simpl; try done.
  by rewrite add_if_valid_app.
Qed.

Lemma unmerged_mtz_body_appends (mtz : Mtz) (value_idx sigma_idx : nat)
    (i : nat) (d : list Refl) :
  (refl ← unmerged_mtz_row mtz value_idx sigma_idx i; mret (add_if_valid refl d))
  = (new ← unmerged_mtz_rows mtz value_idx sigma_idx i; mret (d ++ new)).
Proof.
  unfold unmerged_mtz_rows. destruct (unmerged_mtz_row mtz value_idx sigma_idx i);
    simpl; try done.
  by rewrite add_if_valid_app.
Qed.

Lemma anomalous_pair_appends (get_hkl_at : nat -> outcome Miller)
    (get_num_at : nat -> outcome float) (value_idx sigma_idx : nat * nat)
    (i : nat) (d : list Refl) :
  anomalous_pair get_hkl_at get_num_at value_idx sigma_idx i d
  = (new ← anomalous_rows get_hkl_at get_num_at value_idx sigma_idx i; mret (d ++ new)).
Proof.
  unfold anomalous_pair, anomalous_rows.
  destruct (get_hkl_at i) as [m| | |]; simpl; try done.
  destruct (get_num_at (i + value_idx.1)%nat) as [v0| | |]; simpl; try done.
  destruct (get_num_at (i + sigma_idx.1)%nat) as [s0| | |]; simpl; try done.
  destruct (get_num_at (i + value_idx.2)%nat) as [v1| | |]; simpl; try done.
  destruct (get_num_at (i + sigma_idx.2)%nat) as [s1| | |]; simpl; try done.
  by rewrite !add_if_valid_app, <- app_assoc.
Qed.

Lemma valid_part_valid (refl : Refl) : Forall (fun x => is_valid x = true) (valid_part refl).
Proof. unfold valid_part. destruct (is_valid refl) eqn:E; by repeat constructor. Qed.

Lemma read_data_rows_valid (proxy : DataProxy) (value_idx sigma_idx i : nat)
    (new : list Refl) :
  read_data_rows proxy value_idx sigma_idx i = Ok new ->
  Forall (fun x => is_valid x = true /\ isign x = 0) new.
Proof.
  unfold read_data_rows, read_row. intros H.
  destruct (get_hkl proxy i); simpl in H; try done.
  destruct (get_num proxy (i + value_idx)%nat); simpl in H; try done.
  destruct (get_num proxy (i + sigma_idx)%nat); simpl in H; try done.
  injection H as <-. unfold valid_part.
  match goal with |- context [is_valid ?r] => destruct (is_valid r) eqn:E end;
    by repeat constructor.
Qed.

Lemma unmerged_mtz_rows_valid (mtz : Mtz) (value_idx sigma_idx i : nat) (new : list Refl) :
  unmerged_mtz_rows mtz value_idx sigma_idx i = Ok new ->
  Forall (fun x => is_valid x = true /\ (isign x = 1 \/ isign x = -1)) new.
Proof.
  unfold unmerged_mtz_rows, unmerged_mtz_row. intros H.
  destruct (mtz_get_hkl mtz i); simpl in H; try done.
  destruct (at_index (mtz_data mtz) (i + 3)); simpl in H; try done.
  destruct (float_to_int _) as [c| | |]; simpl in H; try done.
  destruct (at_index (mtz_data mtz) (i + value_idx)); simpl in H; try done.
  destruct (at_index (mtz_data mtz) (i + sigma_idx)); simpl in H; try done.
  injection H as <-. unfold valid_part.
  match goal with |- context [is_valid ?r] => destruct (is_valid r) eqn:E end;
    [|constructor].
  constructor; [|constructor]. split; [done|].
  simpl. unfold parity_sign. destruct (Z.rem c 2 =? 0); auto.
Qed.

Lemma anomalous_rows_valid (get_hkl_at : nat -> outcome Miller)
    (get_num_at : nat -> outcome float) (value_idx sigma_idx : nat * nat)
    (i : nat) (new : list Refl) :
  anomalous_rows get_hkl_at get_num_at value_idx sigma_idx i = Ok new ->
  Forall (fun x => is_valid x = true /\ (isign x = 1 \/ isign x = -1)) new /\
  (length new <= 2)%nat.
Proof.
  unfold anomalous_rows. intros H.
  destruct (get_hkl_at i) as [m| | |]; simpl in H; try done.
  destruct (get_num_at (i + value_idx.1)%nat) as [v0| | |]; simpl in H; try done.
  destruct (get_num_at (i + sigma_idx.1)%nat) as [s0| | |]; simpl in H; try done.
  destruct (get_num_at (i + value_idx.2)%nat) as [v1| | |]; simpl in H; try done.
  destruct (get_num_at (i + sigma_idx.2)%nat) as [s1| | |]; simpl in H; try done.
  injection H as <-. unfold valid_part.
  destruct (is_valid (mkRefl m 1 v0 s0)) eqn:E0, (is_valid (mkRefl m (-1) v1 s1)) eqn:E1;
    simpl; (split; [|lia]);
    repeat (apply Forall_cons; split; [split; [done|simpl; auto]|]); constructor.
Qed.

Lemma Forall_concat_Forall2 {A B : Type} (P : A -> Prop) (R : B -> list A -> Prop)
    (os : list B) (news : list (list A)) :
  (forall o new, R o new -> Forall P new) ->
  Forall2 R os news -> Forall P (concat news).
Proof.
  intros HR. induction 1 as [|o new os news Hnew _ IH]; simpl; [constructor|].
  apply Forall_app. split; [by eapply HR|done].
Qed.

Lemma rows_of_valid_parts (f : nat -> outcome Refl) (os : list nat) (news : list (list Refl)) :
  Forall2 (fun o new => (refl ← f o; mret (valid_part refl)) = Ok new) os news ->
  exists rows : list Refl,
    Forall2 (fun o row => f o = Ok row) os rows /\
    concat news = List.filter is_valid rows.
Proof.
  induction 1 as [|o new os news Hnew _ (rows & Hrows & Hc)]; [by exists []|].
  destruct (f o) as [row| | |] eqn:Ho; simpl in Hnew; try done.
  injection Hnew as <-. exists (row :: rows). split; [by constructor|].
  simpl. rewrite Hc. unfold valid_part. by destruct (is_valid row).
Qed.

Lemma Forall2_concat_length {A B : Type} (R : B -> list A -> Prop) (n : nat)
    (os : list B) (news : list (list A)) :
  (forall o new, R o new -> (length new <= n)%nat) ->
  Forall2 R os news -> (length (concat news) <= n * length os)%nat.
Proof.
  intros HR. induction 1 as [|o new os news Hnew _ IH]; simpl; [lia|].
  rewrite length_app. specialize (HR _ _ Hnew). lia.
Qed.

Lemma row_offsets_length (size stride : nat) :
  length (row_offsets size stride) = row_count size stride.
Proof. unfold row_offsets. by rewrite length_fmap, length_seq. Qed.

(** When [read_data] returns, it has read a row at every offset and has
    appended the valid rows. *)
Lemma read_data_returns (proxy : DataProxy) (value_idx sigma_idx : nat)
    (self self' : Intensities) :
  read_data proxy value_idx sigma_idx self = Ok self' ->
  exists rows : list Refl,
    Forall2 (fun o row => read_row proxy value_idx sigma_idx o = Ok row)
            (row_offsets (proxy_size proxy) (proxy_stride proxy)) rows /\
    self' = set_data (data self ++ List.filter is_valid rows) self.
Proof.
  unfold read_data. rewrite read_data_loop_proxy.
  destruct (proxy_rows_loop _ _ _ _ _) as [d| | |] eqn:Hloop; simpl; try done.
  intros [= <-].
  apply (proxy_rows_loop_returns proxy _ (read_data_rows proxy value_idx sigma_idx))
    in Hloop as (news & Hnews & ->); [|apply read_data_body_appends].
  rewrite Nat.sub_0_r in Hnews.
  apply rows_of_valid_parts in Hnews as (rows & Hrows & ->).
  by exists rows.
Qed.

(** ** [read_data] at the edges *)

(** X8.  [read_data] on a proxy without values returns the set as it is.
    With a zero stride and a proxy that is not empty its loop never moves
    on, so it does not return.  With a positive stride the loop ends: the
    call returns or fails as an accessor does.  When it returns, the set has
    grown at its end by at most one observation for each row, each of them
    valid and without sign, and nothing else has changed. *)
Theorem read_data_edges (proxy : DataProxy) (value_idx sigma_idx : nat)
    (self : Intensities) :
  (proxy_size proxy = 0%nat -> read_data proxy value_idx sigma_idx self = Ok self) /\
  (proxy_stride proxy = 0%nat -> (0 < proxy_size proxy)%nat ->
   forall self', read_data proxy value_idx sigma_idx self <> Ok self') /\
  ((0 < proxy_stride proxy)%nat ->
   (forall i, get_hkl proxy i <> Diverges) -> (forall i, get_num proxy i <> Diverges) ->
   read_data proxy value_idx sigma_idx self <> Diverges) /\
  (forall self',
     read_data proxy value_idx sigma_idx self = Ok self' ->
     exists new : list Refl,
       data self' = data self ++ new /\
       Forall (fun x => is_valid x = true /\ isign x = 0) new /\
       (length new <= row_count (proxy_size proxy) (proxy_stride proxy))%nat /\
       spacegroup self' = spacegroup self /\
       unit_cell self' = unit_cell self /\
       wavelength self' = wavelength self).
Proof.
  split; [|split; [|split]].
  - intros H. unfold read_data. rewrite H. simpl. rewrite H. simpl.
    unfold mret, outcome_ret. by rewrite set_data_id.
  - intros Hz Hs self'. unfold read_data. rewrite read_data_loop_proxy.
    destruct (proxy_rows_loop _ _ _ _ _) as [d| | |] eqn:Hloop; simpl; try done.
    by apply (proxy_rows_loop_zero_stride proxy _ _
                (read_data_body_appends proxy value_idx sigma_idx) Hz) in Hloop.
  - intros Hs Hh Hn. unfold read_data. rewrite read_data_loop_proxy.
    destruct (proxy_rows_loop _ _ _ _ _) as [d| | |] eqn:Hloop; simpl; try done.
    apply (proxy_rows_loop_fuel proxy _ _
             (read_data_body_appends proxy value_idx sigma_idx) Hs) in Hloop; [done| |nia].
    intros i. unfold read_data_rows, read_row.
    specialize (Hh i).
    pose proof (Hn (i + value_idx)%nat). pose proof (Hn (i + sigma_idx)%nat).
    destruct (get_hkl proxy i); simpl; try done.
    destruct (get_num proxy (i + value_idx)%nat); simpl; try done.
    destruct (get_num proxy (i + sigma_idx)%nat); simpl; done.
  - intros self' H. apply read_data_returns in H as (rows & Hrows & ->).
    exists (List.filter is_valid rows). repeat split; try done.
    + apply Forall_forall. intros x Hx.
      apply list_elem_of_In, filter_In in Hx as [Hx Hv]. split; [done|].
      apply list_elem_of_In, list_elem_of_lookup in Hx as [j Hj].
      destruct (Forall2_lookup_r _ _ _ _ _ Hrows Hj) as (o & _ & Ho).
      unfold read_row in Ho.
      destruct (get_hkl proxy o); simpl in Ho; try done.
      destruct (get_num proxy (o + value_idx)%nat); simpl in Ho; try done.
      destruct (get_num proxy (o + sigma_idx)%nat); simpl in Ho; try done.
      by injection Ho as <-.
    + rewrite <- row_offsets_length, (Forall2_length _ _ _ Hrows).
      pose proof (filter_valid_invalid_length rows). lia.
Qed.

(** X8 at [example_proxy]: the stride is [2], the accessors return, and the
    call does not run on for ever. *)
Lemma read_data_edges_witness :
  read_data example_proxy 0 1 Intensities_new <> Diverges.
Proof.
  apply (proj1 (proj2 (proj2 (read_data_edges example_proxy 0 1 Intensities_new)))).
  - simpl. lia.
  - intros i H. discriminate H.
  - intros i. simpl. unfold at_index.
    destruct (_ !! i); intros H; discriminate H.
Defined.

(** ** The readers of the binary table *)

Lemma read_row_isign (proxy : DataProxy) (value_idx sigma_idx o : nat) (row : Refl) :
  read_row proxy value_idx sigma_idx o = Ok row -> isign row = 0.
Proof.
  unfold read_row. intros Ho.
  destruct (get_hkl proxy o); simpl in Ho; try done.
  destruct (get_num proxy (o + value_idx)%nat); simpl in Ho; try done.
  destruct (get_num proxy (o + sigma_idx)%nat); simpl in Ho; try done.
  by injection Ho as <-.
Qed.

Lemma column_with_label_label (mtz : Mtz) (lab : string) (c : Column) :
  column_with_label mtz lab = Some c -> label c = lab.
Proof.
  unfold column_with_label. intros H. apply find_some in H as [_ H].
  by apply String.eqb_eq.
Qed.

(** X9.  No table is read both as unmerged and as merged: when the
    unmerged reader returns, the two merged readers fail with "expected
    merged file", and when one of them returns, the unmerged reader fails
    with "expected unmerged file". *)
Theorem mtz_readers_exclusive (mtz : Mtz) :
  (forall self,
     read_unmerged_intensities_from_mtz mtz = Ok self ->
     read_mean_intensities_from_mtz mtz = Fail "expected merged file" /\
     read_anomalous_intensities_from_mtz mtz = Fail "expected merged file") /\
  (forall self,
     read_mean_intensities_from_mtz mtz = Ok self \/
     read_anomalous_intensities_from_mtz mtz = Ok self ->
     read_unmerged_intensities_from_mtz mtz = Fail "expected unmerged file").
Proof.
  unfold read_unmerged_intensities_from_mtz, read_mean_intensities_from_mtz,
    read_anomalous_intensities_from_mtz.
  destruct (decide (batches mtz = [])) as [Hb|Hb];
    [rewrite bool_decide_eq_true_2 by done|rewrite bool_decide_eq_false_2 by done];
    simpl; split; try done.
  intros self [H|H]; done.
Qed.

(** X10.  The reader of mean intensities fails with "expected merged file"
    on a table with batch records and with "Mean intensities (IMEAN or I)
    not found." when the table has neither column.  When it returns, the
    table has no batch records; the intensities come from IMEAN when the
    table has this column, else from I, and the sigmas from the column whose
    label is SIG followed by that label; the set has the space group and
    the cell of the table and the wavelength of the dataset of the column,
    and holds the valid rows, in their order and without signs. *)
Theorem read_mean_intensities_from_mtz_result :
  (forall mtz : Mtz,
     batches mtz <> [] ->
     read_mean_intensities_from_mtz mtz = Fail "expected merged file") /\
  (forall mtz : Mtz,
     batches mtz = [] ->
     column_with_label mtz "IMEAN" = None -> column_with_label mtz "I" = None ->
     read_mean_intensities_from_mtz mtz = Fail "Mean intensities (IMEAN or I) not found.") /\
  (forall (mtz : Mtz) (self : Intensities),
     read_mean_intensities_from_mtz mtz = Ok self ->
     batches mtz = [] /\
     exists (col sigma_col : Column) (ds : Dataset) (rows : list Refl),
       (column_with_label mtz "IMEAN" = Some col \/
        (column_with_label mtz "IMEAN" = None /\ column_with_label mtz "I" = Some col)) /\
       (label col = "IMEAN" \/ label col = "I") /\
       column_with_label mtz ("SIG" +:+ label col) = Some sigma_col /\
       dataset mtz (dataset_id col) = Ok ds /\
       mtz_spacegroup mtz <> None /\
       Forall2 (fun o row =>
                  read_row (MtzDataProxy mtz) (idx col) (idx sigma_col) o = Ok row)
               (row_offsets (length (mtz_data mtz)) (length (columns mtz))) rows /\
       self = mkIntensities (List.filter is_valid rows) (mtz_spacegroup mtz) (mtz_cell mtz)
                            (dataset_wavelength ds) /\
       have_sign self = false).
Proof.
  split; [|split].
  - intros mtz Hb. unfold read_mean_intensities_from_mtz.
    by rewrite bool_decide_eq_false_2.
  - intros mtz Hb H1 H2. unfold read_mean_intensities_from_mtz.
    rewrite bool_decide_eq_true_2 by done. simpl. by rewrite H1, H2.
  - intros mtz self. unfold read_mean_intensities_from_mtz.
    destruct (decide (batches mtz = [])) as [Hb|Hb];
      [rewrite bool_decide_eq_true_2 by done|by rewrite bool_decide_eq_false_2].
    cbn [negb].
    destruct (column_with_one_of_labels mtz ["IMEAN"; "I"]) as [col|] eqn:Hcol; [|done].
    unfold get_column_with_label.
    destruct (column_with_label mtz ("SIG" +:+ label col)) as [sigma_col|] eqn:Hsig;
      simpl; [|done].
    unfold copy_metadata. simpl.
    destruct (mtz_spacegroup mtz) as [sg|] eqn:Hsg; simpl; [|done].
    destruct (dataset mtz (dataset_id col)) as [ds| | |] eqn:Hds; simpl; try done.
    intros H. apply read_data_returns in H as (rows & Hrows & ->).
    split; [done|]. exists col, sigma_col, ds, rows.
    assert (Hc : column_with_label mtz "IMEAN" = Some col \/
                 (column_with_label mtz "IMEAN" = None /\
                  column_with_label mtz "I" = Some col)).
    { simpl in Hcol. destruct (column_with_label mtz "IMEAN"); [left; congruence|].
      destruct (column_with_label mtz "I"); [right; split; congruence|done]. }
    repeat split; try done.
    + destruct Hc as [Hc|[_ Hc]]; apply column_with_label_label in Hc; auto.
    + unfold have_sign. simpl.
      destruct (List.filter is_valid rows) as [|x l] eqn:E; [done|].
      assert (Hx : x ∈ rows).
      { apply list_elem_of_In. eapply proj1, filter_In. rewrite E. by left. }
      apply list_elem_of_lookup in Hx as [j Hj].
      destruct (Forall2_lookup_r _ _ _ _ _ Hrows Hj) as (o & _ & Ho).
      by rewrite (read_row_isign _ _ _ _ _ Ho).
Qed.

(** X10 at [example_merged_mtz], which has the column IMEAN and no column I. *)
Lemma read_mean_intensities_from_mtz_result_witness :
  read_mean_intensities_from_mtz example_merged_mtz
  = Ok (mkIntensities [mkRefl (mkMiller 1 2 3) 0 10 2; mkRefl (mkMiller 0 0 1) 0 5 1]
                      (Some P1) cubic_cell 1) /\
  batches example_merged_mtz = [].
Proof.
  assert (H : read_mean_intensities_from_mtz example_merged_mtz
              = Ok (mkIntensities [mkRefl (mkMiller 1 2 3) 0 10 2;
                                   mkRefl (mkMiller 0 0 1) 0 5 1]
                                  (Some P1) cubic_cell 1)) by reflexivity.
  split; [exact H|].
  exact (proj1 (proj2 (proj2 read_mean_intensities_from_mtz_result) _ _ H)).
Defined.

(** X11.  The reader of anomalous intensities fails with "expected merged
    file" on a table with batch records.  When it returns, the table has no
    batch records and the four columns I(+), I(-), SIGI(+) and SIGI(-); the
    set has the space group and the cell of the table and the wavelength of
    the dataset of I(+); for every row it holds the valid ones of I(+) and
    I(-), in this order, with the signs [1] and [-1]: at most two
    observations for a row, all of them valid. *)
Theorem read_anomalous_intensities_from_mtz_result :
  (forall mtz : Mtz,
     batches mtz <> [] ->
     read_anomalous_intensities_from_mtz mtz = Fail "expected merged file") /\
  (forall (mtz : Mtz) (self : Intensities),
     read_anomalous_intensities_from_mtz mtz = Ok self ->
     batches mtz = [] /\
     exists (col col_minus sig_plus sig_minus : Column) (ds : Dataset)
            (news : list (list Refl)),
       column_with_label mtz "I(+)" = Some col /\
       column_with_label mtz "I(-)" = Some col_minus /\
       column_with_label mtz "SIGI(+)" = Some sig_plus /\
       column_with_label mtz "SIGI(-)" = Some sig_minus /\
       dataset mtz (dataset_id col) = Ok ds /\
       mtz_spacegroup mtz <> None /\
       Forall2 (fun o new =>
                  anomalous_rows (mtz_get_hkl mtz) (at_index (mtz_data mtz))
                                 (idx col, idx col_minus) (idx sig_plus, idx sig_minus) o
                  = Ok new)
               (row_offsets (length (mtz_data mtz)) (length (columns mtz))) news /\
       self = mkIntensities (concat news) (mtz_spacegroup mtz) (mtz_cell mtz)
                            (dataset_wavelength ds) /\
       Forall (fun x => is_valid x = true /\ (isign x = 1 \/ isign x = -1)) (data self) /\
       (length (data self)
        <= 2 * row_count (length (mtz_data mtz)) (length (columns mtz)))%nat).
Proof.
  split.
  - intros mtz Hb. unfold read_anomalous_intensities_from_mtz.
    by rewrite bool_decide_eq_false_2.
  - intros mtz self. unfold read_anomalous_intensities_from_mtz.
    destruct (decide (batches mtz = [])) as [Hb|Hb];
      [rewrite bool_decide_eq_true_2 by done|by rewrite bool_decide_eq_false_2].
    cbn [negb]. unfold get_column_with_label.
    destruct (column_with_label mtz "I(+)") as [col|] eqn:H1; simpl; [|done].
    destruct (column_with_label mtz "I(-)") as [col_minus|] eqn:H2; simpl; [|done].
    destruct (column_with_label mtz "SIGI(+)") as [sig_plus|] eqn:H3; simpl; [|done].
    destruct (column_with_label mtz "SIGI(-)") as [sig_minus|] eqn:H4; simpl; [|done].
    unfold copy_metadata. simpl.
    destruct (mtz_spacegroup mtz) as [sg|] eqn:Hsg; simpl; [|done].
    destruct (dataset mtz (dataset_id col)) as [ds| | |] eqn:Hds; simpl; try done.
    rewrite mtz_rows_loop_proxy.
    destruct (proxy_rows_loop _ _ _ _ _) as [d| | |] eqn:Hloop; simpl; try done.
    intros [= <-].
    apply (proxy_rows_loop_returns (MtzDataProxy mtz) _
             (anomalous_rows (mtz_get_hkl mtz) (at_index (mtz_data mtz))
                (idx col, idx col_minus) (idx sig_plus, idx sig_minus)))
      in Hloop as (news & Hnews & ->); [|apply anomalous_pair_appends].
    rewrite Nat.sub_0_r in Hnews. simpl in Hnews. fold (row_offsets (length (mtz_data mtz))
      (length (columns mtz))) in Hnews.
    split; [done|]. exists col, col_minus, sig_plus, sig_minus, ds, news.
    repeat split; try done.
    + eapply Forall_concat_Forall2; [|exact Hnews].
      intros o new Hnew. by apply anomalous_rows_valid in Hnew as [Hnew _].
    + assert (Hl : (length (concat news)
                    <= 2 * length (row_offsets (length (mtz_data mtz))
                                               (length (columns mtz))))%nat).
      { eapply Forall2_concat_length; [|exact Hnews].
        intros o new Hnew. by apply anomalous_rows_valid in Hnew as [_ Hnew]. }
      rewrite row_offsets_length in Hl. simpl. lia.
Qed.

(** X11 at [example_merged_mtz]: the first row gives I(+) and I(-), the
    second I(+) only. *)
Lemma read_anomalous_intensities_from_mtz_result_witness :
  read_anomalous_intensities_from_mtz example_merged_mtz
  = Ok (mkIntensities [mkRefl (mkMiller 1 2 3) 1 11 3; mkRefl (mkMiller 1 2 3) (-1) 9 3;
                       mkRefl (mkMiller 0 0 1) 1 5 1]
                      (Some P1) cubic_cell 1) /\
  batches example_merged_mtz = [].
Proof.
  assert (H : read_anomalous_intensities_from_mtz example_merged_mtz
              = Ok (mkIntensities [mkRefl (mkMiller 1 2 3) 1 11 3;
                                   mkRefl (mkMiller 1 2 3) (-1) 9 3;
                                   mkRefl (mkMiller 0 0 1) 1 5 1]
                                  (Some P1) cubic_cell 1)) by reflexivity.
  split; [exact H|].
  exact (proj1 (proj2 read_anomalous_intensities_from_mtz_result _ _ H)).
Defined.

Lemma is_valid_switch_refl (asu : ReciprocalAsu) (gops : GroupOps) (merged : bool) (r : Refl) :
  is_valid (switch_refl asu gops merged r) = is_valid r.
Proof.
  unfold is_valid. by destruct (switch_refl_value_sigma asu gops merged r) as [-> ->].
Qed.

Lemma isign_switch_refl_signed (asu : ReciprocalAsu) (gops : GroupOps) (r : Refl) :
  isign r = 1 \/ isign r = -1 ->
  isign (switch_refl asu gops false r) = 1 \/ isign (switch_refl asu gops false r) = -1.
Proof.
  intros H. unfold switch_refl. destruct (is_in asu (hkl r)); [done|].
  simpl. unfold parity_sign. destruct (Z.rem _ 2 =? 0); auto.
Qed.

(** X12.  When the reader of an unmerged table returns, every observation
    of the set is valid and has the sign [1] or [-1], so [have_sign] answers
    yes unless the set is empty; there is at most one observation for a row;
    the cell is the average of the batch headers, the space group is the one
    of the table, and the wavelength is the one of the dataset of the
    column I. *)
Theorem read_unmerged_intensities_from_mtz_observations (mtz : Mtz) (self : Intensities) :
  read_unmerged_intensities_from_mtz mtz = Ok self ->
  Forall (fun x => is_valid x = true /\ (isign x = 1 \/ isign x = -1)) (data self) /\
  (have_sign self = true <-> data self <> []) /\
  (length (data self) <= row_count (length (mtz_data mtz)) (length (columns mtz)))%nat /\
  unit_cell self = average_cell_from_batch_headers mtz /\
  spacegroup self = mtz_spacegroup mtz /\
  exists (col : Column) (ds : Dataset),
    column_with_label mtz "I" = Some col /\
    dataset mtz (dataset_id col) = Ok ds /\
    wavelength self = dataset_wavelength ds.
Proof.
  unfold read_unmerged_intensities_from_mtz.
  destruct (bool_decide (batches mtz = [])); [done|].
  destruct (column_with_label mtz "M/ISYM") as [c|]; [|done].
  destruct (negb (idx c =? 3)%nat); [done|].
  unfold get_column_with_label.
  destruct (column_with_label mtz "I") as [col|] eqn:Hcol; simpl; [|done].
  destruct (column_with_label mtz "SIGI") as [sigma_col|]; simpl; [|done].
  destruct (mtz_spacegroup mtz) as [sg|] eqn:Hsg; [|done].
  destruct (dataset mtz (dataset_id col)) as [ds| | |] eqn:Hds; simpl; try done.
  rewrite mtz_rows_loop_proxy.
  destruct (proxy_rows_loop _ _ _ _ _) as [d| | |] eqn:Hloop; simpl; try done.
  unfold switch_to_asu_indices. simpl. intros [= <-].
  apply (proxy_rows_loop_returns (MtzDataProxy mtz) _
           (unmerged_mtz_rows mtz (idx col) (idx sigma_col)))
    in Hloop as (news & Hnews & ->); [|apply unmerged_mtz_body_appends].
  rewrite Nat.sub_0_r in Hnews. simpl in Hnews.
  fold (row_offsets (length (mtz_data mtz)) (length (columns mtz))) in Hnews.
  assert (Hall : Forall (fun x => is_valid x = true /\ (isign x = 1 \/ isign x = -1))
                        (switch_refl (asu_of sg) (operations sg) false <$> concat news)).
  { apply Forall_fmap.
    assert (H : Forall (fun x => is_valid x = true /\ (isign x = 1 \/ isign x = -1))
                       (concat news)).
    { eapply Forall_concat_Forall2; [|exact Hnews].
      intros o new Hnew. by apply unmerged_mtz_rows_valid in Hnew. }
    eapply Forall_impl; [exact H|]. simpl. intros x [Hv Hs].
    split; [by rewrite is_valid_switch_refl|by apply isign_switch_refl_signed]. }
  simpl. repeat split; try done.
  - unfold have_sign. simpl.
    by destruct (switch_refl _ _ _ <$> concat news).
  - intros Hne. unfold have_sign. simpl.
    destruct (switch_refl _ _ _ <$> concat news) as [|x l]; [done|].
    apply Forall_cons in Hall as [[_ [->| ->]] _]; done.
  - rewrite length_fmap.
    assert (Hl : (length (concat news)
                  <= 1 * length (row_offsets (length (mtz_data mtz))
                                             (length (columns mtz))))%nat).
    { eapply Forall2_concat_length; [|exact Hnews].
      intros o new Hnew. unfold unmerged_mtz_rows in Hnew.
      destruct (unmerged_mtz_row _ _ _ _) as [r| | |]; simpl in Hnew; try done.
      injection Hnew as <-. unfold valid_part. destruct (is_valid r); simpl; lia. }
    rewrite row_offsets_length in Hl. lia.
  - by exists col, ds.
Qed.

(** X12 at [example_mtz]. *)
Lemma read_unmerged_intensities_from_mtz_observations_witness :
  Forall (fun x => is_valid x = true /\ (isign x = 1 \/ isign x = -1))
         (data example_mtz_result) /\
  unit_cell example_mtz_result = average_cell_from_batch_headers example_mtz.
Proof.
  destruct (read_unmerged_intensities_from_mtz_observations example_mtz example_mtz_result
              eq_refl) as (H1 & _ & _ & H2 & _).
  by split.
Defined.

(** ** The reader of the ASCII reflection list *)

Lemma foldl_add_if_valid_fmap {A : Type} (f : A -> Refl) (l : list A) (d : list Refl) :
  foldl (fun d a => add_if_valid (f a) d) d l = d ++ List.filter is_valid (f <$> l).
Proof.
  revert d; induction l as [|a l IH]; intros d; simpl.
  - by rewrite app_nil_r.
  - rewrite IH, add_if_valid_app. unfold valid_part.
    destruct (is_valid (f a)); by rewrite <- app_assoc.
Qed.

(** X13.  With a space group number that the lookup table knows, the reader
    of the reflection list returns: it raises no error of its own.  The set
    has the space group of the table, the cell and the wavelength of the
    list, and holds the records that are valid, in their order, after the
    reduction to the asymmetric unit; a record that stays in place has no
    sign, a record that is moved has the sign [1] or [-1]. *)
Theorem read_unmerged_intensities_from_xds_known (table : Z -> option SpaceGroup)
    (xds : XdsAscii) (sg : SpaceGroup) :
  table (spacegroup_number xds) = Some sg ->
  let kept := List.filter is_valid (xds_refl <$> xds_data xds) in
  read_unmerged_intensities_from_xds table xds
  = Ok (mkIntensities (switch_refl (asu_of sg) (operations sg) false <$> kept)
                      (Some sg) (xds_unit_cell xds) (xds_wavelength xds)) /\
  (length kept <= length (xds_data xds))%nat /\
  Forall (fun x => is_valid x = true /\ isign x = 0) kept /\
  Forall (fun x =>
            is_valid x = true /\
            (is_in (asu_of sg) (hkl x) = true -> isign x = 0) /\
            (is_in (asu_of sg) (hkl x) = false ->
             let y := switch_refl (asu_of sg) (operations sg) false x in
             isign y = 1 \/ isign y = -1))
         kept.
Proof.
  intros Hsg kept.
  assert (Hk : Forall (fun x => is_valid x = true /\ isign x = 0) kept).
  { apply Forall_forall. intros x Hx.
    apply list_elem_of_In, filter_In in Hx as [Hx Hv]. split; [done|].
    apply list_elem_of_In, list_elem_of_fmap in Hx as (r & -> & _). done. }
  repeat split.
  - unfold read_unmerged_intensities_from_xds, switch_to_asu_indices. simpl.
    rewrite Hsg. unfold set_data. simpl. do 3 f_equal.
    by rewrite (foldl_add_if_valid_fmap xds_refl).
  - unfold kept. rewrite <- (length_fmap xds_refl (xds_data xds)).
    generalize (xds_refl <$> xds_data xds). intros l.
    induction l as [|x l IH]; simpl; [done|]. destruct (is_valid x); simpl; lia.
  - exact Hk.
  - eapply Forall_impl; [exact Hk|]. simpl. intros x [Hv Hs].
    repeat split; try done.
    intros Hin. unfold switch_refl. rewrite Hin. simpl.
    unfold parity_sign. destruct (Z.rem _ 2 =? 0); auto.
Qed.

(** X13 at [example_xds_P1]: of the three records the second is rejected
    and the third is moved to [0 0 1] with the sign [-1]. *)
Lemma read_unmerged_intensities_from_xds_known_witness :
  read_unmerged_intensities_from_xds example_table example_xds_P1
  = Ok (mkIntensities [mkRefl (mkMiller 1 2 3) 0 10 1; mkRefl (mkMiller 0 0 1) (-1) 5 2]
                      (Some P1) cubic_cell 1).
Proof.
  exact (proj1 (read_unmerged_intensities_from_xds_known example_table example_xds_P1 P1
                  eq_refl)).
Defined.

(** ** The readers of the structured document *)

(** X14.  When a reader of a reflection block returns, its columns were
    found under the names it asks for, the block has a space group, and the
    set has the space group, the cell and the wavelength of the block.  The
    reader of mean intensities holds the valid rows of intensity_meas; the
    reader of unmerged intensities holds the valid rows of intensity_net
    after the reduction to the asymmetric unit; the reader of anomalous
    intensities holds for every row the valid ones of pdbx_I_plus and
    pdbx_I_minus, in this order.  A column that is not found makes the
    reader fail as [get_column_index] fails. *)
Theorem mmcif_readers_result (rb : ReflnBlock) :
  (forall self,
     read_mean_intensities_from_mmcif rb = Ok self ->
     exists (value_idx sigma_idx : nat) (rows : list Refl),
       get_column_index rb "intensity_meas" = Ok value_idx /\
       get_column_index rb "intensity_sigma" = Ok sigma_idx /\
       rb_spacegroup rb <> None /\
       Forall2 (fun o row => read_row (ReflnDataProxy rb) value_idx sigma_idx o = Ok row)
               (row_offsets (proxy_size (ReflnDataProxy rb))
                            (proxy_stride (ReflnDataProxy rb))) rows /\
       self = mkIntensities (List.filter is_valid rows) (rb_spacegroup rb) (rb_cell rb)
                            (rb_wavelength rb)) /\
  (forall self,
     read_unmerged_intensities_from_mmcif rb = Ok self ->
     exists (sg : SpaceGroup) (value_idx sigma_idx : nat) (rows : list Refl),
       get_column_index rb "intensity_net" = Ok value_idx /\
       get_column_index rb "intensity_sigma" = Ok sigma_idx /\
       rb_spacegroup rb = Some sg /\
       Forall2 (fun o row => read_row (ReflnDataProxy rb) value_idx sigma_idx o = Ok row)
               (row_offsets (proxy_size (ReflnDataProxy rb))
                            (proxy_stride (ReflnDataProxy rb))) rows /\
       self = mkIntensities
                (switch_refl (asu_of sg) (operations sg) false <$> List.filter is_valid rows)
                (Some sg) (rb_cell rb) (rb_wavelength rb)) /\
  (forall self,
     read_anomalous_intensities_from_mmcif rb = Ok self ->
     exists (v_plus v_minus s_plus s_minus : nat) (news : list (list Refl)),
       get_column_index rb "pdbx_I_plus" = Ok v_plus /\
       get_column_index rb "pdbx_I_minus" = Ok v_minus /\
       get_column_index rb "pdbx_I_plus_sigma" = Ok s_plus /\
       get_column_index rb "pdbx_I_minus_sigma" = Ok s_minus /\
       rb_spacegroup rb <> None /\
       Forall2 (fun o new =>
                  anomalous_rows (get_hkl (ReflnDataProxy rb)) (get_num (ReflnDataProxy rb))
                                 (v_plus, v_minus) (s_plus, s_minus) o
                  = Ok new)
               (row_offsets (proxy_size (ReflnDataProxy rb))
                            (proxy_stride (ReflnDataProxy rb))) news /\
       self = mkIntensities (concat news) (rb_spacegroup rb) (rb_cell rb)
                            (rb_wavelength rb)) /\
  (forall msg,
     (get_column_index rb "intensity_meas" = Fail msg ->
      read_mean_intensities_from_mmcif rb = Fail msg) /\
     (get_column_index rb "intensity_net" = Fail msg ->
      read_unmerged_intensities_from_mmcif rb = Fail msg) /\
     (get_column_index rb "pdbx_I_plus" = Fail msg ->
      read_anomalous_intensities_from_mmcif rb = Fail msg)).
Proof.
  split; [|split; [|split]].
  - intros self. unfold read_mean_intensities_from_mmcif.
    destruct (get_column_index rb "intensity_meas") as [vi| | |]; simpl; try done.
    destruct (get_column_index rb "intensity_sigma") as [si| | |]; simpl; try done.
    unfold copy_metadata. simpl.
    destruct (rb_spacegroup rb) as [sg|] eqn:Hsg; simpl; [|done].
    intros H. apply read_data_returns in H as (rows & Hrows & ->).
    by exists vi, si, rows.
  - intros self. unfold read_unmerged_intensities_from_mmcif.
    destruct (get_column_index rb "intensity_net") as [vi| | |]; simpl; try done.
    destruct (get_column_index rb "intensity_sigma") as [si| | |]; simpl; try done.
    unfold copy_metadata. simpl.
    destruct (rb_spacegroup rb) as [sg|] eqn:Hsg; simpl; [|done].
    destruct (read_data _ _ _ _) as [i1| | |] eqn:Hread; simpl; try done.
    apply read_data_returns in Hread as (rows & Hrows & ->).
    unfold switch_to_asu_indices. simpl. intros [= <-].
    by exists sg, vi, si, rows.
  - intros self. unfold read_anomalous_intensities_from_mmcif.
    destruct (get_column_index rb "pdbx_I_plus") as [vp| | |]; simpl; try done.
    destruct (get_column_index rb "pdbx_I_minus") as [vm| | |]; simpl; try done.
    destruct (get_column_index rb "pdbx_I_plus_sigma") as [sp| | |]; simpl; try done.
    destruct (get_column_index rb "pdbx_I_minus_sigma") as [sm| | |]; simpl; try done.
    unfold copy_metadata. simpl.
    destruct (rb_spacegroup rb) as [sg|] eqn:Hsg; simpl; [|done].
    destruct (proxy_rows_loop _ _ _ _ _) as [d| | |] eqn:Hloop; simpl; try done.
    intros [= <-].
    apply (proxy_rows_loop_returns (ReflnDataProxy rb) _
             (anomalous_rows (get_hkl (ReflnDataProxy rb)) (get_num (ReflnDataProxy rb))
                (vp, vm) (sp, sm)))
      in Hloop as (news & Hnews & ->); [|apply anomalous_pair_appends].
    rewrite Nat.sub_0_r in Hnews.
    exists vp, vm, sp, sm, news. repeat split; done.
  - intros msg. repeat split; intros H.
    + unfold read_mean_intensities_from_mmcif. by rewrite H.
    + unfold read_unmerged_intensities_from_mmcif. by rewrite H.
    + unfold read_anomalous_intensities_from_mmcif. by rewrite H.
Qed.

(** X14 at [example_refln_block]: the mean intensities are read, the
    anomalous ones are not there. *)
Lemma mmcif_readers_result_witness :
  read_mean_intensities_from_mmcif example_refln_block
  = Ok (mkIntensities [mkRefl (mkMiller 0 0 1) 0 10 2] (Some P1) cubic_cell 1) /\
  read_anomalous_intensities_from_mmcif example_refln_block
  = Fail "Column not found: pdbx_I_plus".
Proof.
  split; [reflexivity|].
  exact (proj2 (proj2 (proj2 (proj2 (proj2 (mmcif_readers_result example_refln_block)))
                         "Column not found: pdbx_I_plus")) eq_refl).
Defined.

(** ** The resolution range of sets with the same indices *)

Lemma SFltb_positive_eq (a b : spec_float) :
  SFltb (S754_zero false) a = true -> SFltb (S754_zero false) b = true ->
  SFltb a b = false -> SFltb b a = false -> a = b.
Proof.
  unfold SFltb, SFcompare.
  destruct a as [sa|sa| |sa ma ea], b as [sb|sb| |sb mb eb];
    try destruct sa; try destruct sb; try discriminate; try reflexivity;
    repeat match goal with
    | |- context [Pos.compare_cont Eq ?x ?y] =>
        change (Pos.compare_cont Eq x y) with (Pos.compare x y)
    end;
    intros _ _ H1 H2; compare_cases; simpl in *; subst;
    try discriminate; try reflexivity; try lia.
Qed.

(** Two positive numbers of which neither is below the other are equal. *)
Lemma ltb_positive_eq (a b : float) :
  (0 <? a)%float = true -> (0 <? b)%float = true ->
  (a <? b)%float = false -> (b <? a)%float = false -> a = b.
Proof.
  rewrite !ltb_spec. change (Prim2SF 0) with (S754_zero false).
  intros Ha Hb H1 H2.
  rewrite <- (SF2Prim_Prim2SF a), <- (SF2Prim_Prim2SF b). f_equal.
  by apply SFltb_positive_eq.
Qed.

Lemma extrema_same_values (vals1 vals2 : list float) :
  (forall a, a ∈ vals1 <-> a ∈ vals2) ->
  Forall (fun a => (0 <? a)%float = true /\ (a <? infinity)%float = true) vals1 ->
  foldl (pick PrimFloat.ltb) infinity vals1 = foldl (pick PrimFloat.ltb) infinity vals2 /\
  foldl (pick (fun a b => PrimFloat.ltb b a)) 0%float vals1
  = foldl (pick (fun a b => PrimFloat.ltb b a)) 0%float vals2.
Proof.
  intros Hsame Hpos.
  assert (Hpos2 : Forall (fun a => (0 <? a)%float = true /\ (a <? infinity)%float = true)
                         vals2).
  { rewrite Forall_forall in Hpos. apply Forall_forall. intros a Ha.
    by apply Hpos, Hsame. }
  destruct vals1 as [|a1 l1].
  { destruct vals2 as [|a2 l2]; [done|].
    exfalso. apply (elem_of_nil a2), Hsame, list_elem_of_here. }
  destruct vals2 as [|a2 l2].
  { exfalso. apply (elem_of_nil a1), Hsame, list_elem_of_here. }
  set (v1 := a1 :: l1) in *. set (v2 := a2 :: l2) in *.
  assert (Hin : forall (lt : float -> float -> bool) seed v a l,
            v = a :: l -> lt a seed = true ->
            (foldl (pick lt) seed v ∈ v \/
             (foldl (pick lt) seed v = seed /\ Forall (fun a => lt a seed = false) v)) ->
            foldl (pick lt) seed v ∈ v).
  { intros lt seed v a l -> Ha [H|[_ H]]; [done|].
    apply Forall_cons in H as [H _]. congruence. }
  rewrite Forall_forall in Hpos, Hpos2.
  split.
  - destruct (foldl_pick PrimFloat.ltb ltb_irrefl ltb_trans v1 infinity) as (B1 & I1 & _).
    destruct (foldl_pick PrimFloat.ltb ltb_irrefl ltb_trans v2 infinity) as (B2 & I2 & _).
    apply (Hin _ _ _ a1 l1 eq_refl) in I1; [|apply Hpos, list_elem_of_here].
    apply (Hin _ _ _ a2 l2 eq_refl) in I2; [|apply Hpos2, list_elem_of_here].
    rewrite Forall_forall in B1, B2.
    apply ltb_positive_eq.
    + by apply Hpos.
    + by apply Hpos2.
    + by apply B2, Hsame.
    + by apply B1, Hsame.
  - pose proof (foldl_pick (fun a b => PrimFloat.ltb b a)
                  (fun a => ltb_irrefl a) (fun a b c H H' => ltb_trans c b a H' H)) as Hp.
    destruct (Hp v1 0%float) as (B1 & I1 & _).
    destruct (Hp v2 0%float) as (B2 & I2 & _).
    apply (Hin (fun a b => PrimFloat.ltb b a) 0%float v1 a1 l1 eq_refl) in I1;
      [|apply Hpos, list_elem_of_here].
    apply (Hin (fun a b => PrimFloat.ltb b a) 0%float v2 a2 l2 eq_refl) in I2;
      [|apply Hpos2, list_elem_of_here].
    rewrite Forall_forall in B1, B2.
    apply ltb_positive_eq.
    + by apply Hpos.
    + by apply Hpos2.
    + by apply B1, Hsame.
    + by apply B2, Hsame.
Qed.

Lemma resolution_range_same_indices (self1 self2 : Intensities) :
  unit_cell self1 = unit_cell self2 ->
  (forall m, m ∈ hkl <$> data self1 <-> m ∈ hkl <$> data self2) ->
  Forall (fun a => (0 <? a)%float = true /\ (a <? infinity)%float = true)
         (spacings self1) ->
  resolution_range self1 = resolution_range self2.
Proof.
  intros Hc Hsame Hpos. unfold resolution_range.
  rewrite !resolution_extrema_pick. simpl.
  destruct (extrema_same_values (spacings self1) (spacings self2)) as [-> ->]; [|done..].
  intros a. unfold spacings. rewrite <- Hc.
  rewrite !(list_fmap_compose hkl (calculate_1_d2 (unit_cell self1))).
  split; intros H; apply list_elem_of_fmap in H as (m & -> & Hm);
    apply list_elem_of_fmap_2; by apply Hsame.
Qed.

Lemma merge_data_hkl_elem (b : bool) (d : list Refl) (m : Miller) :
  m ∈ hkl <$> merge_data b d <-> m ∈ hkl <$> d.
Proof.
  assert (Hk : forall l : list Refl,
            m ∈ hkl <$> l <-> exists s, (m, s) ∈ Refl_key <$> l).
  { intros l. split.
    - intros H. apply list_elem_of_fmap in H as (x & -> & Hx).
      exists (isign x). by apply (list_elem_of_fmap_2 Refl_key).
    - intros [s H]. apply list_elem_of_fmap in H as (x & Hx & Hin).
      injection Hx as -> _. by apply list_elem_of_fmap_2. }
  rewrite (Hk (merge_data b d)).
  assert (Hp : hkl <$> prepare b d = hkl <$> d).
  { destruct b; simpl; [done|]. unfold discard_signs.
    rewrite <- list_fmap_compose. by apply list_fmap_ext. }
  rewrite <- Hp, (Hk (prepare b d)).
  split; intros [s H]; exists s; by apply merge_data_key_elem.
Qed.

(** X15.  For a set whose spacings [d*²] are positive and finite, neither
    the sort nor the merge changes the resolution range: they keep the
    indices of the set. *)
Theorem resolution_range_after_merge (b : bool) (self : Intensities) :
  Forall (fun a => (0 <? a)%float = true /\ (a <? infinity)%float = true) (spacings self) ->
  resolution_range (merge_in_place b self) = resolution_range self /\
  resolution_range (Intensities_sort self) = resolution_range self.
Proof.
  intros Hpos. split; symmetry; apply resolution_range_same_indices; try done.
  - intros m. symmetry. apply merge_data_hkl_elem.
  - intros m. unfold Intensities_sort. simpl. by rewrite sort_perm.
Qed.

(** X15 at [example_two_shells], whose spacings are [1] and [4]. *)
Lemma resolution_range_after_merge_witness :
  resolution_range (merge_in_place true example_two_shells)
  = resolution_range example_two_shells.
Proof.
  apply (resolution_range_after_merge true example_two_shells).
  repeat constructor.
Defined.

(** X9 at [example_mtz], which is unmerged. *)
Lemma mtz_readers_exclusive_witness :
  read_mean_intensities_from_mtz example_mtz = Fail "expected merged file" /\
  read_anomalous_intensities_from_mtz example_mtz = Fail "expected merged file".
Proof.
  exact (proj1 (mtz_readers_exclusive example_mtz) example_mtz_result eq_refl).
Defined.

(** ** The pipeline *)

Lemma switch_refl_is_in (sg : SpaceGroup) (merged : bool) (r : Refl) :
  (forall m : Miller, is_in (asu_of sg) (to_asu (asu_of sg) m (operations sg)).1 = true) ->
  is_in (asu_of sg) (hkl (switch_refl (asu_of sg) (operations sg) merged r)) = true.
Proof.
  intros Hin. unfold switch_refl.
  destruct (is_in (asu_of sg) (hkl r)) eqn:E; [done|].
  destruct merged; simpl; apply Hin.
Qed.

Lemma merge_data_hkl_Forall (P : Miller -> Prop) (b : bool) (d : list Refl) :
  Forall (fun x => P (hkl x)) d -> Forall (fun x => P (hkl x)) (merge_data b d).
Proof.
  rewrite !Forall_forall. intros H x Hx.
  assert (Hm : hkl x ∈ hkl <$> d) by (apply (merge_data_hkl_elem b); by apply list_elem_of_fmap_2).
  apply list_elem_of_fmap in Hm as (y & -> & Hy). by apply H.
Qed.

(** X16.  The three steps in a row: for a set with a space group whose
    oracle maps every index into the asymmetric unit, the reduction
    returns, and after the absences are removed and the set is merged, every
    index lies in the asymmetric unit, no index is absent, the keys ascend
    strictly (so no key occurs twice), and the space group, the cell and
    the wavelength are those of the set at the start. *)
Theorem reduce_remove_merge (merged b : bool) (self : Intensities) (sg : SpaceGroup) :
  spacegroup self = Some sg ->
  (forall m : Miller, is_in (asu_of sg) (to_asu (asu_of sg) m (operations sg)).1 = true) ->
  exists reduced : Intensities,
    switch_to_asu_indices merged self = Ok reduced /\
    let final := merge_in_place b (remove_systematic_absences reduced) in
    Forall (fun x => is_in (asu_of sg) (hkl x) = true) (data final) /\
    Forall (fun x => absent (operations sg) x = false) (data final) /\
    ascending (data final) /\
    spacegroup final = Some sg /\
    unit_cell final = unit_cell self /\
    wavelength final = wavelength self.
Proof.
  intros Hsg Hin. unfold switch_to_asu_indices. rewrite Hsg.
  eexists. split; [reflexivity|].
  unfold remove_systematic_absences, merge_in_place. simpl. rewrite Hsg. simpl.
  repeat split; try done.
  - apply (merge_data_hkl_Forall (fun m => is_in (asu_of sg) m = true)).
    unfold vector_remove_if. apply Forall_filter_bool, Forall_fmap, Forall_forall.
    intros x _. by apply switch_refl_is_in.
  - apply (merge_data_hkl_Forall
             (fun m => is_systematically_absent (operations sg) m = false)).
    apply Forall_forall. intros x Hx.
    apply list_elem_of_In, filter_In in Hx as [_ Hx]. by apply negb_true_iff.
  - apply merge_data_ascending.
Qed.

(** X16 at [example_unreduced] in P1. *)
Lemma reduce_remove_merge_witness :
  exists reduced : Intensities,
    switch_to_asu_indices false example_unreduced = Ok reduced /\
    ascending (data (merge_in_place true (remove_systematic_absences reduced))).
Proof.
  destruct (reduce_remove_merge false true example_unreduced P1 eq_refl P1_to_asu_is_in)
    as (reduced & H1 & _ & _ & H2 & _).
  exists reduced. by split.
Defined.

(** ** The loops of [json.hpp] *)

Section ForEach.
Context {St : Type} (body : nat -> St -> outcome St).

Lemma for_each_app (l1 l2 : list nat) (s : St) :
  for_each body (l1 ++ l2) s = s' ← for_each body l1 s; for_each body l2 s'.
Proof.
  revert s. induction l1 as [|i l1 IH]; intros s; simpl; [done|].
  destruct (body i s); simpl; auto.
Qed.

Lemma for_each_seq_invariant (I : nat -> St -> Prop) (n : nat) (s : St) :
  I 0%nat s ->
  (forall i s1, (i < n)%nat -> I i s1 -> exists s2, body i s1 = Ok s2 /\ I (S i) s2) ->
  exists s', for_each body (seq 0 n) s = Ok s' /\ I n s'.
Proof.
  intros H0 Hstep. induction n as [|n IH].
  - by exists s.
  - destruct IH as (s1 & H1 & HI); [intros; apply Hstep; [lia|done]|].
    destruct (Hstep n s1) as (s2 & H2 & HI2); [lia|done|].
    exists s2. rewrite seq_S, for_each_app, H1. simpl. by rewrite H2.
Qed.

Lemma for_each_Ok_inv (l : list nat) (s s' : St) :
  for_each body l s = Ok s' ->
  Forall (fun i => exists s1 s2, body i s1 = Ok s2) l.
Proof.
  revert s. induction l as [|i l IH]; intros s Hs; [constructor|].
  simpl in Hs. destruct (body i s) eqn:E; try done.
  constructor; eauto.
Qed.

End ForEach.

Lemma column_index_inj (c j j' k k' : nat) :
  (j < c)%nat -> (j' < c)%nat -> (j + k * c = j' + k' * c)%nat -> j = j' /\ k = k'.
Proof.
  intros Hj Hj' E.
  assert (j = j') as ->.
  { apply (f_equal (fun x => x mod c)%nat) in E.
    rewrite !Nat.Div0.mod_add in E. by rewrite !Nat.mod_small in E. }
  split; [done|]. nia.
Qed.

Section Columns.
Context `{CifText}.
Local Open Scope nat_scope.

Lemma assign_values_column (es : list sajson_value) (column : list string)
    (j cif_cols : nat) (loop : Loop) :
  Forall2 (fun e text => as_cif_value e = Ok text) es column ->
  j < cif_cols ->
  cif_cols * length es <= length (values loop) ->
  exists loop',
    for_each (assign_value (json_array es) j cif_cols) (seq 0 (length es)) loop = Ok loop' /\
    tags loop' = tags loop /\
    length (values loop') = length (values loop) /\
    (forall k text, column !! k = Some text ->
                    values loop' !! (j + k * cif_cols) = Some text) /\
    (forall idx, (forall k, k < length es -> idx <> j + k * cif_cols) ->
                 values loop' !! idx = values loop !! idx).
Proof.
  intros Hes Hj Hlen.
  destruct (for_each_seq_invariant (assign_value (json_array es) j cif_cols)
    (fun n loop' =>
       tags loop' = tags loop /\
       length (values loop') = length (values loop) /\
       (forall k text, k < n -> column !! k = Some text ->
                       values loop' !! (j + k * cif_cols) = Some text) /\
       (forall idx, (forall k, k < n -> idx <> j + k * cif_cols) ->
                    values loop' !! idx = values loop !! idx))
    (length es) loop) as (loop' & Hrun & Ht & Hl & Hset & Hrest).
  - split; [done|split; [done|split; [intros; lia|done]]].
  - intros k l1 Hk (Ht & Hl & Hset & Hrest).
    destruct (lookup_lt_is_Some_2 es k Hk) as [e He].
    destruct (Forall2_lookup_l _ _ _ _ _ Hes He) as (text & Htext & Hconv).
    assert (Hidx : j + k * cif_cols < length (values l1)) by nia.
    exists (set_values (<[j + k * cif_cols := text]> (values l1)) l1).
    split.
    { unfold assign_value. simpl. rewrite He. simpl. rewrite Hconv. simpl.
      by rewrite decide_True. }
    simpl. rewrite length_insert. split; [done|split; [done|split]].
    + intros k' text' Hk' Hc.
      destruct (decide (k' = k)) as [->|Hne].
      * rewrite list_lookup_insert_eq by done. congruence.
      * rewrite list_lookup_insert_ne by nia. apply Hset; [lia|done].
    + intros idx Hidx'.
      rewrite list_lookup_insert_ne.
      * apply Hrest. intros; apply Hidx'; lia.
      * intros E. by apply (Hidx' k); [lia|].
  - exists loop'. split; [done|split; [done|split; [done|split; [|done]]]].
    intros k text Hc. apply Hset; [|done].
    rewrite (Forall2_length _ _ _ Hes). by eapply lookup_lt_Some.
Qed.

End Columns.

Section Categories.
Context `{CifText}.
Local Open Scope nat_scope.

Lemma back_loop_snoc (items : list Item) (loop : Loop) :
  back_loop (items ++ [ItemLoop loop]) = Ok loop.
Proof. unfold back_loop. by rewrite last_snoc. Qed.

Lemma set_back_loop_snoc (items : list Item) (loop loop' : Loop) :
  set_back_loop loop' (items ++ [ItemLoop loop]) = items ++ [ItemLoop loop'].
Proof.
  unfold set_back_loop. rewrite length_app. simpl.
  rewrite insert_app_r_alt by lia.
  by replace (pred (length items + 1) - length items) with 0 by lia.
Qed.

Lemma fill_column_array (category_name : string) (cols : list (string * sajson_value))
    (cif_cols j : nat) (key : string) (es : list sajson_value) (items : list Item) :
  cols !! j = Some (key, json_array es) ->
  fill_column category_name (json_object cols) cif_cols (length es) j items
  = if bool_decide (length es = 1)
    then e ← get_array_element (json_array es) 0;
         v ← as_cif_value e;
         Ok (items ++ [ItemPair (category_name +:+ key) v])
    else loop ← back_loop items;
         loop ← for_each (assign_value (json_array es) j cif_cols) (seq 0 (length es))
                         (set_tags (tags loop ++ [category_name +:+ key]) loop);
         Ok (set_back_loop loop items).
Proof.
  intros Hj. unfold fill_column. simpl. rewrite Hj. simpl.
  by rewrite bool_decide_eq_false_2 by (intros E; by apply E).
Qed.

Lemma fill_columns_pairs (category_name : string) (cols : list (string * sajson_value))
    (texts : list string) (items : list Item) :
  Forall2 (fun m text => exists e, m.2 = json_array [e] /\ as_cif_value e = Ok text)
          cols texts ->
  for_each (fill_column category_name (json_object cols) (length cols) 1)
           (seq 0 (length cols)) items
  = Ok (items ++ zip_with (fun m text => ItemPair (category_name +:+ m.1) text) cols texts).
Proof.
  intros Hcols.
  set (pairs := zip_with (fun m text => ItemPair (category_name +:+ m.1) text) cols texts).
  destruct (for_each_seq_invariant
    (fill_column category_name (json_object cols) (length cols) 1)
    (fun j its => its = items ++ take j pairs) (length cols) items)
    as (its & Hrun & ->).
  - simpl. by rewrite app_nil_r.
  - intros j its Hj ->.
    destruct (lookup_lt_is_Some_2 cols j Hj) as [[key arr] Hm].
    destruct (Forall2_lookup_l _ _ _ _ _ Hcols Hm) as (text & Htext & e & Harr & Hconv).
    simpl in Harr. subst arr.
    eexists. split.
    + rewrite (fill_column_array _ _ _ _ key [e]) by done.
      simpl. rewrite Hconv. simpl. reflexivity.
    + rewrite (take_S_r _ _ (ItemPair (category_name +:+ key) text)).
      * by rewrite app_assoc.
      * unfold pairs. rewrite lookup_zip_with, Hm. simpl. by rewrite Htext.
  - rewrite Hrun. f_equal. f_equal. apply take_ge.
    unfold pairs. rewrite length_zip_with. lia.
Qed.

Lemma fill_columns_loop (category_name : string) (cols : list (string * sajson_value))
    (rows : nat) (columns : list (list string)) (items : list Item) (loop0 : Loop) :
  rows <> 1 ->
  Forall2 (fun m column =>
             exists es, m.2 = json_array es /\ length es = rows /\
                        Forall2 (fun e text => as_cif_value e = Ok text) es column)
          cols columns ->
  length cols * rows <= length (values loop0) ->
  exists loop,
    for_each (fill_column category_name (json_object cols) (length cols) rows)
             (seq 0 (length cols)) (items ++ [ItemLoop loop0])
    = Ok (items ++ [ItemLoop loop]) /\
    tags loop = tags loop0 ++ ((fun m => category_name +:+ m.1) <$> cols) /\
    length (values loop) = length (values loop0) /\
    (forall j k column text,
       columns !! j = Some column -> column !! k = Some text ->
       values loop !! (j + k * length cols) = Some text) /\
    (forall idx, length cols * rows <= idx -> values loop !! idx = values loop0 !! idx).
Proof.
  intros Hrows Hcols Hlen.
  destruct (for_each_seq_invariant
    (fill_column category_name (json_object cols) (length cols) rows)
    (fun n its =>
       exists loop,
         its = items ++ [ItemLoop loop] /\
         tags loop = tags loop0 ++ take n ((fun m => category_name +:+ m.1) <$> cols) /\
         length (values loop) = length (values loop0) /\
         (forall j k column text,
            j < n -> columns !! j = Some column -> column !! k = Some text ->
            values loop !! (j + k * length cols) = Some text) /\
         (forall idx, length cols * rows <= idx -> values loop !! idx = values loop0 !! idx))
    (length cols) (items ++ [ItemLoop loop0]))
    as (its & Hrun & loop & -> & Ht & Hl & Hset & Hrest).
  - exists loop0. simpl. rewrite app_nil_r.
    split; [done|split; [done|split; [done|split; [intros; lia|done]]]].
  - intros j its Hj (loop & -> & Ht & Hl & Hset & Hrest).
    destruct (lookup_lt_is_Some_2 cols j Hj) as [[key arr] Hm].
    destruct (Forall2_lookup_l _ _ _ _ _ Hcols Hm)
      as (column & Hcolumn & es & Harr & Hes & Hconv).
    simpl in Harr. subst arr. subst rows.
    destruct (assign_values_column es column j (length cols)
                (set_tags (tags loop ++ [category_name +:+ key]) loop) Hconv Hj)
      as (loop' & Hrun' & Ht' & Hl' & Hset' & Hrest'); [simpl; lia|].
    simpl in Ht', Hl', Hrest'.
    exists (items ++ [ItemLoop loop']). split.
    + rewrite (fill_column_array _ _ _ _ key es) by done.
      rewrite bool_decide_eq_false_2 by done.
      rewrite back_loop_snoc. simpl. rewrite Hrun'. simpl.
      by rewrite set_back_loop_snoc.
    + exists loop'. split; [done|]. split; [|split; [lia|split]].
      * rewrite Ht', Ht, <- app_assoc. f_equal. symmetry. apply take_S_r.
        by rewrite list_lookup_fmap, Hm.
      * intros j' k column' text Hj' Hc Hk.
        destruct (decide (j' = j)) as [->|Hne].
        -- apply Hset'. congruence.
        -- rewrite Hrest'.
           ++ apply (Hset j' k column'); [lia|done..].
           ++ intros k' _ E. apply column_index_inj in E as [E _]; [done| |done].
              apply lookup_lt_Some in Hc.
              rewrite <- (Forall2_length _ _ _ Hcols) in Hc. lia.
      * intros idx Hidx. rewrite Hrest'; [by apply Hrest|].
        intros k Hk ->. nia.
  - exists loop. split; [done|]. split; [|split; [done|split; [|done]]].
    + rewrite Ht. f_equal. apply take_ge. rewrite length_fmap. lia.
    + intros j k column text Hc. apply Hset; [|done].
      rewrite (Forall2_length _ _ _ Hcols). by eapply lookup_lt_Some.
Qed.

End Categories.

Section Reader.
Context `{CifText}.
Local Open Scope nat_scope.

Lemma as_cif_value_Ok_type (e : sajson_value) (text : string) :
  as_cif_value e = Ok text -> get_type e ∈ cif_types.
Proof. destruct e; simpl; intros; try done; unfold cif_types; repeat constructor. Qed.

Lemma cif_type_as_cif_value (e : sajson_value) :
  get_type e ∈ cif_types -> exists text, as_cif_value e = Ok text.
Proof.
  unfold cif_types. rewrite !elem_of_cons, elem_of_nil.
  destruct e; simpl; intros [Ht|[Ht|[Ht|[Ht|[]]]]]; try discriminate Ht; eauto.
Qed.

Lemma cif_types_texts (es : list sajson_value) :
  Forall (fun e => get_type e ∈ cif_types) es ->
  exists column, Forall2 (fun e text => as_cif_value e = Ok text) es column.
Proof.
  intros Hes. apply Forall_exists_Forall2_l.
  eapply Forall_impl; [exact Hes|]. intros e. apply cif_type_as_cif_value.
Qed.

Lemma fill_column_Ok_inv (category_name : string) (cols : list (string * sajson_value))
    (cif_cols rows j : nat) (items items' : list Item) :
  fill_column category_name (json_object cols) cif_cols rows j items = Ok items' ->
  exists key es,
    cols !! j = Some (key, json_array es) /\ length es = rows /\
    Forall (fun e => get_type e ∈ cif_types) es.
Proof.
  unfold fill_column. simpl.
  destruct (cols !! j) as [[key arr]|] eqn:Hm; simpl; [|done].
  destruct arr as [| | | | | |es|]; simpl; try done.
  case_bool_decide as Hlen; [done|].
  intros Hrun. exists key, es. split; [done|split; [done|]].
  case_bool_decide as Hone.
  - destruct es as [|e [|]]; simpl in *; try lia.
    destruct (as_cif_value e) eqn:E; try done.
    constructor; [by eapply as_cif_value_Ok_type|constructor].
  - destruct (back_loop items) as [loop| | |]; simpl in Hrun; try done.
    destruct (for_each _ _ _) as [loop'| | |] eqn:Hloop; try done.
    apply for_each_Ok_inv in Hloop.
    apply Forall_lookup. intros k e He.
    rewrite Forall_forall in Hloop.
    destruct (Hloop k) as (l1 & l2 & Hk).
    { apply elem_of_seq. apply lookup_lt_Some in He. lia. }
    unfold assign_value in Hk. simpl in Hk. rewrite He in Hk. simpl in Hk.
    destruct (as_cif_value e) eqn:E; try done.
    by eapply as_cif_value_Ok_type.
Qed.

Lemma fill_category_Ok_inv (members : list (string * sajson_value)) (i : nat)
    (items items' : list Item) :
  fill_category (json_object members) i items = Ok items' ->
  exists cat category rows, members !! i = Some (cat, category) /\ is_table rows category.
Proof.
  unfold fill_category. simpl.
  destruct (members !! i) as [[cat category]|] eqn:Hm; simpl; [|done].
  destruct category as [| | | | | | |cols]; simpl; try done.
  case_bool_decide as Hcols; [done|].
  destruct cols as [|[key0 first] rest] eqn:Ecols; [done|]. rewrite <- Ecols. simpl.
  rewrite Ecols at 1. simpl.
  destruct first as [| | | | | |es0|]; simpl; try done.
  intros Hrun. apply for_each_Ok_inv in Hrun.
  exists cat, (json_object cols), (length es0). split; [by rewrite Ecols|].
  exists cols. split; [done|]. split; [by rewrite Ecols|].
  apply Forall_lookup. intros j m Hj.
  rewrite Forall_forall in Hrun.
  destruct (Hrun j) as (s1 & s2 & Hcol).
  { apply elem_of_seq. apply lookup_lt_Some in Hj. lia. }
  apply fill_column_Ok_inv in Hcol as (key & es & Hj' & Hlen & Hes).
  exists es. rewrite Hj' in Hj. by simplify_eq.
Qed.

Lemma fill_category_object (members : list (string * sajson_value)) (i : nat)
    (cat key0 : string) (es0 : list sajson_value) (rest : list (string * sajson_value))
    (items : list Item) :
  members !! i = Some (cat, json_object ((key0, json_array es0) :: rest)) ->
  let cols := (key0, json_array es0) :: rest in
  fill_category (json_object members) i items
  = for_each (fill_column ("_" +:+ cat +:+ ".") (json_object cols) (length cols)
                          (length es0))
             (seq 0 (length cols))
             (if decide (1 < length es0)
              then items ++ [ItemLoop (mkLoop [] (replicate (length cols * length es0) ""))]
              else items).
Proof. intros Hm. unfold fill_category. simpl. rewrite Hm. reflexivity. Qed.

Lemma prefix_substr (prefix str : string) :
  String.prefix prefix str = true ->
  str = prefix +:+ substr (String.length prefix) str.
Proof.
  revert str. induction prefix as [|a prefix IH]; intros str; [by destruct str|].
  destruct str as [|b str]; [done|]. cbn [String.prefix].
  destruct (Ascii.ascii_dec a b) as [->|]; [|done].
  intros Hp. simpl. by rewrite (IH _ Hp) at 1.
Qed.

Lemma starts_with_data (block_name : string) :
  starts_with block_name "data_" = true ->
  block_name = "data_" +:+ substr 5 block_name.
Proof. apply prefix_substr. Qed.

Lemma substr_data (block_name : string) :
  starts_with ("data_" +:+ block_name) "data_" = true /\
  substr 5 ("data_" +:+ block_name) = block_name.
Proof. split; [|reflexivity]. unfold starts_with. by destruct block_name. Qed.

End Reader.

Section Document.
Context `{CifText}.
Local Open Scope nat_scope.

Lemma fill_category_table (members : list (string * sajson_value)) (i : nat)
    (cat : string) (category : sajson_value) (rows : nat) (items : list Item) :
  members !! i = Some (cat, category) ->
  is_table rows category ->
  1 <= rows ->
  exists its cols,
    category = json_object cols /\
    fill_category (json_object members) i items = Ok (items ++ its) /\
    category_items ("_" +:+ cat +:+ ".") cols its.
Proof.
  intros Hm (cols & -> & Hne & Hcols) Hrows.
  assert (Hcolumns : exists columns,
    Forall2 (fun m column =>
               exists es, m.2 = json_array es /\ length es = rows /\
                          Forall2 (fun e text => as_cif_value e = Ok text) es column)
            cols columns).
  { apply Forall_exists_Forall2_l. eapply Forall_impl; [exact Hcols|].
    intros m (es & Hm2 & Hlen & Hes). destruct (cif_types_texts es Hes) as [column Hc].
    by exists column, es. }
  destruct Hcolumns as [columns Hcolumns].
  destruct cols as [|[key0 first] rest] eqn:Ecols; [done|].
  assert (Hfirst : exists es0, first = json_array es0 /\ length es0 = rows).
  { apply Forall_cons in Hcols as [(es0 & Hf & Hl & _) _]. by exists es0. }
  destruct Hfirst as (es0 & -> & Hlen0).
  rewrite (fill_category_object _ _ _ _ _ _ _ Hm). cbv zeta.
  rewrite <- Ecols in *. rewrite Hlen0.
  destruct (decide (rows = 1)) as [->|Hmany].
  - rewrite decide_False by lia.
    assert (Htexts : exists texts,
      Forall2 (fun m text => exists e, m.2 = json_array [e] /\ as_cif_value e = Ok text)
              cols texts).
    { apply Forall_exists_Forall2_l. eapply Forall_impl; [exact Hcols|].
      intros m (es & Hm2 & Hlen & Hes).
      destruct es as [|e [|]]; simpl in Hlen; try lia.
      apply Forall_cons in Hes as [He _].
      destruct (cif_type_as_cif_value e He) as [text Ht]. by exists text, e. }
    destruct Htexts as [texts Htexts].
    eexists _, cols. split; [done|]. split.
    + by apply fill_columns_pairs.
    + left. by exists texts.
  - rewrite decide_True by lia.
    destruct (fill_columns_loop ("_" +:+ cat +:+ ".") cols rows columns items
                (mkLoop [] (replicate (length cols * rows) "")) Hmany Hcolumns)
      as (loop & Hrun & Ht & Hl & Hset & _).
    { simpl. by rewrite length_replicate. }
    simpl in Ht, Hl. rewrite length_replicate in Hl.
    exists [ItemLoop loop], cols. split; [done|]. split; [done|].
    right. exists rows, columns, loop.
    split; [lia|]. by repeat (split; [done|]).
Qed.

Lemma fill_document_blocks (d : Document) (s : sajson_document) (block_name : string)
    (categories : list (string * sajson_value)) (block_0 : Block) (others : list Block) :
  get_root s = json_object [("data_" +:+ block_name, json_object categories)] ->
  blocks d ++ [mkBlock block_name []] = block_0 :: others ->
  fill_document_from_sajson d s
  = items ← for_each (fill_category (json_object categories))
                     (seq 0 (length categories)) (items block_0);
    Ok (mkDocument (source d) (set_items items block_0 :: others)).
Proof.
  intros Hroot Hblocks. unfold fill_document_from_sajson. rewrite Hroot.
  cbn [get_type get_length get_object_key get_object_value mbind outcome_bind
       bool_decide decide_rel lookup list_lookup fst snd length].
  rewrite bool_decide_eq_false_2 by (intros E; by apply E).
  rewrite bool_decide_eq_false_2 by (intros E; by apply E).
  destruct (substr_data block_name) as [-> ->].
  cbn [negb set_blocks blocks]. by rewrite Hblocks.
Qed.

Lemma fill_document_Ok_inv (d d' : Document) (s : sajson_document) :
  fill_document_from_sajson d s = Ok d' ->
  exists block_name categories,
    get_root s = json_object [("data_" +:+ block_name, json_object categories)].
Proof.
  unfold fill_document_from_sajson.
  destruct (get_root s) as [| | | | | | |members]; simpl; try done.
  case_bool_decide as Hlen; [done|].
  destruct members as [|[key top] [|]]; simpl in Hlen; try lia. simpl.
  destruct (starts_with key "data_") eqn:Hp; simpl; [|done].
  destruct (blocks d ++ _) as [|block_0 others]; [done|].
  destruct top as [| | | | | | |categories]; simpl; try done.
  intros _. exists (substr 5 key), categories.
  by rewrite <- starts_with_data.
Qed.

Lemma for_each_categories (categories : list (string * sajson_value)) (rows : list nat) :
  Forall2 (fun c r => is_table r c.2 /\ 1 <= r) categories rows ->
  exists itemss : list (list Item),
    for_each (fill_category (json_object categories)) (seq 0 (length categories)) []
    = Ok (concat itemss) /\
    Forall2 (fun c its =>
               exists cols, c.2 = json_object cols /\
                            category_items ("_" +:+ c.1 +:+ ".") cols its)
            categories itemss.
Proof.
  intros Hcats.
  destruct (for_each_seq_invariant (fill_category (json_object categories))
    (fun n its =>
       exists itemss,
         its = concat itemss /\
         Forall2 (fun c its =>
                    exists cols, c.2 = json_object cols /\
                                 category_items ("_" +:+ c.1 +:+ ".") cols its)
                 (take n categories) itemss)
    (length categories) []) as (its & Hrun & itemss & -> & Hall).
  - exists []. split; [done|]. simpl. constructor.
  - intros i its Hi (itemss & -> & Hall).
    destruct (lookup_lt_is_Some_2 categories i Hi) as [[cat category] Hc].
    destruct (Forall2_lookup_l _ _ _ _ _ Hcats Hc) as (r & _ & Htable & Hr).
    destruct (fill_category_table categories i cat category r (concat itemss) Hc Htable Hr)
      as (new & cols & -> & Hfill & Hitems).
    exists (concat itemss ++ new). split; [done|].
    exists (itemss ++ [new]). split.
    + rewrite concat_app. simpl. by rewrite app_nil_r.
    + rewrite (take_S_r _ _ _ Hc). apply Forall2_app; [done|].
      constructor; [|constructor]. by exists cols.
  - exists itemss. split; [done|]. by rewrite take_ge in Hall.
Qed.

End Document.

(** ** Reading mmJSON *)

(** X17.  A category whose columns are arrays of one element each leaves a
    pair for every column, in the order of the columns, after the items that
    were there: the tag is [_category.column] and the value is the text of
    the element. *)
Theorem fill_category_single_row `{CifText} (members : list (string * sajson_value))
    (i : nat) (cat : string) (cols : list (string * sajson_value)) (texts : list string)
    (items : list Item) :
  members !! i = Some (cat, json_object cols) ->
  cols <> [] ->
  Forall2 (fun m text => exists e, m.2 = json_array [e] /\ as_cif_value e = Ok text)
          cols texts ->
  fill_category (json_object members) i items
  = Ok (items ++ zip_with (fun m text => ItemPair (("_" +:+ cat +:+ ".") +:+ m.1) text)
                          cols texts).
Proof.
  intros Hm Hne Hcols.
  destruct cols as [|[key0 first] rest] eqn:Ecols; [done|].
  assert (exists e0, first = json_array [e0]) as [e0 ->].
  { apply Forall2_cons_inv_l in Hcols as (text & texts' & (e & He & _) & _ & _).
    by exists e. }
  rewrite (fill_category_object _ _ _ _ _ _ _ Hm). cbv zeta.
  rewrite decide_False by (simpl; lia).
  by apply fill_columns_pairs.
Qed.

(** X17 at the category [cell] of [example_mmjson]. *)
Lemma fill_category_single_row_witness :
  @fill_category example_text
     (json_object [("cell", example_cell_category); ("atom_site", example_atom_site_category)]) 0 []
  = Ok [ItemPair "_cell.length_a" "10"; ItemPair "_cell.length_b" "20"].
Proof.
  apply (@fill_category_single_row example_text
           [("cell", example_cell_category); ("atom_site", example_atom_site_category)] 0 "cell"
           [("length_a", json_array [json_integer 10]);
            ("length_b", json_array [json_integer 20])]
           ["10"; "20"] []).
  - reflexivity.
  - discriminate.
  - constructor; [|constructor; [|constructor]].
    + exists (json_integer 10). split; reflexivity.
    + exists (json_integer 20). split; reflexivity.
Defined.

(** X18.  A category whose columns are arrays of [rows] elements each, with
    [rows] above one, leaves one loop after the items that were there.  Its
    tags are the columns in their order, it has [cols * rows] values, and
    the text of element [k] of column [j] is the value at [j + k * cols]:
    the columns of the category are the columns of the loop, written row
    after row. *)
Theorem fill_category_several_rows `{CifText} (members : list (string * sajson_value))
    (i : nat) (cat : string) (cols : list (string * sajson_value)) (rows : nat)
    (columns : list (list string)) (items : list Item) :
  members !! i = Some (cat, json_object cols) ->
  cols <> [] ->
  (1 < rows)%nat ->
  Forall2 (fun m column =>
             exists es, m.2 = json_array es /\ length es = rows /\
                        Forall2 (fun e text => as_cif_value e = Ok text) es column)
          cols columns ->
  exists loop : Loop,
    fill_category (json_object members) i items = Ok (items ++ [ItemLoop loop]) /\
    tags loop = (fun m => ("_" +:+ cat +:+ ".") +:+ m.1) <$> cols /\
    length (values loop) = (length cols * rows)%nat /\
    forall (j k : nat) (column : list string) (text : string),
      columns !! j = Some column -> column !! k = Some text ->
      values loop !! (j + k * length cols)%nat = Some text.
Proof.
  intros Hm Hne Hrows Hcols.
  destruct cols as [|[key0 first] rest] eqn:Ecols; [done|].
  assert (exists es0, first = json_array es0 /\ length es0 = rows) as (es0 & -> & Hlen0).
  { apply Forall2_cons_inv_l in Hcols as (c & cs & (es & He & Hl & _) & _ & _).
    by exists es. }
  rewrite (fill_category_object _ _ _ _ _ _ _ Hm). cbv zeta.
  rewrite <- Ecols in *. rewrite Hlen0. rewrite decide_True by done.
  destruct (fill_columns_loop ("_" +:+ cat +:+ ".") cols rows columns items
              (mkLoop [] (replicate (length cols * rows) "")))
    as (loop & Hrun & Ht & Hl & Hset & _); [lia|done| |].
  { simpl. by rewrite length_replicate. }
  simpl in Ht, Hl. rewrite length_replicate in Hl.
  exists loop. by repeat (split; [done|]).
Qed.

(** X18 at the category [atom_site] of [example_mmjson], after the two pairs
    of [cell]. *)
Lemma fill_category_several_rows_witness :
  exists loop : Loop,
    @fill_category example_text
       (json_object [("cell", example_cell_category); ("atom_site", example_atom_site_category)]) 1
       [ItemPair "_cell.length_a" "10"; ItemPair "_cell.length_b" "20"]
    = Ok ([ItemPair "_cell.length_a" "10"; ItemPair "_cell.length_b" "20"]
          ++ [ItemLoop loop]) /\
    tags loop = ["_atom_site.id"; "_atom_site.label"] /\
    values loop !! 1%nat = Some "CA" /\
    values loop !! 2%nat = Some "2".
Proof.
  destruct (@fill_category_several_rows example_text
              [("cell", example_cell_category); ("atom_site", example_atom_site_category)] 1 "atom_site"
              [("id", json_array [json_integer 1; json_integer 2]);
               ("label", json_array [json_string "CA"; json_null])]
              2 [["1"; "2"]; ["CA"; "?"]]
              [ItemPair "_cell.length_a" "10"; ItemPair "_cell.length_b" "20"])
    as (loop & Hrun & Ht & _ & Hv).
  - reflexivity.
  - discriminate.
  - lia.
  - constructor; [|constructor; [|constructor]].
    + exists [json_integer 1; json_integer 2].
      split; [reflexivity|split; [reflexivity|]].
      constructor; [reflexivity|constructor; [reflexivity|constructor]].
    + exists [json_string "CA"; json_null].
      split; [reflexivity|split; [reflexivity|]].
      constructor; [reflexivity|constructor; [reflexivity|constructor]].
  - exists loop. split; [exact Hrun|]. split; [exact Ht|]. split.
    + exact (Hv 1%nat 0%nat ["CA"; "?"] "CA" eq_refl eq_refl).
    + exact (Hv 0%nat 1%nat ["1"; "2"] "2" eq_refl eq_refl).
Defined.

Lemma fill_category_no_rows_no_item `{CifText} (members : list (string * sajson_value))
    (i : nat) (cat key : string) (rest : list (string * sajson_value)) :
  members !! i = Some (cat, json_object ((key, json_array []) :: rest)) ->
  fill_category (json_object members) i [] = Undefined.
Proof.
  intros Hm. rewrite (fill_category_object _ _ _ _ _ _ _ Hm). cbv zeta.
  rewrite decide_False by (simpl; lia). cbn [length seq for_each].
  by rewrite (fill_column_array _ _ _ _ key []).
Qed.

(** X19.  A category whose first column is an array without elements is
    not given a loop of its own: the call reads the last item as a loop.
    With no item, or with a pair as the last item, the behaviour is
    undefined.  With a loop as the last item and no element in any column,
    the tags of the category are added to that loop and its values stay. *)
Theorem fill_category_no_rows `{CifText} (members : list (string * sajson_value))
    (i : nat) (cat key : string) (rest : list (string * sajson_value)) :
  members !! i = Some (cat, json_object ((key, json_array []) :: rest)) ->
  fill_category (json_object members) i [] = Undefined /\
  (forall before tag text,
     fill_category (json_object members) i (before ++ [ItemPair tag text]) = Undefined) /\
  (forall before loop,
     Forall (fun m => m.2 = json_array []) rest ->
     fill_category (json_object members) i (before ++ [ItemLoop loop])
     = Ok (before ++
           [ItemLoop (set_tags (tags loop ++
                                ((fun m => ("_" +:+ cat +:+ ".") +:+ m.1)
                                   <$> (key, json_array []) :: rest))
                               loop)])).
Proof.
  intros Hm. split; [|split].
  - by apply (fill_category_no_rows_no_item members i cat key rest).
  - intros before tag text.
    rewrite (fill_category_object _ _ _ _ _ _ _ Hm). cbv zeta.
    rewrite decide_False by (simpl; lia). cbn [length seq for_each].
    rewrite (fill_column_array _ _ _ _ key []) by done.
    cbn [length bool_decide decide_rel]. unfold back_loop. by rewrite last_snoc.
  - intros before loop Hrest.
    rewrite (fill_category_object _ _ _ _ _ _ _ Hm). cbv zeta.
    rewrite decide_False by (simpl; lia).
    set (cols := (key, json_array []) :: rest).
    destruct (fill_columns_loop ("_" +:+ cat +:+ ".") cols 0
                (replicate (length cols) []) before loop)
      as (loop' & Hrun & Ht & Hl & _ & Hrest'); [lia| |lia|].
    { apply Forall2_replicate_r; [done|]. unfold cols. constructor.
      - exists []. split; [done|split; [done|constructor]].
      - eapply Forall_impl; [exact Hrest|]. intros m Hm2.
        exists []. split; [done|split; [done|constructor]]. }
    change (length (@nil sajson_value)) with 0%nat. rewrite Hrun.
    assert (loop' = set_tags (tags loop') loop) as ->.
    { destruct loop' as [t v]. unfold set_tags. simpl in *. f_equal.
      apply list_eq. intros idx. apply Hrest'. lia. }
    by rewrite Ht.
Qed.

(** X19 at the category of [example_no_rows]. *)
Lemma fill_category_no_rows_witness :
  @fill_category example_text
     (json_object [("cell", json_object [("length_a", json_array [])])]) 0 []
  = Undefined.
Proof.
  exact (proj1 (@fill_category_no_rows example_text
                  [("cell", json_object [("length_a", json_array [])])] 0 "cell"
                  "length_a" [] eq_refl)).
Defined.

Lemma read_mmjson_insitu_valid `{CifText} (parse : string -> sajson_document)
    (buffer name : string) :
  document_is_valid (parse buffer) = true ->
  read_mmjson_insitu parse buffer name
  = doc ← fill_document_from_sajson Document_new (parse buffer); Ok (set_source name doc).
Proof. intros Hv. unfold read_mmjson_insitu. by rewrite Hv. Qed.

(** X20.  A text whose first category has a first column without elements
    is not refused: the behaviour of the reader is undefined, whatever the
    rest of the text holds. *)
Theorem read_mmjson_insitu_no_rows `{CifText} (parse : string -> sajson_document)
    (buffer name block_name cat key : string)
    (rest categories : list (string * sajson_value)) :
  document_is_valid (parse buffer) = true ->
  get_root (parse buffer)
  = json_object [("data_" +:+ block_name,
                  json_object ((cat, json_object ((key, json_array []) :: rest))
                               :: categories))] ->
  read_mmjson_insitu parse buffer name = Undefined.
Proof.
  intros Hv Hroot. rewrite read_mmjson_insitu_valid by done.
  rewrite (fill_document_blocks _ _ _ _ (mkBlock block_name []) [] Hroot) by done.
  cbn [length seq for_each items].
  by rewrite (fill_category_no_rows_no_item
                ((cat, json_object ((key, json_array []) :: rest)) :: categories)
                0 cat key rest eq_refl).
Qed.

(** X20 at [example_no_rows]. *)
Lemma read_mmjson_insitu_no_rows_witness :
  @read_mmjson_insitu example_text (fun _ => example_no_rows) "" "1abc.json" = Undefined.
Proof.
  exact (@read_mmjson_insitu_no_rows example_text (fun _ => example_no_rows) ""
           "1abc.json" "1ABC" "cell" "length_a" [] [] eq_refl eq_refl).
Defined.

(** X21.  What the reader returns comes from a text of one shape.  When
    [read_mmjson_insitu] returns a document, the text was parsed, its root is
    an object with the one key [data_] followed by a block name, and under
    it every category is a table: an object with at least one column, the
    columns of a category arrays of one length, their elements integers,
    doubles, nulls or strings.  The document has the given name as its
    source and one block, with the block name of the text. *)
Theorem read_mmjson_insitu_accepts `{CifText} (parse : string -> sajson_document)
    (buffer name : string) (doc : Document) :
  read_mmjson_insitu parse buffer name = Ok doc ->
  document_is_valid (parse buffer) = true /\
  exists (block_name : string) (categories : list (string * sajson_value))
         (its : list Item),
    get_root (parse buffer)
    = json_object [("data_" +:+ block_name, json_object categories)] /\
    doc = mkDocument name [mkBlock block_name its] /\
    Forall (fun c => exists rows : nat, is_table rows c.2) categories.
Proof.
  intros Hread.
  destruct (document_is_valid (parse buffer)) eqn:Hv.
  2:{ unfold read_mmjson_insitu in Hread. by rewrite Hv in Hread. }
  split; [done|].
  rewrite read_mmjson_insitu_valid in Hread by done.
  destruct (fill_document_from_sajson _ _) as [d| | |] eqn:Hfill; try done.
  simpl in Hread. injection Hread as <-.
  destruct (fill_document_Ok_inv _ _ _ Hfill) as (block_name & categories & Hroot).
  rewrite (fill_document_blocks _ _ _ _ (mkBlock block_name []) [] Hroot) in Hfill by done.
  destruct (for_each _ _ _) as [its| | |] eqn:Hrun; try done.
  simpl in Hfill. injection Hfill as <-.
  exists block_name, categories, its. split; [done|]. split; [done|].
  apply for_each_Ok_inv in Hrun. rewrite Forall_forall in Hrun.
  apply Forall_lookup. intros i [cat category] Hc.
  destruct (Hrun i) as (s1 & s2 & Hi).
  { apply elem_of_seq. apply lookup_lt_Some in Hc. lia. }
  apply fill_category_Ok_inv in Hi as (cat' & category' & rows & Hc' & Htable).
  exists rows. rewrite Hc in Hc'. by simplify_eq.
Qed.

(** X21 at [example_mmjson], which is read as [example_cif]. *)
Lemma read_mmjson_insitu_accepts_witness :
  document_is_valid (example_parse "") = true /\
  exists (block_name : string) (categories : list (string * sajson_value))
         (its : list Item),
    get_root (example_parse "")
    = json_object [("data_" +:+ block_name, json_object categories)] /\
    example_cif = mkDocument "1abc.json" [mkBlock block_name its] /\
    Forall (fun c => exists rows : nat, is_table rows c.2) categories.
Proof.
  apply (@read_mmjson_insitu_accepts example_text example_parse "" "1abc.json" example_cif).
  reflexivity.
Defined.

(** X22.  A text of that shape in which every table has at least one row
    is read: the document has the given name as its source and one block
    with the block name of the text, and the items of the block are the
    items of the categories in their order, pairs for a table of one row and
    one loop for a table of more rows. *)
Theorem read_mmjson_insitu_tables `{CifText} (parse : string -> sajson_document)
    (buffer name block_name : string) (categories : list (string * sajson_value)) :
  document_is_valid (parse buffer) = true ->
  get_root (parse buffer)
  = json_object [("data_" +:+ block_name, json_object categories)] ->
  Forall (fun c => exists rows : nat, is_table rows c.2 /\ (1 <= rows)%nat) categories ->
  exists itemss : list (list Item),
    read_mmjson_insitu parse buffer name
    = Ok (mkDocument name [mkBlock block_name (concat itemss)]) /\
    Forall2 (fun c its =>
               exists cols, c.2 = json_object cols /\
                            category_items ("_" +:+ c.1 +:+ ".") cols its)
            categories itemss.
Proof.
  intros Hv Hroot Hcats.
  apply Forall_exists_Forall2_l in Hcats as [rows Hrows].
  destruct (for_each_categories categories rows Hrows) as (itemss & Hrun & Hall).
  exists itemss. split; [|done].
  rewrite read_mmjson_insitu_valid by done.
  rewrite (fill_document_blocks _ _ _ _ (mkBlock block_name []) [] Hroot) by done.
  cbn [items]. by rewrite Hrun.
Qed.

(** X22 at [example_mmjson]. *)
Lemma read_mmjson_insitu_tables_witness :
  exists itemss : list (list Item),
    @read_mmjson_insitu example_text example_parse "" "1abc.json"
    = Ok (mkDocument "1abc.json" [mkBlock "1ABC" (concat itemss)]) /\
    length itemss = 2%nat.
Proof.
  destruct (@read_mmjson_insitu_tables example_text example_parse "" "1abc.json" "1ABC"
              [("cell", example_cell_category); ("atom_site", example_atom_site_category)])
    as (itemss & Hread & Hall).
  - reflexivity.
  - reflexivity.
  - constructor; [|constructor; [|constructor]].
    + exists 1%nat. split; [|lia]. eexists. split; [reflexivity|]. split; [discriminate|].
      constructor; [|constructor; [|constructor]];
        (eexists; split; [reflexivity|]; split; [reflexivity|]);
        repeat (constructor; [unfold cif_types; simpl; repeat constructor|]); constructor.
    + exists 2%nat. split; [|lia]. eexists. split; [reflexivity|]. split; [discriminate|].
      constructor; [|constructor; [|constructor]];
        (eexists; split; [reflexivity|]; split; [reflexivity|]);
        repeat (constructor; [unfold cif_types; simpl; repeat constructor|]); constructor.
  - exists itemss. split; [exact Hread|].
    exact (eq_sym (Forall2_length _ _ _ Hall)).
Defined.

Section Failures.
Context `{CifText} (msgs : list string).
Hypothesis in_dots : "..." ∈ msgs.
Hypothesis in_length : "Expected array of certain length" ∈ msgs.
Hypothesis in_empty : "" ∈ msgs.
Hypothesis in_root : "not mmJSON" ∈ msgs.
Hypothesis in_key : "top level key should start with data_" ∈ msgs.

Lemma fails_only_with_bind {A B : Type} (m : outcome A) (f : A -> outcome B) :
  fails_only_with msgs m -> (forall a, fails_only_with msgs (f a)) ->
  fails_only_with msgs (m ≫= f).
Proof. destruct m; simpl; auto. Qed.

Lemma for_each_fails_only_with {St : Type} (body : nat -> St -> outcome St)
    (l : list nat) (s : St) :
  (forall i s1, fails_only_with msgs (body i s1)) ->
  fails_only_with msgs (for_each body l s).
Proof.
  intros Hbody. revert s. induction l as [|i l IH]; intros s; simpl; [done|].
  apply fails_only_with_bind; auto.
Qed.

Lemma get_length_fails_only_with (val : sajson_value) :
  fails_only_with msgs (get_length val).
Proof. by destruct val. Qed.

Lemma get_array_element_fails_only_with (val : sajson_value) (i : nat) :
  fails_only_with msgs (get_array_element val i).
Proof. destruct val as [| | | | | |es|]; simpl; try done. by destruct (es !! i). Qed.

Lemma get_object_key_fails_only_with (val : sajson_value) (i : nat) :
  fails_only_with msgs (get_object_key val i).
Proof. destruct val as [| | | | | | |ms]; simpl; try done. by destruct (ms !! i). Qed.

Lemma get_object_value_fails_only_with (val : sajson_value) (i : nat) :
  fails_only_with msgs (get_object_value val i).
Proof. destruct val as [| | | | | | |ms]; simpl; try done. by destruct (ms !! i). Qed.

Lemma as_cif_value_fails_only_with (val : sajson_value) :
  fails_only_with msgs (as_cif_value val).
Proof. by destruct val. Qed.

Lemma assign_value_fails_only_with (arr : sajson_value) (j cif_cols k : nat) (loop : Loop) :
  fails_only_with msgs (assign_value arr j cif_cols k loop).
Proof.
  unfold assign_value.
  apply fails_only_with_bind; [apply get_array_element_fails_only_with|intros e].
  apply fails_only_with_bind; [apply as_cif_value_fails_only_with|intros v].
  by destruct (decide _).
Qed.

Lemma fill_column_fails_only_with (category_name : string) (category : sajson_value)
    (cif_cols cif_rows j : nat) (items : list Item) :
  fails_only_with msgs (fill_column category_name category cif_cols cif_rows j items).
Proof.
  unfold fill_column.
  apply fails_only_with_bind; [apply get_object_key_fails_only_with|intros key].
  apply fails_only_with_bind; [apply get_object_value_fails_only_with|intros arr].
  case_bool_decide; [done|].
  apply fails_only_with_bind; [apply get_length_fails_only_with|intros len].
  case_bool_decide; [done|]. case_bool_decide.
  - apply fails_only_with_bind; [apply get_array_element_fails_only_with|intros e].
    by apply fails_only_with_bind; [apply as_cif_value_fails_only_with|intros v].
  - apply fails_only_with_bind; [unfold back_loop; by repeat case_match|intros loop].
    apply fails_only_with_bind; [|done].
    apply for_each_fails_only_with. intros. apply assign_value_fails_only_with.
Qed.

Lemma fill_category_fails_only_with (top : sajson_value) (i : nat) (items : list Item) :
  fails_only_with msgs (fill_category top i items).
Proof.
  unfold fill_category.
  apply fails_only_with_bind; [apply get_object_key_fails_only_with|intros key].
  apply fails_only_with_bind; [apply get_object_value_fails_only_with|intros category].
  case_bool_decide; [done|].
  apply fails_only_with_bind; [apply get_length_fails_only_with|intros cif_cols].
  case_bool_decide; [done|].
  apply fails_only_with_bind; [apply get_object_value_fails_only_with|intros first].
  case_bool_decide; [done|].
  apply fails_only_with_bind; [apply get_length_fails_only_with|intros cif_rows].
  apply for_each_fails_only_with. intros. apply fill_column_fails_only_with.
Qed.

Lemma fill_document_fails_only_with (d : Document) (s : sajson_document) :
  fails_only_with msgs (fill_document_from_sajson d s).
Proof.
  unfold fill_document_from_sajson. cbv zeta.
  case_bool_decide; [done|].
  apply fails_only_with_bind; [apply get_length_fails_only_with|intros n].
  case_bool_decide; [done|].
  apply fails_only_with_bind; [apply get_object_key_fails_only_with|intros block_name].
  destruct (negb _); [done|].
  destruct (blocks _) as [|block_0 others]; [done|].
  apply fails_only_with_bind; [apply get_object_value_fails_only_with|intros top].
  case_bool_decide; [done|].
  apply fails_only_with_bind; [apply get_length_fails_only_with|intros n'].
  apply fails_only_with_bind; [|done].
  apply for_each_fails_only_with. intros. apply fill_category_fails_only_with.
Qed.

End Failures.

(** X23.  The reader does not run on for ever, and it fails with one of six
    messages only: the one for a text that is not parsed, which starts with
    the given name, and the five of [fill_document_from_sajson] and
    [as_cif_value].  A text that is not parsed gives the first of them. *)
Theorem read_mmjson_insitu_failures `{CifText} (parse : string -> sajson_document)
    (buffer name : string) :
  fails_only_with [name +:+ ": failed to parse JSON file."; "not mmJSON";
                   "top level key should start with data_"; "";
                   "Expected array of certain length"; "..."]
                  (read_mmjson_insitu parse buffer name) /\
  (document_is_valid (parse buffer) = false ->
   read_mmjson_insitu parse buffer name = Fail (name +:+ ": failed to parse JSON file.")).
Proof.
  split.
  - unfold read_mmjson_insitu. cbv zeta.
    destruct (document_is_valid (parse buffer)); simpl; [|by left].
    apply fails_only_with_bind; [|done].
    apply fill_document_fails_only_with; rewrite !elem_of_cons; auto 10.
  - intros Hv. unfold read_mmjson_insitu. by rewrite Hv.
Qed.

(** X23 at a text that is not parsed. *)
Lemma read_mmjson_insitu_failures_witness :
  @read_mmjson_insitu example_text (fun _ => mk_sajson_document false json_null) "{"
                      "1abc.json"
  = Fail "1abc.json: failed to parse JSON file.".
Proof.
  exact (proj2 (@read_mmjson_insitu_failures example_text
                  (fun _ => mk_sajson_document false json_null) "{" "1abc.json") eq_refl).
Defined.

(** X24.  [fill_document_from_sajson] on a document that has a block
    already: the block it adds comes last and stays without items, for the
    items of the text are written to the first block of the document; the
    other blocks and the source are as before. *)
Theorem fill_document_from_sajson_first_block `{CifText} (d d' : Document)
    (s : sajson_document) (block_0 : Block) (others : list Block) :
  blocks d = block_0 :: others ->
  fill_document_from_sajson d s = Ok d' ->
  exists (block_name : string) (categories : list (string * sajson_value))
         (its : list Item),
    get_root s = json_object [("data_" +:+ block_name, json_object categories)] /\
    for_each (fill_category (json_object categories)) (seq 0 (length categories))
             (items block_0) = Ok its /\
    d' = mkDocument (source d)
                    (mkBlock (name block_0) its :: others ++ [mkBlock block_name []]).
Proof.
  intros Hblocks Hfill.
  destruct (fill_document_Ok_inv _ _ _ Hfill) as (block_name & categories & Hroot).
  rewrite (fill_document_blocks _ _ _ _ block_0 (others ++ [mkBlock block_name []]) Hroot)
    in Hfill by (by rewrite Hblocks).
  destruct (for_each _ _ _) as [its| | |] eqn:Hrun; try done.
  simpl in Hfill. injection Hfill as <-.
  by exists block_name, categories, its.
Qed.

(** X24 at [example_cif], into which [example_mmjson] is read once more. *)
Lemma fill_document_from_sajson_first_block_witness :
  exists (block_name : string) (categories : list (string * sajson_value))
         (its : list Item),
    get_root example_mmjson
    = json_object [("data_" +:+ block_name, json_object categories)] /\
    @for_each (list Item) (@fill_category example_text (json_object categories))
              (seq 0 (length categories))
              [ItemPair "_cell.length_a" "10"; ItemPair "_cell.length_b" "20";
               ItemLoop (mkLoop ["_atom_site.id"; "_atom_site.label"]
                                ["1"; "CA"; "2"; "?"])]
    = Ok its /\
    example_cif_twice
    = mkDocument "1abc.json" (mkBlock "1ABC" its :: [] ++ [mkBlock block_name []]).
Proof.
  exact (@fill_document_from_sajson_first_block example_text example_cif example_cif_twice
           example_mmjson _ [] eq_refl eq_refl).
Defined.

(** ** The loops of the table readers end *)

Lemma at_index_terminates {A : Type} (v : list A) (i : nat) : at_index v i <> Diverges.
Proof. unfold at_index. by destruct (v !! i). Qed.

Lemma float_to_int_terminates (x : float) : float_to_int x <> Diverges.
Proof. unfold float_to_int. by repeat case_match. Qed.

Lemma bind_terminates {A B : Type} (m : outcome A) (f : A -> outcome B) :
  m <> Diverges -> (forall a, f a <> Diverges) -> m ≫= f <> Diverges.
Proof. destruct m; simpl; auto. Qed.

Lemma mtz_get_hkl_terminates (mtz : Mtz) (offset : nat) : mtz_get_hkl mtz offset <> Diverges.
Proof.
  unfold mtz_get_hkl.
  repeat (apply bind_terminates; [apply at_index_terminates|intros ?]).
  repeat (apply bind_terminates; [apply float_to_int_terminates|intros ?]).
  done.
Qed.

Lemma column_with_label_columns (mtz : Mtz) (lab : string) (c : Column) :
  column_with_label mtz lab = Some c -> (0 < length (columns mtz))%nat.
Proof.
  unfold column_with_label. destruct (columns mtz); simpl; [done|lia].
Qed.

Lemma mtz_rows_loop_terminates (mtz : Mtz) (body : nat -> list Refl -> outcome (list Refl))
    (rows_at : nat -> outcome (list Refl)) (d : list Refl) :
  (forall i d1, body i d1 = (new ← rows_at i; mret (d1 ++ new))) ->
  (forall i, rows_at i <> Diverges) ->
  (0 < length (columns mtz))%nat ->
  mtz_rows_loop (length (mtz_data mtz)) mtz body 0 d <> Diverges.
Proof.
  intros Hbody Hrows Hcols. rewrite mtz_rows_loop_proxy.
  apply (proxy_rows_loop_fuel (MtzDataProxy mtz) body rows_at Hbody); simpl; [done..|nia].
Qed.

(** X25.  None of the three readers of a table runs on for ever: each of
    them looks up a column before its loop over the rows, so the table has
    a column and the loop moves on, while the loop of [read_data] by itself
    stays where it is when the stride is zero. *)
Theorem mtz_readers_terminate (mtz : Mtz) :
  read_unmerged_intensities_from_mtz mtz <> Diverges /\
  read_mean_intensities_from_mtz mtz <> Diverges /\
  read_anomalous_intensities_from_mtz mtz <> Diverges /\
  (columns mtz = [] -> mtz_data mtz <> [] ->
   forall value_idx sigma_idx self self',
     read_data (MtzDataProxy mtz) value_idx sigma_idx self <> Ok self').
Proof.
  split; [|split; [|split]].
  - unfold read_unmerged_intensities_from_mtz.
    case_bool_decide; [done|].
    destruct (column_with_label mtz "M/ISYM") as [isym_col|] eqn:Hisym; [|done].
    apply column_with_label_columns in Hisym.
    destruct (negb _); [done|].
    unfold get_column_with_label.
    destruct (column_with_label mtz "I") as [col|]; simpl; [|done].
    destruct (column_with_label mtz "SIGI") as [sigma_col|]; simpl; [|done].
    destruct (mtz_spacegroup mtz) as [sg|] eqn:Hsg; [|done].
    apply bind_terminates; [unfold dataset; by case_match|intros ds].
    apply bind_terminates.
    + apply (mtz_rows_loop_terminates mtz _ (unmerged_mtz_rows mtz (idx col) (idx sigma_col)));
        [intros; apply unmerged_mtz_body_appends| |done].
      intros i. unfold unmerged_mtz_rows, unmerged_mtz_row.
      apply bind_terminates; [|done].
      apply bind_terminates; [apply mtz_get_hkl_terminates|intros ?].
      apply bind_terminates; [apply at_index_terminates|intros ?].
      apply bind_terminates; [apply float_to_int_terminates|intros ?].
      repeat (apply bind_terminates; [apply at_index_terminates|intros ?]).
      done.
    + intros d. by unfold switch_to_asu_indices.
  - unfold read_mean_intensities_from_mtz.
    destruct (negb _); [done|].
    destruct (column_with_one_of_labels mtz ["IMEAN"; "I"]) as [col|]; [|done].
    unfold get_column_with_label.
    destruct (column_with_label mtz _) as [sigma_col|] eqn:Hsigma; simpl; [|done].
    apply column_with_label_columns in Hsigma.
    apply bind_terminates; [unfold copy_metadata; by case_match|intros intensities].
    apply bind_terminates; [unfold dataset; by case_match|intros ds].
    unfold read_data. apply bind_terminates; [|done].
    rewrite read_data_loop_proxy.
    apply (proxy_rows_loop_fuel (MtzDataProxy mtz) _ _
             (read_data_body_appends (MtzDataProxy mtz) (idx col) (idx sigma_col)));
      simpl; [done| |nia].
    intros i. unfold read_data_rows, read_row. simpl.
    apply bind_terminates; [|done].
    apply bind_terminates; [apply mtz_get_hkl_terminates|intros ?].
    repeat (apply bind_terminates; [apply at_index_terminates|intros ?]).
    done.
  - unfold read_anomalous_intensities_from_mtz.
    destruct (negb _); [done|].
    unfold get_column_with_label.
    destruct (column_with_label mtz "I(+)") as [col|] eqn:Hcol; simpl; [|done].
    apply column_with_label_columns in Hcol.
    destruct (column_with_label mtz "I(-)") as [col_minus|]; simpl; [|done].
    destruct (column_with_label mtz "SIGI(+)") as [sig_plus|]; simpl; [|done].
    destruct (column_with_label mtz "SIGI(-)") as [sig_minus|]; simpl; [|done].
    apply bind_terminates; [unfold copy_metadata; by case_match|intros intensities].
    apply bind_terminates; [unfold dataset; by case_match|intros ds].
    apply bind_terminates; [|done].
    apply (mtz_rows_loop_terminates mtz _
             (anomalous_rows (mtz_get_hkl mtz) (at_index (mtz_data mtz))
                             (idx col, idx col_minus) (idx sig_plus, idx sig_minus)));
      [intros; apply anomalous_pair_appends| |done].
    intros i. unfold anomalous_rows.
    apply bind_terminates; [apply mtz_get_hkl_terminates|intros ?].
    do 2 (apply bind_terminates; [apply at_index_terminates|intros ?]).
    apply bind_terminates; [apply mtz_get_hkl_terminates|intros ?].
    do 2 (apply bind_terminates; [apply at_index_terminates|intros ?]).
    done.
  - intros Hcols Hdata value_idx sigma_idx self self'.
    unfold read_data. rewrite read_data_loop_proxy.
    destruct (proxy_rows_loop _ _ _ _ _) as [d| | |] eqn:Hloop; simpl; try done.
    apply (proxy_rows_loop_zero_stride (MtzDataProxy mtz) _ _
             (read_data_body_appends (MtzDataProxy mtz) value_idx sigma_idx)) in Hloop;
      simpl; [done|by rewrite Hcols|].
    destruct (mtz_data mtz); [done|simpl; lia].
Qed.

(** X25 at a table without columns that holds one number: [read_data] on
    its proxy does not return. *)
Lemma mtz_readers_terminate_witness :
  read_data (MtzDataProxy (mkMtz cubic_cell (Some P1) [] [] [] [1%float] cubic_cell))
            0 1 Intensities_new
  <> Ok Intensities_new.
Proof.
  apply (proj2 (proj2 (proj2
           (mtz_readers_terminate
              (mkMtz cubic_cell (Some P1) [] [] [] [1%float] cubic_cell)))));
    [reflexivity|discriminate].
Defined.
